(** * BillPathOK: the synchronisation and stage-classification pipeline

    A shallow embedding of [database/sync-database.js] (the batch job that
    pages through the Open States API and reconciles the result with the
    PostgreSQL tables of [schema.sql]) and of the [determineBillStage]
    helper that [server.js] and [server-enhanced.js] carry as well.

    JavaScript strings are modelled as [string] (byte strings; case mapping
    is the ASCII one), [undefined]/[null] as [None], arrays as lists, SQL
    tables as lists of row records in insertion order, and the [async]
    code as a state-and-exception monad over the database, the connection
    pool and a log of the I/O performed. What the script does not decide
    (the pages the API answers, which queries the database rejects, the
    value of [NOW()]) is a parameter of every run. *)

From Stdlib Require Import String Ascii List ZArith Lia Bool Arith Permutation.
Import ListNotations.
Open Scope string_scope.
Open Scope list_scope.
Open Scope Z_scope.

(* ===================================================================== *)
(** ** JavaScript values used by the pipeline *)
(* ===================================================================== *)

Module JS.

(** [Boolean(v)] for a value that is a string, [undefined] or [null]:
    only the non-empty string is truthy. *)
Definition truthy (v : option string) : bool :=
  match v with
  | Some s => negb (String.eqb s "")
  | None => false
  end.

(** [a || b] on such values. *)
Definition or (a b : option string) : option string :=
  if truthy a then a else b.

(** [`${v}`]: template interpolation of a possibly undefined string. *)
Definition interpolate (v : option string) : string :=
  match v with
  | Some s => s
  | None => "undefined"
  end.

(** [arr.includes(x)] on an array of strings. *)
Definition includes (arr : list string) (x : string) : bool :=
  existsb (String.eqb x) arr.

(** [arr?.[0]] *)
Definition first (arr : option (list string)) : option string :=
  match arr with
  | Some (x :: _) => Some x
  | _ => None
  end.

(** [arr.filter(Boolean)] on an array of possibly undefined strings. *)
Fixpoint filter_Boolean (arr : list (option string)) : list string :=
  match arr with
  | [] => []
  | Some s :: rest =>
      if String.eqb s "" then filter_Boolean rest else s :: filter_Boolean rest
  | None :: rest => filter_Boolean rest
  end.

Definition lower_ascii (c : ascii) : ascii :=
  let n := nat_of_ascii c in
  if andb (65 <=? n)%nat (n <=? 90)%nat then ascii_of_nat (n + 32) else c.

(** [s.toLowerCase()] *)
Fixpoint toLowerCase (s : string) : string :=
  match s with
  | EmptyString => EmptyString
  | String c rest => String (lower_ascii c) (toLowerCase rest)
  end.

Fixpoint starts_with (needle hay : string) : bool :=
  match needle, hay with
  | EmptyString, _ => true
  | String _ _, EmptyString => false
  | String a n', String b h' => andb (Ascii.eqb a b) (starts_with n' h')
  end.

(** [hay.includes(needle)] on strings. *)
Fixpoint str_includes (hay needle : string) : bool :=
  if starts_with needle hay then true
  else match hay with
       | EmptyString => false
       | String _ h' => str_includes h' needle
       end.

End JS.

(* ===================================================================== *)
(** ** Records returned by the Open States API *)
(* ===================================================================== *)

(** One entry of [bill.actions]. [a_organization] is
    [action.organization?.classification]. *)
Record Action := mkAction {
  a_date : string;
  a_description : string;
  a_classification : option (list string);
  a_organization : option string
}.

Record Sponsor := mkSponsor {
  sp_name : string;
  sp_classification : option string;
  sp_entity_type : option string;
  sp_primary : option bool
}.

(** A bill as the [/bills] endpoint returns it. [b_session] is
    [bill.session?.identifier], [b_from_organization] is
    [bill.from_organization?.classification], [b_versions] holds the
    [url] of each entry of [bill.versions]. *)
Record Bill := mkBill {
  b_id : string;
  b_session : option string;
  b_identifier : string;
  b_title : string;
  b_description : option string;
  b_classification : option string;
  b_subject : option (list string);
  b_latest_action_description : option string;
  b_from_organization : option string;
  b_first_action_date : option string;
  b_latest_action_date : option string;
  b_versions : option (list (option string));
  b_actions : option (list Action);
  b_sponsorships : option (list Sponsor)
}.

(** A legislator as the [/people] endpoint returns it. [l_party0] is
    [legislator.party?.[0]?.name]; [l_role] is [legislator.current_role]
    as a pair (chamber, district). *)
Record Legislator := mkLegislator {
  l_id : string;
  l_name : string;
  l_party0 : option string;
  l_current_party : option string;
  l_role : option (option string * option string);
  l_image : option string;
  l_email : option string;
  l_phone : option string
}.

(** [legislator.party?.[0]?.name || legislator.current_party] *)
Definition l_party (l : Legislator) : option string :=
  JS.or (l_party0 l) (l_current_party l).

(** [legislator.current_role?.chamber] *)
Definition l_chamber (l : Legislator) : option string :=
  match l_role l with
  | Some (chamber, _) => chamber
  | None => None
  end.

(** [legislator.current_role?.district] *)
Definition l_district (l : Legislator) : option string :=
  match l_role l with
  | Some (_, district) => district
  | None => None
  end.

(* ===================================================================== *)
(** ** Stage Classifier *)
(* ===================================================================== *)

(** [bill.actions.map(a => a.classification?.[0]).filter(Boolean)] *)
Definition actionTypes (actions : list Action) : list string :=
  JS.filter_Boolean (map (fun a => JS.first (a_classification a)) actions).

(** [a.classification?.includes('passage')] used as a filter predicate. *)
Definition has_passage (a : Action) : bool :=
  match a_classification a with
  | Some tags => JS.includes tags "passage"
  | None => false
  end.

(** [bill.actions.filter(a => a.classification?.includes('passage'))] *)
Definition passageActions (actions : list Action) : list Action :=
  filter has_passage actions.

(** [determineBillStage] of [database/sync-database.js]. *)
Definition determineBillStage (bill : Bill) : string :=
  match b_actions bill with
  | None => "introduced"
  | Some [] => "introduced"
  | Some actions =>
      let types := actionTypes actions in
      if JS.includes types "executive-signature" then "signed"
      else if JS.includes types "executive-veto" then "vetoed"
      else if JS.includes types "became-law" then "became_law"
      else if JS.includes types "passage" then
        if (2 <=? length (passageActions actions))%nat then "enrolled"
        else "passed_chamber"
      else if JS.includes types "committee-passage" then "committee_approved"
      else if JS.includes types "referral-committee" then "committee"
      else if JS.includes types "reading-3" then "floor_calendar"
      else if JS.includes types "introduction" then "introduced"
      else "introduced"
  end.

Module Server.

(** The description fallback at the end of the servers' classifier. *)
Definition by_description (desc : option string) : string :=
  if JS.truthy desc then
    let d := JS.toLowerCase (JS.interpolate desc) in
    if JS.str_includes d "signed" then "signed"
    else if JS.str_includes d "veto" then "vetoed"
    else if JS.str_includes d "enrolled" then "enrolled"
    else if JS.str_includes d "passed" then "passed_chamber"
    else if JS.str_includes d "committee" then "committee"
    else "introduced"
  else "introduced".

(** [determineBillStage] of [server.js] and [server-enhanced.js] (the
    two copies are the same text). *)
Definition determineBillStage (bill : Bill) : string :=
  match b_actions bill with
  | None => "introduced"
  | Some [] => "introduced"
  | Some actions =>
      let types := actionTypes actions in
      if JS.includes types "executive-signature" then "signed"
      else if JS.includes types "executive-veto" then "vetoed"
      else if JS.includes types "became-law" then "became_law"
      else if JS.includes types "passage" then
        if (2 <=? length (passageActions actions))%nat then "enrolled"
        else "passed_chamber"
      else if JS.includes types "committee-passage" then "committee_approved"
      else if orb (JS.includes types "referral-committee")
                  (JS.includes types "committee-referral") then "committee"
      else if JS.includes types "reading-3" then "floor_calendar"
      else if orb (JS.includes types "introduction")
                  (JS.includes types "filing") then "introduced"
      else by_description (b_latest_action_description bill)
  end.

End Server.

(** The nine stage names the classifiers can produce. *)
Definition stages : list string :=
  [ "introduced"; "committee"; "committee_approved"; "floor_calendar";
    "passed_chamber"; "enrolled"; "signed"; "vetoed"; "became_law" ].

Definition tagged (tags : list string) : Action :=
  mkAction "2026-02-03" "action" (Some tags) None.

Definition bill_with (desc : option string) (actions : option (list Action)) : Bill :=
  mkBill "ocd-bill/1" (Some "2026") "HB 1001" "An Act" None (Some "bill") None
         desc (Some "lower") (Some "2026-02-03") (Some "2026-02-03") None
         actions None.

(* ===================================================================== *)
(** ** Storage: the tables of [schema.sql] *)
(* ===================================================================== *)

(** Timestamps are opaque integers handed out by the clock of the
    environment. Length limits of [VARCHAR(n)] columns are not modelled. *)

Record LegislatorRow := mkLegislatorRow {
  lr_id : Z;
  lr_openstates_id : string;
  lr_name : string;
  lr_party : option string;
  lr_chamber : option string;
  lr_district : option string;
  lr_image_url : option string;
  lr_email : option string;
  lr_phone : option string;
  lr_created_at : Z;
  lr_updated_at : Z
}.

Record BillRow := mkBillRow {
  br_id : Z;
  br_openstates_id : string;
  br_session_id : string;
  br_identifier : string;
  br_title : string;
  br_description : string;
  br_classification : option string;
  br_subject : list string;
  br_current_status : option string;
  br_current_chamber : option string;
  br_stage : option string;
  br_created_at : Z;
  br_updated_at : Z;
  br_first_action_date : option string;
  br_latest_action_date : option string;
  br_latest_action_description : option string;
  br_full_text_url : option string;
  br_openstates_url : string
}.

Record ActionRow := mkActionRow {
  ar_id : Z;
  ar_bill_id : Z;
  ar_date : string;
  ar_description : string;
  ar_classification : option string;
  ar_chamber : option string;
  ar_order_index : Z;
  ar_created_at : Z
}.

Record HistoryRow := mkHistoryRow {
  hr_id : Z;
  hr_bill_id : Z;
  hr_stage : string;
  hr_status : option string;
  hr_changed_at : Z;
  hr_previous_stage : option string;
  hr_notes : option string
}.

Record SponsorshipRow := mkSponsorshipRow {
  sr_id : Z;
  sr_bill_id : Z;
  sr_legislator_id : option Z;
  sr_name : string;
  sr_classification : option string;
  sr_entity_type : option string;
  sr_primary_sponsor : option bool;
  sr_created_at : Z
}.

Record MetaRow := mkMetaRow {
  mr_id : Z;
  mr_sync_type : string;
  mr_last_sync_at : option Z;
  mr_last_success_at : option Z;
  mr_status : option string;
  mr_records_synced : option Z;
  mr_error_message : option string;
  mr_created_at : Z
}.

(** The database: each table with the next value of its [SERIAL]
    sequence. *)
Record Db := mkDb {
  legislators : list LegislatorRow;
  legislators_seq : Z;
  bills : list BillRow;
  bills_seq : Z;
  bill_actions : list ActionRow;
  bill_actions_seq : Z;
  bill_history : list HistoryRow;
  bill_history_seq : Z;
  sponsorships : list SponsorshipRow;
  sponsorships_seq : Z;
  sync_metadata : list MetaRow
}.

(** The database right after [schema.sql] has run at time [t0]: empty
    tables and the four seeded [sync_metadata] rows. *)
Definition schema_db (t0 : Z) : Db :=
  let seed id ty := mkMetaRow id ty None None (Some "pending") None None t0 in
  mkDb [] 1 [] 1 [] 1 [] 1 [] 1
       [ seed 1 "bills"; seed 2 "legislators"; seed 3 "actions"; seed 4 "votes" ].

Module Sql.

(** [INSERT INTO legislators (...) VALUES (...) ON CONFLICT (openstates_id)
    DO UPDATE SET name, party, chamber, district = EXCLUDED..., updated_at =
    NOW()]. The sequence value is drawn before the conflict is detected. *)
Definition upsert_legislator (l : Legislator) (now : Z) (db : Db) : Db * unit :=
  let party := l_party l in
  let chamber := l_chamber l in
  let district := l_district l in
  let conflict r := String.eqb (lr_openstates_id r) (l_id l) in
  let rows :=
    if existsb conflict (legislators db) then
      map (fun r =>
             if conflict r then
               mkLegislatorRow (lr_id r) (lr_openstates_id r) (l_name l) party
                 chamber district (lr_image_url r) (lr_email r) (lr_phone r)
                 (lr_created_at r) now
             else r)
          (legislators db)
    else
      legislators db ++
      [ mkLegislatorRow (legislators_seq db) (l_id l) (l_name l) party chamber
          district (l_image l) (JS.or (l_email l) None) (JS.or (l_phone l) None)
          now now ] in
  (mkDb rows (legislators_seq db + 1) (bills db) (bills_seq db)
        (bill_actions db) (bill_actions_seq db) (bill_history db)
        (bill_history_seq db) (sponsorships db) (sponsorships_seq db)
        (sync_metadata db), tt).

(** The scalar subquery [(SELECT stage FROM bills WHERE openstates_id = $1)]
    of the [RETURNING] clause; it reads the table as it was when the
    statement started. *)
Definition select_stage (oid : string) (db : Db) : option string :=
  match find (fun r => String.eqb (br_openstates_id r) oid) (bills db) with
  | Some r => br_stage r
  | None => None
  end.

(** [INSERT INTO bills (...) ON CONFLICT (openstates_id) DO UPDATE SET title,
    current_status, stage, latest_action_date, latest_action_description,
    updated_at RETURNING id, stage, (SELECT ...) as old_stage]; the result
    is [(rows[0].id, rows[0].old_stage)]. *)
Definition upsert_bill (stage : string) (bill : Bill) (now : Z) (db : Db)
  : Db * (Z * option string) :=
  let conflict r := String.eqb (br_openstates_id r) (b_id bill) in
  let old_stage := select_stage (b_id bill) db in
  let id :=
    match find conflict (bills db) with
    | Some r => br_id r
    | None => bills_seq db
    end in
  let rows :=
    if existsb conflict (bills db) then
      map (fun r =>
             if conflict r then
               mkBillRow (br_id r) (br_openstates_id r) (br_session_id r)
                 (br_identifier r) (b_title bill) (br_description r)
                 (br_classification r) (br_subject r)
                 (b_latest_action_description bill) (br_current_chamber r)
                 (Some stage) (br_created_at r) now (br_first_action_date r)
                 (b_latest_action_date bill) (b_latest_action_description bill)
                 (br_full_text_url r) (br_openstates_url r)
             else r)
          (bills db)
    else
      bills db ++
      [ mkBillRow (bills_seq db) (b_id bill)
          (JS.interpolate (JS.or (b_session bill) (Some "2026")))
          (b_identifier bill) (b_title bill)
          (JS.interpolate (JS.or (b_description bill) (Some (b_title bill))))
          (b_classification bill)
          (match b_subject bill with Some l => l | None => [] end)
          (b_latest_action_description bill) (b_from_organization bill)
          (Some stage) now now (b_first_action_date bill)
          (b_latest_action_date bill) (b_latest_action_description bill)
          (match b_versions bill with
           | Some (u :: _) => JS.or u None
           | _ => None
           end)
          ("https://openstates.org/ok/bills/" ++ JS.interpolate (b_session bill)
             ++ "/" ++ b_identifier bill)%string ] in
  (mkDb (legislators db) (legislators_seq db) rows (bills_seq db + 1)
        (bill_actions db) (bill_actions_seq db) (bill_history db)
        (bill_history_seq db) (sponsorships db) (sponsorships_seq db)
        (sync_metadata db), (id, old_stage)).

(** [INSERT INTO bill_history (bill_id, stage, status, previous_stage)
    VALUES ($1, $2, $3, $4)] *)
Definition insert_history (bill_id : Z) (stage : string) (status : option string)
    (previous : option string) (now : Z) (db : Db) : Db * unit :=
  (mkDb (legislators db) (legislators_seq db) (bills db) (bills_seq db)
        (bill_actions db) (bill_actions_seq db)
        (bill_history db ++
           [ mkHistoryRow (bill_history_seq db) bill_id stage status now previous None ])
        (bill_history_seq db + 1) (sponsorships db) (sponsorships_seq db)
        (sync_metadata db), tt).

(** [INSERT INTO bill_actions (...) VALUES (...) ON CONFLICT DO NOTHING].
    The only unique constraint [schema.sql] puts on [bill_actions] is the
    primary key [id], whose value comes from the sequence. *)
Definition insert_action (bill_id : Z) (a : Action) (i : Z) (now : Z) (db : Db)
  : Db * unit :=
  let id := bill_actions_seq db in
  let rows :=
    if existsb (fun r => Z.eqb (ar_id r) id) (bill_actions db) then bill_actions db
    else bill_actions db ++
         [ mkActionRow id bill_id (a_date a) (a_description a)
             (JS.or (JS.first (a_classification a)) None) (a_organization a) i now ] in
  (mkDb (legislators db) (legislators_seq db) (bills db) (bills_seq db)
        rows (bill_actions_seq db + 1) (bill_history db)
        (bill_history_seq db) (sponsorships db) (sponsorships_seq db)
        (sync_metadata db), tt).

(** [SELECT id FROM legislators WHERE name = $1 LIMIT 1], read through
    [rows[0]?.id || null]. The statement has no [ORDER BY]: which of the
    rows with that name comes first is the database's choice, and
    [first_row] gives its position among them. *)
Definition select_legislator (first_row : list LegislatorRow -> nat)
    (name : string) (now : Z) (db : Db) : Db * option Z :=
  let found := filter (fun r => String.eqb (lr_name r) name) (legislators db) in
  (db, match nth_error found (Nat.modulo (first_row found) (length found)) with
       | Some r => if Z.eqb (lr_id r) 0 then None else Some (lr_id r)
       | None => None
       end).

(** [INSERT INTO sponsorships (...) VALUES (...) ON CONFLICT DO NOTHING];
    as for [bill_actions], the primary key is the only unique constraint. *)
Definition insert_sponsorship (bill_id : Z) (legislator_id : option Z)
    (sp : Sponsor) (now : Z) (db : Db) : Db * unit :=
  let id := sponsorships_seq db in
  let primary :=
    match sp_classification sp with
    | Some c => if String.eqb c "primary" then Some true else sp_primary sp
    | None => sp_primary sp
    end in
  let rows :=
    if existsb (fun r => Z.eqb (sr_id r) id) (sponsorships db) then sponsorships db
    else sponsorships db ++
         [ mkSponsorshipRow id bill_id legislator_id (sp_name sp)
             (sp_classification sp) (sp_entity_type sp) primary now ] in
  (mkDb (legislators db) (legislators_seq db) (bills db) (bills_seq db)
        (bill_actions db) (bill_actions_seq db) (bill_history db)
        (bill_history_seq db) rows (sponsorships_seq db + 1)
        (sync_metadata db), tt).

Definition with_metadata (db : Db) (rows : list MetaRow) : Db :=
  mkDb (legislators db) (legislators_seq db) (bills db) (bills_seq db)
       (bill_actions db) (bill_actions_seq db) (bill_history db)
       (bill_history_seq db) (sponsorships db) (sponsorships_seq db) rows.

(** [UPDATE sync_metadata SET last_sync_at = NOW(), last_success_at = NOW(),
    status = 'success', records_synced = $1 WHERE sync_type = ...] *)
Definition update_success (sync_type : string) (total : Z) (now : Z) (db : Db)
  : Db * unit :=
  (with_metadata db
     (map (fun r =>
             if String.eqb (mr_sync_type r) sync_type then
               mkMetaRow (mr_id r) (mr_sync_type r) (Some now) (Some now)
                 (Some "success") (Some total) (mr_error_message r) (mr_created_at r)
             else r)
          (sync_metadata db)), tt).

(** [UPDATE sync_metadata SET last_sync_at = NOW(), status = 'error',
    error_message = $1 WHERE sync_type = ...] *)
Definition update_error (sync_type : string) (message : string) (now : Z) (db : Db)
  : Db * unit :=
  (with_metadata db
     (map (fun r =>
             if String.eqb (mr_sync_type r) sync_type then
               mkMetaRow (mr_id r) (mr_sync_type r) (Some now) (mr_last_success_at r)
                 (Some "error") (mr_records_synced r) (Some message) (mr_created_at r)
             else r)
          (sync_metadata db)), tt).

(** [SELECT NOW()] *)
Definition select_now (now : Z) (db : Db) : Db * unit := (db, tt).

End Sql.

(* ===================================================================== *)
(** ** The process: effects of the [async] code *)
(* ===================================================================== *)

(** The SQL statements the script sends through [pool.query]. *)
Inductive Query :=
| QSelectNow
| QUpsertLegislator (openstates_id : string)
| QUpsertBill (openstates_id : string)
| QInsertHistory (bill_id : Z)
| QInsertAction (bill_id : Z) (order_index : Z)
| QSelectLegislator (name : string)
| QInsertSponsorship (bill_id : Z)
| QMetaSuccess (sync_type : string)
| QMetaError (sync_type : string).

(** What the process did to the outside world, in order; [err] is the
    message of the rejection, [None] when the call resolved. *)
Inductive Event :=
| EvFetch (endpoint : string) (page : Z) (err : option string)
| EvQuery (q : Query) (err : option string)
| EvPoolEnd.

Definition ev_err (e : Event) : option string :=
  match e with
  | EvFetch _ _ err => err
  | EvQuery _ err => err
  | EvPoolEnd => None
  end.

Definition ev_ok (e : Event) : Prop := ev_err e = None.

(** [response.data] of a page request. *)
Record Pagination := mkPagination { max_page : Z }.

Record Response (A : Type) := mkResponse {
  results : list A;
  pagination : option Pagination
}.
Arguments mkResponse {A}.
Arguments results {A}.
Arguments pagination {A}.

Inductive Fetch (A : Type) :=
| FetchError (message : string)
| FetchOk (data : Response A).
Arguments FetchError {A}.
Arguments FetchOk {A}.

(** What the script cannot control: the answers of the Open States API per
    page, which of the queries sent to the pool (counted from 0) is
    rejected and with what message, the value of [NOW()] at each query,
    and which of several rows a [LIMIT 1] without [ORDER BY] returns. *)
Record Env := mkEnv {
  people_api : Z -> Fetch Legislator;
  bills_api : Z -> Fetch Bill;
  db_fault : nat -> option string;
  now : nat -> Z;
  first_row : list LegislatorRow -> nat
}.

Record World := mkWorld {
  w_db : Db;
  w_queries : nat;
  w_trace : list Event;
  w_pool_ended : bool
}.

(** How a computation ends: a value, a thrown error (its [message]),
    [process.exit(code)], or the model's recursion budget used up. *)
Inductive Outcome (A : Type) :=
| Ok (a : A)
| Throw (message : string)
| Exit (code : Z)
| OutOfFuel.
Arguments Ok {A}.
Arguments Throw {A}.
Arguments Exit {A}.
Arguments OutOfFuel {A}.

Definition M (A : Type) : Type := World -> Outcome A * World.

Definition ret {A} (a : A) : M A := fun w => (Ok a, w).

Definition bind {A B} (m : M A) (k : A -> M B) : M B :=
  fun w =>
    match m w with
    | (Ok a, w') => k a w'
    | (Throw msg, w') => (Throw msg, w')
    | (Exit c, w') => (Exit c, w')
    | (OutOfFuel, w') => (OutOfFuel, w')
    end.

Declare Scope sync_scope.
Delimit Scope sync_scope with sync.
Notation "x <- m ;; k" := (bind m (fun x => k))
  (at level 100, m at next level, right associativity) : sync_scope.
Notation "m ;; k" := (bind m (fun _ => k))
  (at level 100, right associativity) : sync_scope.
Open Scope sync_scope.

Definition throw {A} (msg : string) : M A := fun w => (Throw msg, w).

Definition out_of_fuel {A} : M A := fun w => (OutOfFuel, w).

(** [process.exit(code)]: the process is gone, nothing after it runs. *)
Definition process_exit {A} (code : Z) : M A := fun w => (Exit code, w).

(** [try { m } catch (error) { handler(error.message) }] *)
Definition try_catch {A} (m : M A) (handler : string -> M A) : M A :=
  fun w =>
    match m w with
    | (Throw msg, w') => handler msg w'
    | r => r
    end.

(** [try { m } finally { fin }]: the finalizer runs when [m] completes or
    throws; a process that has exited runs no finalizer. *)
Definition try_finally {A} (m : M A) (fin : M unit) : M A :=
  fun w =>
    match m w with
    | (Ok a, w') => (_ <- fin ;; ret a) w'
    | (Throw msg, w') => (_ <- fin ;; throw msg) w'
    | r => r
    end.

Definition log (e : Event) (w : World) : World :=
  mkWorld (w_db w) (w_queries w) (w_trace w ++ [e]) (w_pool_ended w).

(** [for (const x of xs) { await body(x) }] *)
Fixpoint for_of {A} (xs : list A) (body : A -> M unit) : M unit :=
  match xs with
  | [] => ret tt
  | x :: rest => body x ;; for_of rest body
  end.

(** [for (let i = start; i < start + xs.length; i++) { await body(i, xs[i]) }] *)
Fixpoint for_index {A} (i : Z) (xs : list A) (body : Z -> A -> M unit) : M unit :=
  match xs with
  | [] => ret tt
  | x :: rest => body i x ;; for_index (i + 1) rest body
  end.

(** [await pool.end()] *)
Definition pool_end : M unit :=
  fun w => (Ok tt, mkWorld (w_db w) (w_queries w) (w_trace w ++ [EvPoolEnd]) true).

Section Pipeline.

Variable env : Env.

(** [await pool.query(sql, params)]: the statement either is rejected
    (the database is left as it was) or runs at the current [NOW()]. *)
Definition pool_query {A} (q : Query) (run : Z -> Db -> Db * A) : M A :=
  fun w =>
    let n := w_queries w in
    match db_fault env n with
    | Some msg =>
        (Throw msg,
         mkWorld (w_db w) (S n) (w_trace w ++ [EvQuery q (Some msg)]) (w_pool_ended w))
    | None =>
        let '(db', a) := run (now env n) (w_db w) in
        (Ok a, mkWorld db' (S n) (w_trace w ++ [EvQuery q None]) (w_pool_ended w))
    end.

(** [await openStatesAPI.get(endpoint, { params: { jurisdiction: 'ok',
    page, per_page: 20 } })], then [.data]. *)
Definition api_get {A} (endpoint : string) (api : Z -> Fetch A) (page : Z)
  : M (Response A) :=
  fun w =>
    match api page with
    | FetchError msg => (Throw msg, log (EvFetch endpoint page (Some msg)) w)
    | FetchOk data => (Ok data, log (EvFetch endpoint page None) w)
    end.

(** [!response.data.pagination || page >= response.data.pagination.max_page] *)
Definition last_page {A} (response : Response A) (page : Z) : bool :=
  match pagination response with
  | None => true
  | Some p => max_page p <=? page
  end.

Definition legislators_max_pages : Z := 10.
Definition bills_max_pages : Z := 20.

(** The [while (page <= 10)] loop of [syncLegislators]; the result is
    [totalSynced]. Console output and the 200 ms pause between pages
    change nothing that is modelled. *)
Fixpoint legislators_loop (fuel : nat) (page totalSynced : Z) : M Z :=
  match fuel with
  | O => out_of_fuel
  | S fuel' =>
      if page <=? legislators_max_pages then
        response <- api_get "/people" (people_api env) page ;;
        let legislators := results response in
        if (length legislators =? 0)%nat then ret totalSynced
        else
          for_of legislators
            (fun legislator =>
               pool_query (QUpsertLegislator (l_id legislator))
                          (Sql.upsert_legislator legislator)) ;;
          let totalSynced := totalSynced + Z.of_nat (length legislators) in
          if last_page response page then ret totalSynced
          else legislators_loop fuel' (page + 1) totalSynced
      else ret totalSynced
  end.

Definition syncLegislators (fuel : nat) : M Z :=
  try_catch
    (totalSynced <- legislators_loop fuel 1 0 ;;
     pool_query (QMetaSuccess "legislators")
                (Sql.update_success "legislators" totalSynced) ;;
     ret totalSynced)
    (fun message =>
       pool_query (QMetaError "legislators")
                  (Sql.update_error "legislators" message) ;;
       throw message).

(** [oldStage && oldStage !== stage] *)
Definition stage_changed (oldStage : option string) (stage : string) : bool :=
  andb (JS.truthy oldStage) (negb (String.eqb (JS.interpolate oldStage) stage)).

(** The body of [for (const bill of bills)] in [syncBills]. The guards
    [bill.actions.length > 0] and [bill.sponsorships.length > 0] are the
    empty case of the loops they protect. *)
Definition sync_bill (bill : Bill) : M unit :=
  let stage := determineBillStage bill in
  billResult <- pool_query (QUpsertBill (b_id bill)) (Sql.upsert_bill stage bill) ;;
  let billId := fst billResult in
  let oldStage := snd billResult in
  (if stage_changed oldStage stage then
     pool_query (QInsertHistory billId)
       (Sql.insert_history billId stage (b_latest_action_description bill) oldStage)
   else ret tt) ;;
  (match b_actions bill with
   | Some actions =>
       for_index 0 actions
         (fun i action =>
            pool_query (QInsertAction billId i) (Sql.insert_action billId action i))
   | None => ret tt
   end) ;;
  (match b_sponsorships bill with
   | Some sponsors =>
       for_of sponsors
         (fun sponsor =>
            legislatorId <- pool_query (QSelectLegislator (sp_name sponsor))
                              (Sql.select_legislator (first_row env) (sp_name sponsor)) ;;
            pool_query (QInsertSponsorship billId)
              (Sql.insert_sponsorship billId legislatorId sponsor))
   | None => ret tt
   end).

(** The [while (page <= maxPages)] loop of [syncBills]. *)
Fixpoint bills_loop (fuel : nat) (page totalSynced : Z) : M Z :=
  match fuel with
  | O => out_of_fuel
  | S fuel' =>
      if page <=? bills_max_pages then
        response <- api_get "/bills" (bills_api env) page ;;
        let bills := results response in
        if (length bills =? 0)%nat then ret totalSynced
        else
          for_of bills sync_bill ;;
          let totalSynced := totalSynced + Z.of_nat (length bills) in
          if last_page response page then ret totalSynced
          else bills_loop fuel' (page + 1) totalSynced
      else ret totalSynced
  end.

Definition syncBills (fuel : nat) : M Z :=
  try_catch
    (totalSynced <- bills_loop fuel 1 0 ;;
     pool_query (QMetaSuccess "bills") (Sql.update_success "bills" totalSynced) ;;
     ret totalSynced)
    (fun message =>
       pool_query (QMetaError "bills") (Sql.update_error "bills" message) ;;
       throw message).

(** [runSync]: [try { ... } catch (error) { process.exit(1) } finally
    { await pool.end() }]. *)
Definition runSync (fuel : nat) : M unit :=
  try_finally
    (try_catch
       (pool_query QSelectNow Sql.select_now ;;
        syncLegislators fuel ;;
        syncBills fuel ;;
        ret tt)
       (fun _ => process_exit 1))
    pool_end.

End Pipeline.

(** The process as [node database/sync-database.js] starts it on database
    [db]: no query sent yet, pool open. *)
Definition start (db : Db) : World := mkWorld db 0 [] false.

(** Exit status seen by the caller: the code given to [process.exit], or 0
    when [runSync] completes and the event loop drains. [None]: the model
    ran out of fuel, or [runSync] rejected unhandled. *)
Definition exit_status (r : Outcome unit * World) : option Z :=
  match fst r with
  | Ok _ => Some 0
  | Exit c => Some c
  | _ => None
  end.

(** Enough fuel for either page loop. *)
Definition enough_fuel : nat := 21.

(* ===================================================================== *)
(** ** Vocabulary of the properties *)
(* ===================================================================== *)

(** All classification tags of an action. *)
Definition tags_of (a : Action) : list string :=
  match a_classification a with
  | Some tags => tags
  | None => []
  end.

(** Tag [t] occurs somewhere in the classification of some action. *)
Definition any_tag (t : string) (actions : list Action) : Prop :=
  exists a, In a actions /\ In t (tags_of a).

(** Tag [t] is the first (primary) classification tag of some action. *)
Definition primary_tag (t : string) (actions : list Action) : Prop :=
  exists a rest, In a actions /\ a_classification a = Some (t :: rest).

(** Number of actions whose classification includes [t]. *)
Definition count_tagged (t : string) (actions : list Action) : nat :=
  length (filter (fun a => if in_dec string_dec t (tags_of a) then true else false)
                 actions).

(** [needle] occurs in [s] up to the case of ASCII letters. *)
Definition occurs_ci (needle s : string) : Prop :=
  exists pre mid post,
    s = (pre ++ mid ++ post)%string /\ JS.toLowerCase mid = needle.

(** First keyword of the table that occurs in the description decides;
    [introduced] when none does. *)
Inductive keyword_stage (desc : string) : list (string * string) -> string -> Prop :=
| ks_none : keyword_stage desc [] "introduced"
| ks_hit : forall kw st rest,
    occurs_ci kw desc -> keyword_stage desc ((kw, st) :: rest) st
| ks_miss : forall kw st rest r,
    ~ occurs_ci kw desc -> keyword_stage desc rest r ->
    keyword_stage desc ((kw, st) :: rest) r.

Definition description_keywords : list (string * string) :=
  [ ("signed", "signed"); ("veto", "vetoed"); ("enrolled", "enrolled");
    ("passed", "passed_chamber"); ("committee", "committee") ].

(** What the description fallback yields for a bill. *)
Definition description_fallback (bill : Bill) (stage : string) : Prop :=
  match b_latest_action_description bill with
  | Some d => keyword_stage d description_keywords stage
  | None => stage = "introduced"
  end.

(** Tags after which the sync script's classifier stops looking. *)
Definition sync_recognized : list string :=
  [ "executive-signature"; "executive-veto"; "became-law"; "passage";
    "committee-passage"; "referral-committee"; "reading-3"; "introduction" ].

(** Tags after which the servers' classifier stops looking. *)
Definition server_recognized : list string :=
  [ "executive-signature"; "executive-veto"; "became-law"; "passage";
    "committee-passage"; "referral-committee"; "committee-referral";
    "reading-3"; "introduction"; "filing" ].

(** The eight tags the fallback rule of the specification lists. *)
Definition listed_recognized : list string :=
  [ "executive-signature"; "executive-veto"; "became-law"; "passage";
    "committee-passage"; "committee-referral"; "reading-3"; "introduction" ].

(** The fallback rule for a classifier [classify] and a list of recognized
    tags: a bill with actions, none of whose primary tags is recognized, is
    classified by its latest action description. *)
Definition falls_back (recognized : list string) (classify : Bill -> string) : Prop :=
  forall bill a actions,
    b_actions bill = Some (a :: actions) ->
    (forall t, In t recognized -> ~ In t (actionTypes (a :: actions))) ->
    description_fallback bill (classify bill).

(** Sample bills. *)
Definition bill_signature_second : Bill :=
  bill_with None (Some [tagged ["passage"; "executive-signature"]]).

Definition bill_passage_second : Bill :=
  bill_with None (Some [tagged ["reading-3"; "passage"]]).

Definition bill_untagged_signed : Bill :=
  bill_with (Some "Signed by Governor") (Some [tagged ["other"]]).

Definition bill_filed_signed : Bill :=
  bill_with (Some "Signed by Governor") (Some [tagged ["filing"]]).

Definition bill_two_passages : Bill :=
  bill_with (Some "Third Reading") (Some [tagged ["passage"]; tagged ["reading-3"; "passage"]]).

(** [UNIQUE] on [legislators.openstates_id]. *)
Definition unique_legislators (db : Db) : Prop :=
  NoDup (map lr_openstates_id (legislators db)).

(** [UNIQUE] on [bills.openstates_id]. *)
Definition unique_bills (db : Db) : Prop :=
  NoDup (map br_openstates_id (bills db)).

(** The Stage enumeration of the specification: the nine stages the
    classifiers produce, and [dead]. *)
Definition stage_enum : list string := stages ++ ["dead"].

(** Every stage stored in the [bills] table is a value of the Stage
    enumeration. *)
Definition stages_typed (table : list BillRow) : Prop :=
  forall r s, In r table -> br_stage r = Some s -> In s stage_enum.

(** No stored bill is in stage [dead]. *)
Definition no_dead_stage (table : list BillRow) : Prop :=
  forall r, In r table -> br_stage r <> Some "dead".

(** The row a conflicting legislator upsert leaves in place of [r]. *)
Definition legislator_updated (l : Legislator) (now : Z) (r : LegislatorRow)
  : LegislatorRow :=
  mkLegislatorRow (lr_id r) (lr_openstates_id r) (l_name l) (l_party l)
    (l_chamber l) (l_district l) (lr_image_url r) (lr_email r) (lr_phone r)
    (lr_created_at r) now.

(** The row a first legislator upsert appends. *)
Definition legislator_inserted (l : Legislator) (now : Z) (db : Db) : LegislatorRow :=
  mkLegislatorRow (legislators_seq db) (l_id l) (l_name l) (l_party l)
    (l_chamber l) (l_district l) (l_image l) (JS.or (l_email l) None)
    (JS.or (l_phone l) None) now now.

Definition smith : Legislator :=
  mkLegislator "ocd-person/7" "Pat Smith" (Some "Republican") None
    (Some (Some "upper", Some "12")) (Some "https://img/7.png")
    (Some "pat@ok.gov") None.

Definition smith_moved : Legislator :=
  mkLegislator "ocd-person/7" "Pat Smith" (Some "Independent") None
    (Some (Some "lower", Some "40")) None (Some "smith@new.example") (Some "555-0100").

(** How a computation ended, without its value. *)
Inductive Ending :=
| EOk
| EThrow (message : string)
| EExit (code : Z)
| EFuel.

Definition ending {A} (r : Outcome A) : Ending :=
  match r with
  | Ok _ => EOk
  | Throw msg => EThrow msg
  | Exit c => EExit c
  | OutOfFuel => EFuel
  end.

(** Every run of [m] relates its initial world, its ending and its final
    world by [Q]. *)
Definition runs {A} (m : M A) (Q : World -> Ending -> World -> Prop) : Prop :=
  forall w, Q w (ending (fst (m w))) (snd (m w)).

(** The common shape of the two page loops: endpoint, answers of the API,
    page cap and what is done with each record of a page. *)
Fixpoint page_loop {A} (endpoint : string) (api : Z -> Fetch A) (cap : Z)
    (each : A -> M unit) (fuel : nat) (page totalSynced : Z) : M Z :=
  match fuel with
  | O => out_of_fuel
  | S fuel' =>
      if page <=? cap then
        response <- api_get endpoint api page ;;
        let records := results response in
        if (length records =? 0)%nat then ret totalSynced
        else
          for_of records each ;;
          let totalSynced := totalSynced + Z.of_nat (length records) in
          if last_page response page then ret totalSynced
          else page_loop endpoint api cap each fuel' (page + 1) totalSynced
      else ret totalSynced
  end.

(** The upsert statement [syncLegislators] sends for one record. *)
Definition upsert_one_legislator (env : Env) (legislator : Legislator) : M unit :=
  pool_query env (QUpsertLegislator (l_id legislator))
             (Sql.upsert_legislator legislator).

(** The records the API holds on the given pages, in order. *)
Definition records_on {A} (api : Z -> Fetch A) (pages : list Z) : list A :=
  concat (map (fun page =>
                 match api page with
                 | FetchOk data => results data
                 | FetchError _ => []
                 end) pages).

(** The database after the upsert statement has been run for each of
    [ls] in turn, as queries number [n], [n + 1], ... *)
Fixpoint upsert_each (clock : nat -> Z) (n : nat) (ls : list Legislator) (db : Db)
  : Db :=
  match ls with
  | [] => db
  | l :: rest =>
      upsert_each clock (S n) rest (fst (Sql.upsert_legislator l (clock n) db))
  end.

(** Pages requested from [endpoint], in order. *)
Fixpoint pages_fetched (endpoint : string) (trace : list Event) : list Z :=
  match trace with
  | [] => []
  | EvFetch ep page _ :: rest =>
      if String.eqb ep endpoint then page :: pages_fetched endpoint rest
      else pages_fetched endpoint rest
  | _ :: rest => pages_fetched endpoint rest
  end.

(** Pages [first], [first + 1], ... ([count] of them). *)
Fixpoint page_range (first : Z) (count : nat) : list Z :=
  match count with
  | O => []
  | S n => first :: page_range (first + 1) n
  end.

(** The loop goes on after page [page]: the page has records and its
    pagination announces a later page. *)
Definition page_continues {A} (api : Z -> Fetch A) (page : Z) : Prop :=
  exists data p,
    api page = FetchOk data /\ results data <> [] /\
    pagination data = Some p /\ page < max_page p.

(** The loop stops at page [page]: the page is empty, or it carries no
    pagination or is the last one announced, or it is the last one the cap
    allows. *)
Definition page_stops {A} (api : Z -> Fetch A) (cap : Z) (page : Z) : Prop :=
  exists data,
    api page = FetchOk data /\
    (results data = [] \/ pagination data = None \/
     (exists p, pagination data = Some p /\ max_page p <= page) \/
     page = cap).

Definition is_query (e : Event) : Prop :=
  match e with
  | EvQuery _ _ => True
  | _ => False
  end.

(** A run that only sends queries: the pool stays as it was, every event
    logged is a query, and the run ends normally after successful queries
    or throws the message of the one query that failed, which is then the
    last event. *)
Definition queries_only (w : World) (e : Ending) (w' : World) : Prop :=
  w_pool_ended w' = w_pool_ended w /\
  exists evs,
    w_trace w' = w_trace w ++ evs /\ Forall is_query evs /\
    match e with
    | EOk => Forall ev_ok evs
    | EThrow msg =>
        exists pre ev, evs = pre ++ [ev] /\ Forall ev_ok pre /\ ev_err ev = Some msg
    | EExit _ => False
    | EFuel => False
    end.

(** The same for a run that also fetches pages (and may use up the model's
    fuel): nothing happens after the first failure, the pool is not
    touched. *)
Definition stops_at_failure (w : World) (e : Ending) (w' : World) : Prop :=
  w_pool_ended w' = w_pool_ended w /\
  exists evs,
    w_trace w' = w_trace w ++ evs /\ ~ In EvPoolEnd evs /\
    match e with
    | EOk => Forall ev_ok evs
    | EThrow msg =>
        exists pre ev, evs = pre ++ [ev] /\ Forall ev_ok pre /\ ev_err ev = Some msg
    | EExit _ => False
    | EFuel => True
    end.

(** A run that leaves [sync_metadata] alone. *)
Definition metadata_kept (w : World) (e : Ending) (w' : World) : Prop :=
  sync_metadata (w_db w') = sync_metadata (w_db w).

(** A run that leaves [bills] and [bill_history] alone. *)
Definition bills_kept (w : World) (e : Ending) (w' : World) : Prop :=
  bills (w_db w') = bills (w_db w) /\
  bill_history (w_db w') = bill_history (w_db w).

(** A run that keeps a property of the [bills] table. *)
Definition keeps (P : list BillRow -> Prop) (w : World) (e : Ending) (w' : World)
  : Prop :=
  P (bills (w_db w)) -> P (bills (w_db w')).

(** A run that cannot fail. *)
Definition succeeds (w : World) (e : Ending) (w' : World) : Prop := e = EOk.

(** No query is ever rejected. *)
Definition no_faults (env : Env) : Prop := forall n, db_fault env n = None.

(** The shape both sub-syncs share: the page loop, then the success
    record; on any error the error record, then the error is rethrown. *)
Definition recorded_sync (env : Env) (sync_type : string) (loop : M Z) : M Z :=
  try_catch
    (totalSynced <- loop ;;
     pool_query env (QMetaSuccess sync_type)
                (Sql.update_success sync_type totalSynced) ;;
     ret totalSynced)
    (fun message =>
       pool_query env (QMetaError sync_type) (Sql.update_error sync_type message) ;;
       throw message).

(** A [sync_metadata] row after the error record written at time [t]. *)
Definition meta_error_row (message : string) (t : Z) (r : MetaRow) : MetaRow :=
  mkMetaRow (mr_id r) (mr_sync_type r) (Some t) (mr_last_success_at r)
    (Some "error") (mr_records_synced r) (Some message) (mr_created_at r).

(** How a sub-sync that throws [thrown] got from [w] to [w']: some calls
    that succeeded, one fetch or query that failed with [cause], and right
    after it the error record for [sync_type], nothing else. When the error
    record went through, the rows of that sync type are in status [error]
    with message [cause], and [cause] is what is thrown; when the error
    record was rejected too, [sync_metadata] is as before and the second
    error is thrown. *)
Definition failure_recorded (sync_type : string) (w : World) (thrown : string)
    (w' : World) : Prop :=
  exists pre failed cause recorded,
    w_trace w' = w_trace w ++ pre ++ [failed; EvQuery (QMetaError sync_type) recorded] /\
    Forall ev_ok pre /\
    ev_err failed = Some cause /\
    match recorded with
    | None =>
        thrown = cause /\
        exists t,
          sync_metadata (w_db w') =
          map (fun r => if String.eqb (mr_sync_type r) sync_type
                        then meta_error_row cause t r else r)
              (sync_metadata (w_db w))
    | Some again =>
        thrown = again /\ sync_metadata (w_db w') = sync_metadata (w_db w)
    end.

(** An environment in which the database connection is lost while the
    first legislator is written: queries 1 and 2 are rejected. *)
Definition connection_lost : nat -> option string :=
  fun n => if orb (n =? 1)%nat (n =? 2)%nat
           then Some "Connection terminated unexpectedly" else None.

Definition no_fault : nat -> option string := fun _ => None.

Definition clock : nat -> Z := fun n => 1000 + Z.of_nat n.

(** The database returns rows in the order of the table. *)
Definition table_order : list LegislatorRow -> nat := fun _ => 0%nat.

Definition one_page {A} (xs : list A) : Z -> Fetch A :=
  fun page => FetchOk (mkResponse (if page =? 1 then xs else []) (Some (mkPagination 1))).

Definition hb1001 : Bill :=
  bill_with (Some "First Reading") (Some [tagged ["introduction"]]).

Definition hb1001_referred : Bill :=
  bill_with (Some "Referred to Rules")
            (Some [tagged ["introduction"]; tagged ["referral-committee"]]).

Definition env_quiet : Env := mkEnv (one_page [smith]) (one_page [hb1001]) no_fault clock table_order.

Definition env_referred : Env :=
  mkEnv (one_page [smith]) (one_page [hb1001_referred]) no_fault clock table_order.

(** The API after Pat Smith changed party and district. *)
Definition env_smith_moved : Env :=
  mkEnv (one_page [smith_moved]) (one_page [hb1001]) no_fault clock table_order.

Definition env_connection_lost : Env :=
  mkEnv (one_page [smith]) (one_page [hb1001]) connection_lost clock table_order.

Definition env_api_down : Env :=
  mkEnv (fun _ => FetchError "connect ECONNREFUSED") (one_page [hb1001]) no_fault clock table_order.

(** Sync type and status of every [sync_metadata] row. *)
Definition metadata_status (db : Db) : list (string * option string) :=
  map (fun r => (mr_sync_type r, mr_status r)) (sync_metadata db).

(** A run that leaves the pool as it was and does not exit the process. *)
Definition pool_kept (w : World) (e : Ending) (w' : World) : Prop :=
  w_pool_ended w' = w_pool_ended w /\ forall c, e <> EExit c.

(** A page loop that went from [w] to [w'] requested the pages 1 to [k] of
    [endpoint] and no other, where [k] is the first page at which the loop
    stops: every page before it has records and announces a later page. *)
Definition stops_at_first {A} (endpoint : string) (api : Z -> Fetch A) (cap : Z)
    (w w' : World) : Prop :=
  exists k evs,
    1 <= k <= cap /\
    w_trace w' = w_trace w ++ evs /\
    pages_fetched endpoint evs = page_range 1 (Z.to_nat k) /\
    page_stops api cap k /\
    forall j, 1 <= j < k -> page_continues api j.

(** A sync that went from [w] to [w'] requested page 1 of [endpoint] only. *)
Definition first_page_only (endpoint : string) (w w' : World) : Prop :=
  exists evs,
    w_trace w' = w_trace w ++ evs /\ pages_fetched endpoint evs = [1].

Definition env_no_pagination : Env :=
  mkEnv (fun _ => FetchOk (mkResponse [smith] None))
        (fun _ => FetchOk (mkResponse [hb1001] None)) no_fault clock table_order.

(** The database after a first complete run on the freshly created schema. *)
Definition db_after_first_run : Db :=
  w_db (snd (runSync env_quiet enough_fuel (start (schema_db 0)))).


(** What identifies an action of a bill: bill, date, description and
    position. *)
Definition action_key (r : ActionRow) : Z * string * string * Z :=
  (ar_bill_id r, ar_date r, ar_description r, ar_order_index r).

(** The [bill_actions] ids handed out so far are below the sequence. *)
Definition action_ids_fresh (db : Db) : Prop :=
  forall r, In r (bill_actions db) -> ar_id r < bill_actions_seq db.


(* ===================================================================== *)
(** ** Further vocabulary: rows and runs *)
(* ===================================================================== *)

(** The row a conflicting bill upsert leaves in place of [r]. *)
Definition bill_updated (stage : string) (bill : Bill) (now : Z) (r : BillRow)
  : BillRow :=
  mkBillRow (br_id r) (br_openstates_id r) (br_session_id r) (br_identifier r)
    (b_title bill) (br_description r) (br_classification r) (br_subject r)
    (b_latest_action_description bill) (br_current_chamber r) (Some stage)
    (br_created_at r) now (br_first_action_date r) (b_latest_action_date bill)
    (b_latest_action_description bill) (br_full_text_url r) (br_openstates_url r).

(** The columns a bill upsert never changes once the row exists. *)
Definition bill_fixed_columns (r : BillRow) :=
  (br_id r, br_openstates_id r, br_session_id r, br_identifier r, br_description r,
   br_classification r, br_subject r, br_current_chamber r, br_created_at r,
   br_first_action_date r, br_full_text_url r, br_openstates_url r).

(** The keys of the action rows one pass writes for a bill: the actions in
    source order, numbered from [i]. *)
Fixpoint action_keys (bill_id : Z) (i : Z) (actions : list Action)
  : list (Z * string * string * Z) :=
  match actions with
  | [] => []
  | a :: rest =>
      (bill_id, a_date a, a_description a, i) :: action_keys bill_id (i + 1) rest
  end.

(** The id of the row stored for [bill], if there is one. *)
Definition bill_row_id (bill : Bill) (db : Db) : option Z :=
  option_map br_id
    (find (fun r => String.eqb (br_openstates_id r) (b_id bill)) (bills db)).

(** A run that leaves [bill_actions] and its sequence alone. *)
Definition actions_kept (w : World) (e : Ending) (w' : World) : Prop :=
  bill_actions (w_db w') = bill_actions (w_db w) /\
  bill_actions_seq (w_db w') = bill_actions_seq (w_db w).

(** A sponsorship row is linked as the lookup by name allows: to a stored
    legislator of that exact name, or to none when no stored legislator has
    that name (or one has, with id 0, which [|| null] turns into none). *)
Definition sponsor_linked (table : list LegislatorRow) (r : SponsorshipRow) : Prop :=
  match sr_legislator_id r with
  | Some id => exists l, In l table /\ lr_name l = sr_name r /\ lr_id l = id
  | None =>
      (forall l, In l table -> lr_name l <> sr_name r) \/
      (exists l, In l table /\ lr_name l = sr_name r /\ lr_id l = 0)
  end.

(** A run that leaves [legislators] alone and adds only sponsorship rows
    that carry the id of [bill_id], name one of [sponsors] and are linked
    by name. *)
Definition sponsors_linked (bill_id : Z) (sponsors : list Sponsor) (w : World)
    (e : Ending) (w' : World) : Prop :=
  legislators (w_db w') = legislators (w_db w) /\
  forall r, In r (sponsorships (w_db w')) ->
    In r (sponsorships (w_db w)) \/
    (sr_bill_id r = bill_id /\
     (exists sp, In sp sponsors /\ sr_name r = sp_name sp /\
                 sr_classification r = sp_classification sp /\
                 sr_entity_type r = sp_entity_type sp) /\
     sponsor_linked (legislators (w_db w)) r).

(** A run that leaves the [bills] table alone. *)
Definition bill_rows_kept (w : World) (e : Ending) (w' : World) : Prop :=
  bills (w_db w') = bills (w_db w).

(** A run that leaves [legislators] and [sponsorships] alone. *)
Definition sponsorships_kept (w : World) (e : Ending) (w' : World) : Prop :=
  legislators (w_db w') = legislators (w_db w) /\
  sponsorships (w_db w') = sponsorships (w_db w).

Definition hb1001_sponsored : Bill :=
  mkBill "ocd-bill/1" (Some "2026") "HB 1001" "An Act" None (Some "bill") None
         (Some "First Reading") (Some "lower") (Some "2026-02-03") (Some "2026-02-03")
         None (Some [tagged ["introduction"]])
         (Some [ mkSponsor "Pat Smith" (Some "primary") (Some "person") None;
                 mkSponsor "Rules Committee" (Some "cosponsor") (Some "organization")
                           None ]).

Definition env_sponsored : Env :=
  mkEnv (one_page [smith]) (one_page [hb1001_sponsored]) no_fault clock table_order.

(** The history insert (query 1 of a bill pass started at query 0) is
    rejected. *)
Definition history_insert_rejected : nat -> option string :=
  fun n => if (n =? 1)%nat then Some "deadlock detected" else None.

(** The schema database after legislator Pat Smith has been stored. *)
Definition db_with_smith : Db := fst (Sql.upsert_legislator smith 1000 (schema_db 0)).

(** The sponsorship row the first pass over [hb1001_sponsored] writes for
    its primary sponsor. *)
Definition smith_sponsorship : SponsorshipRow :=
  mkSponsorshipRow 1 1 (Some 1) "Pat Smith" (Some "primary") (Some "person")
                   (Some true) 1003.

(** Number of records on a page ([0] when the request fails). *)
Definition page_size {A} (api : Z -> Fetch A) (page : Z) : Z :=
  match api page with
  | FetchOk data => Z.of_nat (length (results data))
  | FetchError _ => 0
  end.

Definition sum_Z (l : list Z) : Z := fold_right Z.add 0 l.

(** A [sync_metadata] row after the success record written at time [t]. *)
Definition meta_success_row (total : Z) (t : Z) (r : MetaRow) : MetaRow :=
  mkMetaRow (mr_id r) (mr_sync_type r) (Some t) (Some t) (Some "success")
    (Some total) (mr_error_message r) (mr_created_at r).

(** A sync of [sync_type] over [endpoint] that returned [total] from [w]
    to [w']: [total] is the number of records on the pages it requested,
    and the rows of its type carry the success record with that count. *)
Definition success_recorded {A} (sync_type endpoint : string) (api : Z -> Fetch A)
    (w : World) (total : Z) (w' : World) : Prop :=
  (exists evs,
      w_trace w' = w_trace w ++ evs /\
      total = sum_Z (map (page_size api) (pages_fetched endpoint evs))) /\
  exists t,
    sync_metadata (w_db w') =
    map (fun r => if String.eqb (mr_sync_type r) sync_type
                  then meta_success_row total t r else r)
        (sync_metadata (w_db w)).

Definition ev_failed (e : Event) : Prop := exists msg, ev_err e = Some msg.

(** A run whose log tells how it ended: all calls succeeded when it
    returns, some call failed when it throws; it never exits the process. *)
Definition ends_as_logged (w : World) (e : Ending) (w' : World) : Prop :=
  exists evs,
    w_trace w' = w_trace w ++ evs /\
    match e with
    | EOk => Forall ev_ok evs
    | EThrow _ => Exists ev_failed evs
    | EExit _ => False
    | EFuel => True
    end.

(** A run that keeps a property of the database. *)
Definition keeps_db (P : Db -> Prop) (w : World) (e : Ending) (w' : World) : Prop :=
  P (w_db w) -> P (w_db w').

(** A [SERIAL PRIMARY KEY] column in order: the sequence is positive, the
    ids stored are distinct, positive and below the sequence. *)
Definition serial_ok {A} (id : A -> Z) (rows : list A) (seq : Z) : Prop :=
  0 < seq /\ NoDup (map id rows) /\ forall r, In r rows -> 0 < id r < seq.

(** The key constraints of [schema.sql] on the tables the sync writes:
    [UNIQUE] on the two [openstates_id] columns and the five primary
    keys. *)
Definition keys_ok (db : Db) : Prop :=
  unique_legislators db /\ unique_bills db /\
  serial_ok lr_id (legislators db) (legislators_seq db) /\
  serial_ok br_id (bills db) (bills_seq db) /\
  serial_ok ar_id (bill_actions db) (bill_actions_seq db) /\
  serial_ok hr_id (bill_history db) (bill_history_seq db) /\
  serial_ok sr_id (sponsorships db) (sponsorships_seq db).

(** The [REFERENCES] constraints of [schema.sql] on those tables. *)
Definition references_ok (db : Db) : Prop :=
  (forall r, In r (bill_actions db) -> In (ar_bill_id r) (map br_id (bills db))) /\
  (forall r, In r (bill_history db) -> In (hr_bill_id r) (map br_id (bills db))) /\
  (forall r, In r (sponsorships db) ->
     In (sr_bill_id r) (map br_id (bills db)) /\
     forall id, sr_legislator_id r = Some id -> In id (map lr_id (legislators db))).

(** The references hold and [bill_id] is the id of a stored bill. *)
Definition references_with (bill_id : Z) (db : Db) : Prop :=
  references_ok db /\ In bill_id (map br_id (bills db)).

(** The action list of a bill, empty when the field is missing. *)
Definition actions_of (bill : Bill) : list Action :=
  match b_actions bill with
  | Some actions => actions
  | None => []
  end.

Definition bill_vetoed_then_law : Bill :=
  bill_with None (Some [tagged ["executive-veto"]; tagged ["became-law"]]).

Definition bill_law_then_vetoed : Bill :=
  bill_with None (Some [tagged ["became-law"]; tagged ["executive-veto"]]).

(* ===================================================================== *)
(** ** The statistics endpoints of [server.js] and [server-enhanced.js] *)
(* ===================================================================== *)

Module Stats.

(** [b.identifier?.startsWith(prefix)] *)
Definition identifier_starts (prefix : string) (b : Bill) : bool :=
  JS.starts_with prefix (b_identifier b).

(** [arr.filter(p).length] *)
Definition count {A} (p : A -> bool) (arr : list A) : Z :=
  Z.of_nat (length (filter p arr)).

Record Summary := mkSummary {
  total_bills : Z;
  active_bills : Z;
  passed_bills : Z;
  vetoed_bills : Z;
  house_bills : Z;
  senate_bills : Z
}.

(** The [stats] object of [GET /api/stats/summary] in [server.js];
    [total_items] is [response.data.pagination?.total_items]. *)
Definition summary (total_items : option Z) (bills : list Bill) : Summary :=
  mkSummary
    (match total_items with
     | Some n => if n =? 0 then Z.of_nat (length bills) else n
     | None => Z.of_nat (length bills)
     end)
    (count (fun b => negb (JS.includes ["signed"; "became_law"; "vetoed"; "dead"]
                                        (Server.determineBillStage b))) bills)
    (count (fun b => JS.includes ["signed"; "became_law"] (Server.determineBillStage b))
           bills)
    (count (fun b => String.eqb (Server.determineBillStage b) "vetoed") bills)
    (count (identifier_starts "HB") bills)
    (count (identifier_starts "SB") bills).

(** The same object in [server-enhanced.js], over all fetched bills. *)
Definition summary_enhanced (allBills : list Bill) : Summary :=
  mkSummary
    (Z.of_nat (length allBills))
    (count (fun b => negb (JS.includes ["signed"; "became_law"; "vetoed"; "dead"]
                                        (Server.determineBillStage b))) allBills)
    (count (fun b => JS.includes ["signed"; "became_law"] (Server.determineBillStage b))
           allBills)
    (count (fun b => String.eqb (Server.determineBillStage b) "vetoed") allBills)
    (count (identifier_starts "HB") allBills)
    (count (identifier_starts "SB") allBills).

(** The keys of the [stageCounts] object literal, in source order. *)
Definition stage_keys : list string :=
  [ "introduced"; "committee"; "committee_approved"; "floor_calendar";
    "passed_chamber"; "enrolled"; "signed"; "became_law"; "vetoed"; "dead" ].

(** [obj.hasOwnProperty(key)] on an object held as its list of own
    properties. *)
Definition hasOwnProperty {V} (obj : list (string * V)) (key : string) : bool :=
  existsb (fun p => String.eqb (fst p) key) obj.

(** [obj[key] = f(obj[key])] for an own property. *)
Definition update {V} (obj : list (string * V)) (key : string) (f : V -> V)
  : list (string * V) :=
  map (fun p => if String.eqb (fst p) key then (fst p, f (snd p)) else p) obj.

(** [obj[key]], with [missing] for a key that is no own property. *)
Definition get {V} (obj : list (string * V)) (key : string) (missing : V) : V :=
  match find (fun p => String.eqb (fst p) key) obj with
  | Some p => snd p
  | None => missing
  end.

(** [by_stage] of [GET /api/stats/pipeline]: the ten counters after
    [bills.forEach(bill => { if (stageCounts.hasOwnProperty(stage))
    stageCounts[stage]++ })]. *)
Definition stageCounts (bills : list Bill) : list (string * Z) :=
  fold_left
    (fun counts bill =>
       let stage := Server.determineBillStage bill in
       if hasOwnProperty counts stage then update counts stage (fun n => n + 1)
       else counts)
    bills (map (fun k => (k, 0)) stage_keys).

(** The bills a classifier puts in [stage], in their order. *)
Definition in_stage (stage : string) (bills : list Bill) : list Bill :=
  filter (fun b => String.eqb (Server.determineBillStage b) stage) bills.

End Stats.

(* ===================================================================== *)
(** ** Paging of [GET /api/bills] in [server-enhanced.js] *)
(* ===================================================================== *)

Module Paging.

(** [arr.slice(start, end)] for integer arguments: a negative index counts
    from the end, indices are clamped to the array. *)
Definition slice {A} (arr : list A) (start finish : Z) : list A :=
  let len := Z.of_nat (length arr) in
  let k := if start <? 0 then Z.max (len + start) 0 else Z.min start len in
  let final := if finish <? 0 then Z.max (len + finish) 0 else Z.min finish len in
  firstn (Z.to_nat (final - k)) (skipn (Z.to_nat k) arr).

Record Pagination := mkPagination {
  page : Z;
  per_page : Z;
  total_items : Z;
  total_pages : option Z
}.

(** [Math.ceil(n / d)] for integers; [None] when the quotient is not a
    finite number ([d] is 0). *)
Definition ceil_div (n d : Z) : option Z :=
  if d =? 0 then None else Some (- ((- n) / d)).

(** The answer of the handler from [pageNum = parseInt(page)] and
    [parseInt(per_page)] on, for requests whose two parameters parse to
    integers: the [results] array and the [pagination] object. *)
Definition paginate {A} (pageNum requested : Z) (enhancedBills : list A)
  : list A * Pagination :=
  let perPage := Z.min requested 20 in
  let startIndex := (pageNum - 1) * perPage in
  let endIndex := startIndex + perPage in
  (slice enhancedBills startIndex endIndex,
   mkPagination pageNum perPage (Z.of_nat (length enhancedBills))
     (ceil_div (Z.of_nat (length enhancedBills)) perPage)).

End Paging.

(* ===================================================================== *)
(** ** The bill cache of [server-enhanced.js] *)
(* ===================================================================== *)

Module Enhanced.

(** [response.data] of a [/bills] request as [fetchAllBills] reads it:
    [total_pages] is [None] when there is no [pagination] object and
    [Some None] when the object has no [total_pages] field. *)
Record Answer := mkAnswer {
  a_results : list Bill;
  a_total_pages : option (option Z)
}.

Inductive Reply :=
| Failed (message : string)
| Answered (data : Answer).

(** The object [GET /api/stats/pipeline] sends and caches. *)
Record Pipeline := mkPipeline {
  p_total_bills : Z;
  p_by_stage : list (string * Z);
  p_last_updated : Z
}.

(** [statsCache] *)
Record StatsCache := mkCache {
  summary : option Stats.Summary;
  pipeline : option Pipeline;
  allBills : option (list Bill);
  lastUpdate : option Z
}.

(** The API's reply per page and the readings of the clock, in the order
    they are taken. *)
Record Env := mkEnv {
  api : Z -> Reply;
  clock : nat -> Z
}.

(** The server between two requests: the cache, how often the clock was
    read, and the pages requested from the API so far. *)
Record State := mkState {
  statsCache : StatsCache;
  clock_reads : nat;
  requests : list Z
}.

Definition CACHE_DURATION : Z := 5 * 60 * 1000.

(** [cached && statsCache.lastUpdate && (Date.now() - statsCache.lastUpdate
    < CACHE_DURATION)], where [cached] tells whether the cached value
    looked at is set; the clock is read only when the first two hold. *)
Definition still_fresh (env : Env) (cached : bool) (st : State) : bool * State :=
  if cached then
    match lastUpdate (statsCache st) with
    | Some t =>
        if t =? 0 then (false, st)
        else (clock env (clock_reads st) - t <? CACHE_DURATION,
              mkState (statsCache st) (S (clock_reads st)) (requests st))
    | None => (false, st)
    end
  else (false, st).

Definition is_set {A} (v : option A) : bool :=
  match v with
  | Some _ => true
  | None => false
  end.

(** The [while (page <= maxPages)] loop of [fetchAllBills]: the bills
    collected and the pages requested; [None] when the fuel runs out. An
    error inside the [try] block ends the loop. *)
Fixpoint fetch_pages (env : Env) (fuel : nat) (maxPages page : Z)
    (allBills : list Bill) (requested : list Z) : option (list Bill * list Z) :=
  match fuel with
  | O => None
  | S fuel' =>
      if page <=? maxPages then
        match api env page with
        | Failed _ => Some (allBills, requested ++ [page])
        | Answered data =>
            let bills := a_results data in
            if (length bills =? 0)%nat then Some (allBills, requested ++ [page])
            else
              let allBills := allBills ++ bills in
              let last :=
                match a_total_pages data with
                | None => true
                | Some None => false
                | Some (Some total) => total <=? page
                end in
              if last then Some (allBills, requested ++ [page])
              else fetch_pages env fuel' maxPages (page + 1) allBills
                               (requested ++ [page])
        end
      else Some (allBills, requested)
  end.

(** [fetchAllBills(maxPages)] *)
Definition fetchAllBills (env : Env) (maxPages : Z) (st : State)
  : option (list Bill * State) :=
  let '(fresh, st1) := still_fresh env (is_set (allBills (statsCache st))) st in
  if fresh then
    match allBills (statsCache st1) with
    | Some bills => Some (bills, st1)
    | None => Some ([], st1)
    end
  else
    match fetch_pages env (S (Z.to_nat maxPages)) maxPages 1 [] [] with
    | None => None
    | Some (bills, requested) =>
        Some (bills,
              mkState
                (mkCache (summary (statsCache st1)) (pipeline (statsCache st1))
                         (Some bills) (Some (clock env (clock_reads st1))))
                (S (clock_reads st1)) (requests st1 ++ requested))
    end.

(** The handler of [GET /api/stats/pipeline]: the object sent. *)
Definition pipeline_handler (env : Env) (st : State) : option (Pipeline * State) :=
  let '(fresh, st1) := still_fresh env (is_set (pipeline (statsCache st))) st in
  match fresh, pipeline (statsCache st1) with
  | true, Some cached => Some (cached, st1)
  | _, _ =>
      match fetchAllBills env 15 st1 with
      | None => None
      | Some (bills, st2) =>
          let result :=
            mkPipeline (Z.of_nat (length bills)) (Stats.stageCounts bills)
                       (clock env (clock_reads st2)) in
          Some (result,
                mkState
                  (mkCache (summary (statsCache st2)) (Some result)
                           (allBills (statsCache st2)) (lastUpdate (statsCache st2)))
                  (S (clock_reads st2)) (requests st2))
      end
  end.

(** What page [page] contributes to the list: its bills, nothing when the
    request fails. *)
Definition bills_on (env : Env) (page : Z) : list Bill :=
  match api env page with
  | Answered data => a_results data
  | Failed _ => []
  end.

Definition empty_cache : StatsCache := mkCache None None None None.

End Enhanced.

(** An API with one page of one bill, one that is down, and a clock that
    advances a second per reading. *)
Definition api_single_page : Enhanced.Env :=
  Enhanced.mkEnv
    (fun page => Enhanced.Answered (Enhanced.mkAnswer [hb1001] None))
    (fun n => 1000 + 1000 * Z.of_nat n).

Definition api_offline : Enhanced.Env :=
  Enhanced.mkEnv
    (fun page => Enhanced.Failed "timeout of 30000ms exceeded")
    (fun n => 1000 + 1000 * Z.of_nat n).

Definition server_started : Enhanced.State :=
  Enhanced.mkState Enhanced.empty_cache 0 [].

(** A server whose pipeline answer was computed when the API was down and
    whose five minutes have passed. *)
Definition pipeline_of_outage : Enhanced.Pipeline :=
  Enhanced.mkPipeline 0 (Stats.stageCounts []) 2000.

Definition server_after_outage : Enhanced.State :=
  Enhanced.mkState
    (Enhanced.mkCache None (Some pipeline_of_outage) (Some []) (Some (-400000)))
    0 [1].

(* ===================================================================== *)
(** ** [server-complete.js]: the statistics read from the database *)
(* ===================================================================== *)

Module Complete.

(** [stage IN (...)] in a [FILTER]: a row is counted when the test is
    true, and the test on a null stage is null, not true. *)
Definition stage_in (values : list string) (r : BillRow) : bool :=
  match br_stage r with
  | Some s => JS.includes values s
  | None => false
  end.

(** [stage NOT IN (...)] in a [FILTER]: null on a null stage as well. *)
Definition stage_not_in (values : list string) (r : BillRow) : bool :=
  match br_stage r with
  | Some s => negb (JS.includes values s)
  | None => false
  end.

(** [identifier LIKE 'prefix%'] *)
Definition identifier_like (prefix : string) (r : BillRow) : bool :=
  JS.starts_with prefix (br_identifier r).

(** The row [GET /api/stats/summary] selects and sends. *)
Definition summary (db : Db) : Stats.Summary :=
  Stats.mkSummary
    (Stats.count (fun _ => true) (bills db))
    (Stats.count (stage_not_in ["signed"; "became_law"; "vetoed"; "dead"]) (bills db))
    (Stats.count (stage_in ["signed"; "became_law"]) (bills db))
    (Stats.count (stage_in ["vetoed"]) (bills db))
    (Stats.count (identifier_like "HB") (bills db))
    (Stats.count (identifier_like "SB") (bills db)).

(** The bills none of [active_bills], [passed_bills] and [vetoed_bills]
    counts. *)
Definition uncounted (r : BillRow) : bool :=
  match br_stage r with
  | Some s => String.eqb s "dead"
  | None => true
  end.

End Complete.

(** Every stored bill has a stage, and it is not [dead]. *)
Definition stages_live (table : list BillRow) : Prop :=
  forall r, In r table -> exists s, br_stage r = Some s /\ s <> "dead".

(* ===================================================================== *)
(** ** [server-complete.js]: e-mail subscriptions *)
(* ===================================================================== *)

Module Subscriptions.

(** A row of [email_subscriptions]. *)
Record Row := mkRow {
  id : Z;
  email : string;
  name : option string;
  bill_id : Z;
  notification_type : string;
  is_active : bool;
  verification_token : option string;
  verified_at : option Z;
  created_at : Z;
  last_notification_at : option Z
}.

(** The table with its [SERIAL] sequence, and the verification mails handed
    to the mail service so far, as pairs of recipient and token. Statements
    are taken to fail only on the constraints of the schema, and values to
    fit their columns. *)
Record Store := mkStore {
  rows : list Row;
  next_id : Z;
  outbox : list (string * string)
}.

(** The fields [POST /api/subscribe] reads from the request body; [None]
    is a field that is absent. *)
Record Body := mkBody {
  req_email : option string;
  req_billId : option Z;
  req_notificationType : option string;
  req_name : option string
}.

Inductive Answer :=
| BadRequest
| Failed
| Subscribed (subscription : Row).

(** What [GET /api/verify-email] and [GET /api/unsubscribe] send. *)
Inductive Page := Page404 | Page200.

(** The columns of [UNIQUE(email, bill_id, notification_type)]. *)
Definition key (r : Row) : string * Z * string :=
  (email r, bill_id r, notification_type r).

Definition same_key (k : string * Z * string) (r : Row) : bool :=
  let '(e, b, t) := k in
  String.eqb (email r) e && (bill_id r =? b) && String.eqb (notification_type r) t.

(** [DO UPDATE SET is_active = TRUE, verification_token =
    EXCLUDED.verification_token] *)
Definition reactivated (token : string) (r : Row) : Row :=
  mkRow (id r) (email r) (name r) (bill_id r) (notification_type r) true
        (Some token) (verified_at r) (created_at r) (last_notification_at r).

(** [SET verified_at = NOW()] *)
Definition verified (now : Z) (r : Row) : Row :=
  mkRow (id r) (email r) (name r) (bill_id r) (notification_type r) (is_active r)
        (verification_token r) (Some now) (created_at r) (last_notification_at r).


(** [SELECT identifier, title FROM bills WHERE id = $1] finds a row. *)
Definition bill_stored (db : Db) (billId : Z) : bool :=
  existsb (fun b => br_id b =? billId) (bills db).

(** The handler of [POST /api/subscribe]; [token] is the value of
    [crypto.randomBytes(32).toString('hex')]. *)
Definition subscribe (db : Db) (token : string) (now : Z) (body : Body) (st : Store)
  : Answer * Store :=
  match req_email body, req_billId body with
  | Some e, Some billId =>
      if String.eqb e "" || (billId =? 0) then (BadRequest, st)
      else
        let notificationType :=
          match req_notificationType body with
          | Some t => t
          | None => "status_change"
          end in
        let k := (e, billId, notificationType) in
        let mailed :=
          if bill_stored db billId then outbox st ++ [(e, token)] else outbox st in
        match find (same_key k) (rows st) with
        | Some r =>
            (Subscribed (reactivated token r),
             mkStore (map (fun x => if same_key k x then reactivated token x else x)
                          (rows st))
                     (next_id st + 1) mailed)
        | None =>
            if bill_stored db billId then
              let row := mkRow (next_id st) e (req_name body) billId notificationType
                               true (Some token) None now None in
              (Subscribed row, mkStore (rows st ++ [row]) (next_id st + 1) mailed)
            else (Failed, mkStore (rows st) (next_id st + 1) (outbox st))
        end
  | _, _ => (BadRequest, st)
  end.

(** [WHERE verification_token = $1]: never true of a null token or for a
    missing parameter. *)
Definition has_token (token : option string) (r : Row) : bool :=
  match token, verification_token r with
  | Some t, Some t' => String.eqb t' t
  | _, _ => false
  end.

Definition is_null {A} (v : option A) : bool :=
  match v with
  | Some _ => false
  | None => true
  end.

(** An [UPDATE ... WHERE ... RETURNING *] and the page sent for the number
    of rows it returns. *)
Definition update_where (hit : Row -> bool) (set : Row -> Row) (st : Store)
  : Page * Store :=
  (if existsb hit (rows st) then Page200 else Page404,
   mkStore (map (fun r => if hit r then set r else r) (rows st))
           (next_id st) (outbox st)).

(** The handler of [GET /api/verify-email] *)
Definition verify_email (token : option string) (now : Z) (st : Store)
  : Page * Store :=
  update_where (fun r => has_token token r && is_null (verified_at r))
               (verified now) st.


(** The default of [notificationType] applied. *)
Definition key_of (e : string) (billId : Z) (body : Body) : string * Z * string :=
  (e, billId,
   match req_notificationType body with
   | Some t => t
   | None => "status_change"
   end).

End Subscriptions.

(** The [UNIQUE(email, bill_id, notification_type)] constraint. *)
Definition unique_subscriptions (st : Subscriptions.Store) : Prop :=
  NoDup (map Subscriptions.key (Subscriptions.rows st)).

(** A subscription that was verified and then cancelled, and a request to
    follow the same bill again. *)
Definition subscription_cancelled : Subscriptions.Row :=
  Subscriptions.mkRow 1 "pat@example.org" None 1 "status_change" false
                      (Some "a1") (Some 500) 400 None.

Definition store_cancelled : Subscriptions.Store :=
  Subscriptions.mkStore [subscription_cancelled] 2 [("pat@example.org", "a1")].

Definition follow_again : Subscriptions.Body :=
  Subscriptions.mkBody (Some "pat@example.org") (Some 1) None None.

(** A subscription whose verification mail has not been answered yet. *)
Definition subscription_pending : Subscriptions.Row :=
  Subscriptions.mkRow 1 "pat@example.org" None 1 "status_change" true
                      (Some "a1") None 400 None.

Definition store_pending : Subscriptions.Store :=
  Subscriptions.mkStore [subscription_pending] 2 [("pat@example.org", "a1")].

(* ===================================================================== *)
(** ** The routes of the servers *)
(* ===================================================================== *)

Module Router.

Inductive Method := GET | POST | DELETE.

Definition method_eqb (a b : Method) : bool :=
  match a, b with
  | GET, GET | POST, POST | DELETE, DELETE => true
  | _, _ => false
  end.

(** A path cut at its slashes: ["/api/bills"] gives the pieces [""],
    ["api"] and ["bills"]. *)
Fixpoint split (s : string) : list string :=
  match s with
  | EmptyString => [EmptyString]
  | String c rest =>
      if Ascii.eqb c "/" then EmptyString :: split rest
      else match split rest with
           | [] => [String c EmptyString]
           | piece :: pieces => String c piece :: pieces
           end
  end.

Fixpoint without_last_empty (pieces : list string) : list string :=
  match pieces with
  | [] => []
  | [piece] => if String.eqb piece "" then [] else [piece]
  | piece :: rest => piece :: without_last_empty rest
  end.

(** The segments of a path that starts with a slash; one slash at the end
    is ignored, as Express does when routing is not strict. *)
Definition segments (path : string) : list string :=
  match split path with
  | piece :: rest =>
      if String.eqb piece "" then without_last_empty rest
      else without_last_empty (piece :: rest)
  | [] => []
  end.

(** A segment of a route path: fixed text, or a named parameter [:name]. *)
Inductive Segment :=
| Lit (text : string)
| Param (name : string).

(** A route path: segments, or ['*'], which matches every path. *)
Inductive Pattern :=
| Segments (l : list Segment)
| Star.

Definition pattern_of (route : string) : Pattern :=
  if String.eqb route "*" then Star
  else Segments (map (fun piece =>
                        match piece with
                        | String ":" name => Param name
                        | _ => Lit piece
                        end)
                     (segments route)).

(** Fixed text is compared without regard to case; a parameter takes any
    segment that is not empty (its value is the segment as sent, before
    percent-decoding). *)
Definition match_segment (pat : Segment) (piece : string)
  : option (list (string * string)) :=
  match pat with
  | Lit text =>
      if String.eqb (JS.toLowerCase piece) (JS.toLowerCase text) then Some []
      else None
  | Param name => if String.eqb piece "" then None else Some [(name, piece)]
  end.

Fixpoint match_segments (pats : list Segment) (pieces : list string)
  : option (list (string * string)) :=
  match pats, pieces with
  | [], [] => Some []
  | pat :: pats', piece :: pieces' =>
      match match_segment pat piece, match_segments pats' pieces' with
      | Some here, Some there => Some (here ++ there)
      | _, _ => None
      end
  | _, _ => None
  end.

(** [req.params] when the route matches the request path. *)
Definition matches (pat : Pattern) (pieces : list string)
  : option (list (string * string)) :=
  match pat with
  | Star => Some []
  | Segments pats => match_segments pats pieces
  end.

(** The routes of an application in the order of their registration
    ([app.get(path, handler)], [app.post], [app.delete]); a handler is
    named by its method and path. No handler of the servers calls [next],
    so the first route that matches answers the request. *)
Fixpoint first_match (routes : list (Method * string)) (method : Method)
    (pieces : list string) : option (string * list (string * string)) :=
  match routes with
  | [] => None
  | (m, route) :: rest =>
      if method_eqb method m then
        match matches (pattern_of route) pieces with
        | Some params => Some (route, params)
        | None => first_match rest method pieces
        end
      else first_match rest method pieces
  end.

(** The route that answers a request for [path] that no static file of
    [public/] serves, with its parameters. *)
Definition dispatch (routes : list (Method * string)) (method : Method)
    (path : string) : option (string * list (string * string)) :=
  first_match routes method (segments path).

(** [server-enhanced.js] *)
Definition enhanced : list (Method * string) :=
  [ (GET, "/api/bills");
    (GET, "/api/bills/:billId");
    (GET, "/api/stats/pipeline");
    (GET, "/api/stats/summary");
    (GET, "/api/bills/by-stage");
    (GET, "/api/legislators");
    (GET, "/api/search");
    (POST, "/api/cache/clear");
    (GET, "/health");
    (GET, "*") ].

(** [server-complete.js] *)
Definition complete : list (Method * string) :=
  [ (GET, "/api/bills");
    (GET, "/api/bills/:identifier");
    (GET, "/api/bills/by-stage");
    (GET, "/api/stats/summary");
    (GET, "/api/stats/pipeline");
    (POST, "/api/search/advanced");
    (GET, "/api/favorites");
    (POST, "/api/favorites");
    (DELETE, "/api/favorites/:billId");
    (GET, "/api/favorites/check/:billId");
    (POST, "/api/subscribe");
    (GET, "/api/verify-email");
    (GET, "/api/unsubscribe");
    (GET, "/api/export/csv");
    (GET, "/api/export/xlsx");
    (POST, "/api/export/custom");
    (GET, "/health");
    (GET, "*") ].

End Router.

(* ===================================================================== *)
(** ** Strings and arrays *)
(* ===================================================================== *)

Lemma includes_In (arr : list string) (x : string) :
  JS.includes arr x = true <-> In x arr.
Proof.
  unfold JS.includes. rewrite existsb_exists. split.
  - intros [y [Hy He]]. apply String.eqb_eq in He. now subst.
  - intros H. exists x. split; [assumption | apply String.eqb_refl].
Qed.

Lemma includes_not_In (arr : list string) (x : string) :
  JS.includes arr x = false <-> ~ In x arr.
Proof.
  rewrite <- includes_In. destruct (JS.includes arr x); split; congruence.
Qed.

Lemma filter_Boolean_In (arr : list (option string)) (t : string) :
  In t (JS.filter_Boolean arr) <-> In (Some t) arr /\ t <> "".
Proof.
  induction arr as [| [s |] rest IH]; simpl.
  - tauto.
  - destruct (String.eqb_spec s "") as [-> | Hs]; simpl; rewrite IH.
    + split; [tauto |]. intros [[H | H] Ht]; [congruence | tauto].
    + split.
      * intros [-> | [H Ht]]; [split; [left; reflexivity | assumption] | tauto].
      * intros [[H | H] Ht]; [left; congruence | tauto].
  - rewrite IH. split; [tauto |]. intros [[H | H] Ht]; [discriminate | tauto].
Qed.

Lemma actionTypes_In (actions : list Action) (t : string) :
  In t (actionTypes actions) <->
  t <> "" /\ exists a, In a actions /\ JS.first (a_classification a) = Some t.
Proof.
  unfold actionTypes. rewrite filter_Boolean_In, in_map_iff. split.
  - intros [[a [Ha Hin]] Ht]. split; [assumption | exists a; auto].
  - intros [Ht [a [Hin Ha]]]. split; [exists a; auto | assumption].
Qed.

Lemma primary_tag_actionTypes (t : string) (actions : list Action) :
  t <> "" -> primary_tag t actions -> In t (actionTypes actions).
Proof.
  intros Ht [a [rest [Hin Hc]]]. apply actionTypes_In. split; [assumption |].
  exists a. split; [assumption |]. now rewrite Hc.
Qed.

Lemma actionTypes_primary_tag (t : string) (actions : list Action) :
  In t (actionTypes actions) -> primary_tag t actions.
Proof.
  intros H. apply actionTypes_In in H. destruct H as [_ [a [Hin Hf]]].
  unfold JS.first in Hf. destruct (a_classification a) as [[| x rest] |] eqn:Hc;
    try discriminate.
  injection Hf as ->. exists a, rest. auto.
Qed.

Lemma has_passage_tagged (a : Action) :
  has_passage a = if in_dec string_dec "passage" (tags_of a) then true else false.
Proof.
  unfold has_passage, tags_of. destruct (a_classification a) as [tags |].
  - destruct (in_dec string_dec "passage" tags) as [H | H].
    + now apply includes_In.
    + now apply includes_not_In.
  - reflexivity.
Qed.

Lemma passageActions_count (actions : list Action) :
  length (passageActions actions) = count_tagged "passage" actions.
Proof.
  unfold passageActions, count_tagged. f_equal.
  apply filter_ext. intros a. apply has_passage_tagged.
Qed.

Lemma append_assoc (a b c : string) : ((a ++ b) ++ c = a ++ (b ++ c))%string.
Proof. induction a as [| x a IH]; simpl; [reflexivity | now rewrite IH]. Qed.

Lemma starts_with_spec (needle hay : string) :
  JS.starts_with needle hay = true <-> exists post, hay = (needle ++ post)%string.
Proof.
  revert hay. induction needle as [| a n IH]; intros hay; simpl.
  - split; [intros _; now exists hay | reflexivity].
  - destruct hay as [| b h]; simpl.
    + split; [discriminate | intros [post H]; discriminate].
    + rewrite andb_true_iff, IH. split.
      * intros [Hab [post ->]]. apply Ascii.eqb_eq in Hab. subst. now exists post.
      * intros [post H]. injection H as -> ->. split; [apply Ascii.eqb_refl | now exists post].
Qed.

Lemma str_includes_spec (hay needle : string) :
  JS.str_includes hay needle = true <->
  exists pre post, hay = (pre ++ needle ++ post)%string.
Proof.
  induction hay as [| c h IH]; simpl.
  - destruct (JS.starts_with needle "") eqn:Hs.
    + apply starts_with_spec in Hs. destruct Hs as [post Hp].
      split; [intros _; exists "", post; exact Hp | reflexivity].
    + split; [discriminate |]. intros [pre [post H]].
      destruct pre; simpl in H.
      * assert (JS.starts_with needle "" = true) by (apply starts_with_spec; now exists post).
        congruence.
      * discriminate.
  - destruct (JS.starts_with needle (String c h)) eqn:Hs.
    + apply starts_with_spec in Hs. destruct Hs as [post Hp].
      split; [intros _; exists "", post; exact Hp | reflexivity].
    + rewrite IH. split.
      * intros [pre [post ->]]. now exists (String c pre), post.
      * intros [pre [post H]]. destruct pre as [| x pre]; simpl in H.
        -- assert (JS.starts_with needle (String c h) = true)
             by (apply starts_with_spec; now exists post).
           congruence.
        -- injection H as _ ->. now exists pre, post.
Qed.

Lemma toLowerCase_app (a b : string) :
  JS.toLowerCase (a ++ b) = (JS.toLowerCase a ++ JS.toLowerCase b)%string.
Proof. induction a as [| x a IH]; simpl; [reflexivity | now rewrite IH]. Qed.

Lemma toLowerCase_split (s a b : string) :
  JS.toLowerCase s = (a ++ b)%string ->
  exists a' b', s = (a' ++ b')%string /\ JS.toLowerCase a' = a /\ JS.toLowerCase b' = b.
Proof.
  revert s. induction a as [| x a IH]; intros s H; simpl in H.
  - exists "", s. auto.
  - destruct s as [| c s]; simpl in H; [discriminate |].
    injection H as Hc Hs. destruct (IH _ Hs) as [a' [b' [-> [Ha Hb]]]].
    exists (String c a'), b'. simpl. rewrite Ha, Hc. auto.
Qed.

(** [desc.toLowerCase().includes(kw)] is the case-insensitive substring
    test. *)
Lemma lower_includes_occurs (desc kw : string) :
  JS.str_includes (JS.toLowerCase desc) kw = true <-> occurs_ci kw desc.
Proof.
  rewrite str_includes_spec. unfold occurs_ci. split.
  - intros [pre [post H]].
    apply toLowerCase_split in H. destruct H as [pre' [rest [-> [_ Hr]]]].
    apply toLowerCase_split in Hr. destruct Hr as [mid [post' [-> [Hm _]]]].
    now exists pre', mid, post'.
  - intros [pre [mid [post [-> <-]]]].
    exists (JS.toLowerCase pre), (JS.toLowerCase post).
    now rewrite !toLowerCase_app.
Qed.

Lemma lower_includes_absent (desc kw : string) :
  JS.str_includes (JS.toLowerCase desc) kw = false <-> ~ occurs_ci kw desc.
Proof.
  rewrite <- lower_includes_occurs.
  destruct (JS.str_includes (JS.toLowerCase desc) kw); split; congruence.
Qed.

Lemma by_description_keywords (d : string) :
  keyword_stage d description_keywords (Server.by_description (Some d)).
Proof.
  unfold Server.by_description, description_keywords, JS.truthy, JS.interpolate.
  destruct (String.eqb_spec d "") as [-> | Hd]; simpl negb; cbv iota.
  - repeat (apply ks_miss; [apply lower_includes_absent; reflexivity |]).
    apply ks_none.
  - repeat
      (match goal with
       | |- context [JS.str_includes ?h ?n] =>
           let H := fresh "H" in
           destruct (JS.str_includes h n) eqn:H;
           [ apply ks_hit; apply lower_includes_occurs; exact H
           | apply ks_miss; [apply lower_includes_absent; exact H |] ]
       end).
    apply ks_none.
Qed.

(* ===================================================================== *)
(** ** Stage Classifier *)
(* ===================================================================== *)

Ltac classify_cases :=
  repeat match goal with
         | |- context [JS.includes ?l ?t] =>
             let H := fresh "H" in destruct (JS.includes l t) eqn:H
         | |- context [(2 <=? ?n)%nat] =>
             let H := fresh "H" in destruct (Nat.leb_spec 2 n) as [H | H]
         end.

Lemma determineBillStage_stages (bill : Bill) :
  In (determineBillStage bill) stages.
Proof.
  unfold determineBillStage, stages.
  destruct (b_actions bill) as [[| a actions] |]; classify_cases; simpl; tauto.
Qed.

Lemma by_description_stages (desc : option string) :
  In (Server.by_description desc) stages.
Proof.
  unfold Server.by_description, stages.
  destruct (JS.truthy desc); cbv zeta;
    repeat match goal with
           | |- context [JS.str_includes ?h ?n] => destruct (JS.str_includes h n)
           end; simpl; tauto.
Qed.

Lemma server_determineBillStage_stages (bill : Bill) :
  In (Server.determineBillStage bill) stages.
Proof.
  unfold Server.determineBillStage.
  destruct (b_actions bill) as [[| a actions] |]; classify_cases;
    simpl orb; cbv iota; try apply by_description_stages;
    unfold stages; simpl; tauto.
Qed.

Lemma stages_not_dead (s : string) : In s stages -> s <> "dead".
Proof.
  unfold stages. simpl. intros H.
  repeat (destruct H as [<- | H]; [discriminate |]). contradiction.
Qed.

Lemma stages_truthy (s : string) : In s stages -> JS.truthy (Some s) = true.
Proof.
  unfold stages. simpl. intros H.
  repeat (destruct H as [<- | H]; [reflexivity |]). contradiction.
Qed.

(** Claim C4, as stated, fails: an [executive-signature] tag that is not
    the first tag of its action is not seen by the classifier. Here the only
    action is tagged [passage, executive-signature] and the result is
    [passed_chamber]. *)
Lemma signature_second_tag_not_signed :
  ~ (forall bill actions,
        b_actions bill = Some actions ->
        any_tag "executive-signature" actions ->
        determineBillStage bill = "signed").
Proof.
  intros H.
  specialize (H bill_signature_second _ eq_refl).
  assert (Hs : determineBillStage bill_signature_second = "passed_chamber")
    by reflexivity.
  rewrite Hs in H.
  assert (Hc : "passed_chamber" = "signed"); [| discriminate Hc].
  apply H. exists (tagged ["passage"; "executive-signature"]).
  split; simpl; tauto.
Qed.

(** Claim C4 (amended): every bill one of whose actions has
    [executive-signature] as its first classification tag is classified
    [signed], whatever other tags (veto, became-law, passage, committee
    ones) the action list carries; this holds for the classifier of the
    sync script and for the one of the servers. *)
Theorem signature_primary_signed :
  forall bill actions,
    b_actions bill = Some actions ->
    primary_tag "executive-signature" actions ->
    determineBillStage bill = "signed" /\
    Server.determineBillStage bill = "signed".
Proof.
  intros bill actions Hb Hp.
  assert (Hin : JS.includes (actionTypes actions) "executive-signature" = true).
  { apply includes_In. apply primary_tag_actionTypes; [discriminate | assumption]. }
  unfold determineBillStage, Server.determineBillStage. rewrite Hb.
  destruct actions as [| a rest].
  - destruct Hp as [a [rest [[] _]]].
  - rewrite Hin. split; reflexivity.
Qed.

Lemma signature_primary_signed_witness :
  determineBillStage
    (bill_with None (Some [tagged ["executive-veto"]; tagged ["executive-signature"]]))
  = "signed" /\
  Server.determineBillStage
    (bill_with None (Some [tagged ["executive-veto"]; tagged ["executive-signature"]]))
  = "signed".
Proof.
  apply (signature_primary_signed
           (bill_with None (Some [tagged ["executive-veto"]; tagged ["executive-signature"]]))
           [tagged ["executive-veto"]; tagged ["executive-signature"]]).
  - reflexivity.
  - exists (tagged ["executive-signature"]), []. split.
    + simpl. right. left. reflexivity.
    + reflexivity.
Defined.

(** Claim C5, as stated, fails: a [passage] tag that is not the first tag
    of its action does not bring the classifier to the passage rule. Here
    the only action is tagged [reading-3, passage]: the list contains a
    passage tag, none of the higher-priority tags, and exactly one action
    whose classification includes [passage], and the result is
    [floor_calendar]. *)
Lemma passage_second_tag_not_passed :
  ~ (forall bill actions,
        b_actions bill = Some actions ->
        any_tag "passage" actions ->
        ~ any_tag "executive-signature" actions ->
        ~ any_tag "executive-veto" actions ->
        ~ any_tag "became-law" actions ->
        (count_tagged "passage" actions = 1%nat ->
         determineBillStage bill = "passed_chamber") /\
        ((2 <= count_tagged "passage" actions)%nat ->
         determineBillStage bill = "enrolled")).
Proof.
  intros H.
  assert (Hnone : forall t, t <> "reading-3" -> t <> "passage" ->
                            ~ any_tag t [tagged ["reading-3"; "passage"]]).
  { intros t H1 H2 [a [Hin Ht]]. simpl in Hin. destruct Hin as [<- | []].
    simpl in Ht. destruct Ht as [Ht | [Ht | []]]; congruence. }
  destruct (H bill_passage_second _ eq_refl) as [Hone _].
  - exists (tagged ["reading-3"; "passage"]). split; simpl; tauto.
  - apply Hnone; discriminate.
  - apply Hnone; discriminate.
  - apply Hnone; discriminate.
  - assert (Hs : determineBillStage bill_passage_second = "floor_calendar")
      by reflexivity.
    rewrite Hs in Hone.
    assert (Hc : "floor_calendar" = "passed_chamber"); [| discriminate Hc].
    apply Hone. reflexivity.
Qed.

(** Claim C5 (amended): when the primary classification tags of the action
    list include [passage] and none of [executive-signature],
    [executive-veto], [became-law], the classifier returns [passed_chamber]
    if exactly one action's classification includes [passage] (at any
    position) and [enrolled] if two or more do. *)
Theorem passage_one_or_more :
  forall bill actions,
    b_actions bill = Some actions ->
    primary_tag "passage" actions ->
    ~ primary_tag "executive-signature" actions ->
    ~ primary_tag "executive-veto" actions ->
    ~ primary_tag "became-law" actions ->
    (count_tagged "passage" actions = 1%nat ->
     determineBillStage bill = "passed_chamber") /\
    ((2 <= count_tagged "passage" actions)%nat ->
     determineBillStage bill = "enrolled").
Proof.
  intros bill actions Hb Hp Hs Hv Hl.
  assert (Hp' : JS.includes (actionTypes actions) "passage" = true).
  { apply includes_In. apply primary_tag_actionTypes; [discriminate | assumption]. }
  assert (Hs' : JS.includes (actionTypes actions) "executive-signature" = false).
  { apply includes_not_In. intros H. apply Hs. now apply actionTypes_primary_tag. }
  assert (Hv' : JS.includes (actionTypes actions) "executive-veto" = false).
  { apply includes_not_In. intros H. apply Hv. now apply actionTypes_primary_tag. }
  assert (Hl' : JS.includes (actionTypes actions) "became-law" = false).
  { apply includes_not_In. intros H. apply Hl. now apply actionTypes_primary_tag. }
  unfold determineBillStage. rewrite Hb.
  destruct actions as [| a rest].
  - destruct Hp as [a [rest [[] _]]].
  - rewrite Hs', Hv', Hl', Hp', passageActions_count.
    split; intros Hn.
    + rewrite Hn. reflexivity.
    + destruct (Nat.leb_spec 2 (count_tagged "passage" (a :: rest))); [reflexivity | lia].
Qed.

Lemma passage_one_or_more_witness :
  determineBillStage bill_two_passages = "enrolled".
Proof.
  apply (passage_one_or_more bill_two_passages
           [tagged ["passage"]; tagged ["reading-3"; "passage"]]).
  - reflexivity.
  - exists (tagged ["passage"]), []. split; [left; reflexivity | reflexivity].
  - intros [a [rest [Hin Hc]]]. simpl in Hin.
    destruct Hin as [<- | [<- | []]]; discriminate Hc.
  - intros [a [rest [Hin Hc]]]. simpl in Hin.
    destruct Hin as [<- | [<- | []]]; discriminate Hc.
  - intros [a [rest [Hin Hc]]]. simpl in Hin.
    destruct Hin as [<- | [<- | []]]; discriminate Hc.
  - vm_compute. lia.
Defined.

Lemma occurs_signed : occurs_ci "signed" "Signed by Governor".
Proof. exists "", "Signed", " by Governor". split; reflexivity. Qed.

Lemma signed_not_introduced :
  ~ keyword_stage "Signed by Governor" description_keywords "introduced".
Proof.
  intros H. inversion H; subst.
  match goal with Hn : ~ occurs_ci _ _ |- _ => apply Hn; exact occurs_signed end.
Qed.

(** Claim C3, as stated, fails for both classifiers. The one of the sync
    script never reads the description: a bill whose only tag is [other] and
    whose latest action reads "Signed by Governor" is [introduced]. The one
    of the servers also stops at the tags [filing] and [referral-committee],
    which the claim does not list: with the only tag [filing] the same
    description is not consulted either. *)
Lemma description_fallback_not_as_listed :
  ~ falls_back listed_recognized determineBillStage /\
  ~ falls_back listed_recognized Server.determineBillStage.
Proof.
  split; intros H.
  - specialize (H bill_untagged_signed (tagged ["other"]) [] eq_refl).
    apply signed_not_introduced. apply H.
    intros t Ht [Hin | []]. subst t. simpl in Ht.
    repeat (destruct Ht as [Ht | Ht]; [discriminate Ht |]). contradiction.
  - specialize (H bill_filed_signed (tagged ["filing"]) [] eq_refl).
    apply signed_not_introduced. apply H.
    intros t Ht [Hin | []]. subst t. simpl in Ht.
    repeat (destruct Ht as [Ht | Ht]; [discriminate Ht |]). contradiction.
Qed.

(** Claim C3 (amended): in the servers' classifier, a bill with a non-empty
    action list none of whose primary tags is one of executive-signature,
    executive-veto, became-law, passage, committee-passage,
    referral-committee, committee-referral, reading-3, introduction, filing
    is classified by the first of the keywords signed, veto, enrolled,
    passed, committee that occurs, up to letter case, in
    [bill.latest_action_description] (giving signed, vetoed, enrolled,
    passed_chamber, committee), and is [introduced] when none occurs or the
    description is missing. *)
Theorem server_description_fallback :
  falls_back server_recognized Server.determineBillStage.
Proof.
  intros bill a actions Hb Hnone.
  assert (Hf : forall t, In t server_recognized ->
                         JS.includes (actionTypes (a :: actions)) t = false).
  { intros t Ht. apply includes_not_In. now apply Hnone. }
  unfold Server.determineBillStage. rewrite Hb.
  rewrite !Hf by (unfold server_recognized; simpl; tauto).
  simpl orb. cbv iota.
  unfold description_fallback.
  destruct (b_latest_action_description bill) as [d |].
  - apply by_description_keywords.
  - reflexivity.
Qed.

Lemma server_description_fallback_witness :
  description_fallback bill_untagged_signed
    (Server.determineBillStage bill_untagged_signed).
Proof.
  apply (server_description_fallback bill_untagged_signed (tagged ["other"]) []).
  - reflexivity.
  - intros t Ht [Hin | []]. subst t. unfold server_recognized in Ht. simpl in Ht.
    repeat (destruct Ht as [Ht | Ht]; [discriminate Ht |]). contradiction.
Defined.

(* ===================================================================== *)
(** ** Legislator upsert *)
(* ===================================================================== *)

Lemma existsb_absent {A} (f : A -> bool) (l : list A) :
  (forall x, In x l -> f x = false) -> existsb f l = false.
Proof.
  induction l as [| x l IH]; simpl; intros H; [reflexivity |].
  rewrite (H x) by auto. simpl. apply IH. auto.
Qed.

Lemma map_unchanged {A} (f : A -> A) (l : list A) :
  (forall x, In x l -> f x = x) -> map f l = l.
Proof.
  induction l as [| x l IH]; simpl; intros H; [reflexivity |].
  rewrite (H x) by auto. f_equal. apply IH. auto.
Qed.

Lemma legislators_after_upsert (l : Legislator) (now : Z) (db : Db) :
  legislators (fst (Sql.upsert_legislator l now db)) =
  if existsb (fun r => String.eqb (lr_openstates_id r) (l_id l)) (legislators db)
  then map (fun r => if String.eqb (lr_openstates_id r) (l_id l)
                     then legislator_updated l now r else r) (legislators db)
  else legislators db ++ [legislator_inserted l now db].
Proof. reflexivity. Qed.

(** The upsert statement is keyed by [openstates_id]. An identifier not yet
    stored appends one row; a stored identifier leaves the table the same
    except that the one row with that identifier takes the new name, party,
    chamber, district and update time and keeps its id, openstates_id,
    image_url, email, phone and creation time. The identifier stays
    unique. *)
Lemma upsert_legislator_rows :
  forall (l : Legislator) (now : Z) (db : Db),
    unique_legislators db ->
    let db' := fst (Sql.upsert_legislator l now db) in
    ((forall r, In r (legislators db) -> lr_openstates_id r <> l_id l) ->
     legislators db' = legislators db ++ [legislator_inserted l now db]) /\
    (forall before r after,
        legislators db = before ++ r :: after ->
        lr_openstates_id r = l_id l ->
        legislators db' = before ++ legislator_updated l now r :: after /\
        length (legislators db') = length (legislators db)) /\
    unique_legislators db'.
Proof.
  intros l now db Hu db'. subst db'.
  unfold unique_legislators in *. rewrite !legislators_after_upsert.
  set (conflict := fun r => String.eqb (lr_openstates_id r) (l_id l)).
  assert (Hfound : forall before r after,
             legislators db = before ++ r :: after ->
             lr_openstates_id r = l_id l ->
             existsb conflict (legislators db) = true).
  { intros before r after Hdb Hid. apply existsb_exists. exists r. split.
    - rewrite Hdb. apply in_or_app. right. left. reflexivity.
    - apply String.eqb_eq. exact Hid. }
  split; [| split].
  - intros Habs. rewrite existsb_absent; [reflexivity |].
    intros r Hr. apply String.eqb_neq. now apply Habs.
  - intros before r after Hdb Hid.
    rewrite (Hfound before r after Hdb Hid).
    split; [| now rewrite length_map].
    rewrite Hdb in *.
    rewrite map_app in Hu. simpl in Hu.
    apply NoDup_remove_2 in Hu.
    rewrite map_app. simpl. unfold conflict. rewrite Hid, String.eqb_refl.
    f_equal; [| f_equal]; apply map_unchanged; intros x Hx;
      destruct (String.eqb_spec (lr_openstates_id x) (l_id l)) as [He | He];
      try reflexivity; exfalso; apply Hu; rewrite Hid, <- He;
      apply in_or_app; [left | right]; now apply in_map.
  - destruct (existsb conflict (legislators db)) eqn:Hex.
    + rewrite map_map.
      erewrite map_ext; [exact Hu |].
      intros r. simpl. unfold conflict. now destruct (String.eqb (lr_openstates_id r) (l_id l)).
    + rewrite map_app. simpl.
      assert (Hn : ~ In (l_id l) (map lr_openstates_id (legislators db))).
      { intros Hin. apply in_map_iff in Hin. destruct Hin as [r [Hr Hin]].
        assert (Ht : existsb conflict (legislators db) = true).
        { apply existsb_exists. exists r. split; [assumption |].
          now apply String.eqb_eq. }
        congruence. }
      clear Hex Hfound. revert Hu Hn.
      induction (map lr_openstates_id (legislators db)) as [| x xs IH]; simpl; intros Hu Hn.
      * constructor; [tauto | constructor].
      * inversion Hu; subst. constructor.
        -- rewrite in_app_iff. simpl. intros [H | [H | []]]; [tauto |]. apply Hn. now left.
        -- apply IH; [assumption | tauto].
Qed.

Lemma schema_unique_legislators : unique_legislators (schema_db 0).
Proof. constructor. Qed.


(* ===================================================================== *)
(** ** Reasoning about runs *)
(* ===================================================================== *)

Lemma bind_run {A B} (m : M A) (k : A -> M B) (w : World) :
  bind m k w =
  match m w with
  | (Ok a, w') => k a w'
  | (Throw msg, w') => (Throw msg, w')
  | (Exit c, w') => (Exit c, w')
  | (OutOfFuel, w') => (OutOfFuel, w')
  end.
Proof. reflexivity. Qed.

Section Sequential.

Variable Q : World -> Ending -> World -> Prop.
Hypothesis Q_skip : forall w, Q w EOk w.
Hypothesis Q_seq :
  forall w1 w2 w3 e, Q w1 EOk w2 -> Q w2 e w3 -> Q w1 e w3.

Lemma runs_ret {A} (a : A) : runs (ret a) Q.
Proof. intros w. apply Q_skip. Qed.

Lemma runs_bind {A B} (m : M A) (k : A -> M B) :
  runs m Q -> (forall a, runs (k a) Q) -> runs (bind m k) Q.
Proof.
  intros Hm Hk w. specialize (Hm w). rewrite bind_run.
  destruct (m w) as [[a | msg | c |] w1]; simpl in *; try assumption.
  eapply Q_seq; [exact Hm | apply Hk].
Qed.

Lemma runs_for_of {A} (xs : list A) (body : A -> M unit) :
  (forall x, In x xs -> runs (body x) Q) -> runs (for_of xs body) Q.
Proof.
  induction xs as [| x xs IH]; simpl; intros H.
  - apply runs_ret.
  - apply runs_bind; [apply H; now left |].
    intros _. apply IH. intros y Hy. apply H. now right.
Qed.

Lemma runs_for_index {A} (xs : list A) (body : Z -> A -> M unit) (i : Z) :
  (forall j x, runs (body j x) Q) -> runs (for_index i xs body) Q.
Proof.
  intros H. revert i. induction xs as [| x xs IH]; simpl; intros i.
  - apply runs_ret.
  - apply runs_bind; [apply H |]. intros _. apply IH.
Qed.

Lemma runs_if {A} (b : bool) (m1 m2 : M A) :
  runs m1 Q -> runs m2 Q -> runs (if b then m1 else m2) Q.
Proof. now destruct b. Qed.

Lemma runs_page_loop {A} endpoint (api : Z -> Fetch A) cap each :
  (forall w, Q w EFuel w) ->
  (forall page, runs (api_get endpoint api page) Q) ->
  (forall x, runs (each x) Q) ->
  forall fuel page total, runs (page_loop endpoint api cap each fuel page total) Q.
Proof.
  intros Hfuel Hget Heach.
  induction fuel as [| fuel IH]; intros page total; simpl.
  - intros w. apply Hfuel.
  - apply runs_if; [| apply runs_ret].
    apply runs_bind; [apply Hget |]. intros response.
    apply runs_if; [apply runs_ret |].
    apply runs_bind; [apply runs_for_of; auto |]. intros _.
    apply runs_if; [apply runs_ret | apply IH].
Qed.

End Sequential.

Lemma bind_ext {A B} (m : M A) (k1 k2 : A -> M B) (w : World) :
  (forall a w', k1 a w' = k2 a w') -> bind m k1 w = bind m k2 w.
Proof.
  intros H. rewrite !bind_run. destruct (m w) as [[a | msg | c |] w1]; auto.
Qed.

Lemma legislators_loop_shape env fuel page total w :
  legislators_loop env fuel page total w =
  page_loop "/people" (people_api env) legislators_max_pages
            (upsert_one_legislator env) fuel page total w.
Proof.
  revert page total w. induction fuel as [| fuel IH]; intros page total w; simpl.
  - reflexivity.
  - destruct (page <=? legislators_max_pages); [| reflexivity].
    apply bind_ext. intros response w1.
    destruct (length (results response) =? 0)%nat; [reflexivity |].
    apply bind_ext. intros _ w2.
    destruct (last_page response page); [reflexivity | apply IH].
Qed.

Lemma bills_loop_shape env fuel page total w :
  bills_loop env fuel page total w =
  page_loop "/bills" (bills_api env) bills_max_pages (sync_bill env) fuel page total w.
Proof.
  revert page total w. induction fuel as [| fuel IH]; intros page total w; simpl.
  - reflexivity.
  - destruct (page <=? bills_max_pages); [| reflexivity].
    apply bind_ext. intros response w1.
    destruct (length (results response) =? 0)%nat; [reflexivity |].
    apply bind_ext. intros _ w2.
    destruct (last_page response page); [reflexivity | apply IH].
Qed.

Lemma queries_only_skip w : queries_only w EOk w.
Proof.
  split; [reflexivity |]. exists []. rewrite app_nil_r. repeat split; constructor.
Qed.

Lemma queries_only_seq w1 w2 w3 e :
  queries_only w1 EOk w2 -> queries_only w2 e w3 -> queries_only w1 e w3.
Proof.
  intros [Hp1 [evs1 [Ht1 [Hq1 Ho1]]]] [Hp2 [evs2 [Ht2 [Hq2 Ho2]]]].
  split; [congruence |]. exists (evs1 ++ evs2). split; [| split].
  - rewrite Ht2, Ht1. now rewrite app_assoc.
  - apply Forall_app. now split.
  - destruct e as [| msg | c |]; try contradiction.
    + apply Forall_app. now split.
    + destruct Ho2 as [pre [ev [-> [Hpre Hev]]]].
      exists (evs1 ++ pre), ev. rewrite app_assoc. repeat split; try assumption.
      apply Forall_app. now split.
Qed.

Lemma queries_only_stops w e w' : queries_only w e w' -> stops_at_failure w e w'.
Proof.
  intros [Hp [evs [Ht [Hq Ho]]]]. split; [assumption |]. exists evs.
  split; [assumption |]. split.
  - intros Hin. rewrite Forall_forall in Hq. apply (Hq _ Hin).
  - destruct e; try assumption. contradiction.
Qed.

Lemma stops_at_failure_skip w : stops_at_failure w EOk w.
Proof. apply queries_only_stops, queries_only_skip. Qed.

Lemma stops_at_failure_seq w1 w2 w3 e :
  stops_at_failure w1 EOk w2 -> stops_at_failure w2 e w3 -> stops_at_failure w1 e w3.
Proof.
  intros [Hp1 [evs1 [Ht1 [Hq1 Ho1]]]] [Hp2 [evs2 [Ht2 [Hq2 Ho2]]]].
  split; [congruence |]. exists (evs1 ++ evs2). split; [| split].
  - rewrite Ht2, Ht1. now rewrite app_assoc.
  - rewrite in_app_iff. tauto.
  - destruct e as [| msg | c |]; try contradiction; try exact I.
    + apply Forall_app. now split.
    + destruct Ho2 as [pre [ev [-> [Hpre Hev]]]].
      exists (evs1 ++ pre), ev. rewrite app_assoc. repeat split; try assumption.
      apply Forall_app. now split.
Qed.

Lemma pool_query_queries_only env {A} q (run : Z -> Db -> Db * A) :
  runs (pool_query env q run) queries_only.
Proof.
  intros w. unfold pool_query.
  destruct (db_fault env (w_queries w)) as [msg |].
  - simpl. split; [reflexivity |]. exists [EvQuery q (Some msg)].
    repeat split; [repeat constructor |].
    exists [], (EvQuery q (Some msg)). repeat split. constructor.
  - destruct (run (now env (w_queries w)) (w_db w)) as [db' a]. simpl.
    split; [reflexivity |]. exists [EvQuery q None].
    repeat split; repeat constructor.
Qed.

Lemma api_get_stops {A} endpoint (api : Z -> Fetch A) page :
  runs (api_get endpoint api page) stops_at_failure.
Proof.
  intros w. unfold api_get. destruct (api page) as [msg | data]; simpl.
  - split; [reflexivity |]. exists [EvFetch endpoint page (Some msg)].
    split; [reflexivity |]. split; [intros [H | []]; discriminate |].
    exists [], (EvFetch endpoint page (Some msg)). repeat split. constructor.
  - split; [reflexivity |]. exists [EvFetch endpoint page None].
    split; [reflexivity |]. split; [intros [H | []]; discriminate |].
    repeat constructor.
Qed.

(** Splits a run of straight-line code into its statements. *)
Ltac runs_steps skip seq prim :=
  repeat first
    [ apply (runs_ret _ skip)
    | apply (runs_bind _ seq); [| intro]
    | apply (runs_for_of _ skip seq); intros
    | apply (runs_for_index _ skip seq); intros
    | apply runs_if
    | match goal with
      | |- runs (match ?x with _ => _ end) _ => destruct x
      end
    | prim ].

Lemma sync_bill_queries_only env bill : runs (sync_bill env bill) queries_only.
Proof.
  unfold sync_bill.
  runs_steps queries_only_skip queries_only_seq ltac:(apply pool_query_queries_only).
Qed.

Lemma upsert_one_legislator_queries_only env l :
  runs (upsert_one_legislator env l) queries_only.
Proof. apply pool_query_queries_only. Qed.

Lemma page_loop_stops_at_failure {A} endpoint (api : Z -> Fetch A) cap each :
  (forall x, runs (each x) queries_only) ->
  forall fuel page total,
    runs (page_loop endpoint api cap each fuel page total) stops_at_failure.
Proof.
  intros Heach. apply runs_page_loop.
  - apply stops_at_failure_skip.
  - apply stops_at_failure_seq.
  - intros w. split; [reflexivity |]. exists []. rewrite app_nil_r. auto.
  - intros page. apply api_get_stops.
  - intros x w. apply queries_only_stops, Heach.
Qed.

Lemma metadata_kept_skip w : metadata_kept w EOk w.
Proof. reflexivity. Qed.

Lemma metadata_kept_seq w1 w2 w3 e :
  metadata_kept w1 EOk w2 -> metadata_kept w2 e w3 -> metadata_kept w1 e w3.
Proof. unfold metadata_kept. congruence. Qed.

Lemma pool_query_metadata_kept env {A} q (run : Z -> Db -> Db * A) :
  (forall t db, sync_metadata (fst (run t db)) = sync_metadata db) ->
  runs (pool_query env q run) metadata_kept.
Proof.
  intros H w. unfold pool_query, metadata_kept.
  destruct (db_fault env (w_queries w)); [reflexivity |].
  specialize (H (now env (w_queries w)) (w_db w)).
  destruct (run (now env (w_queries w)) (w_db w)) as [db' a]. exact H.
Qed.

Lemma api_get_same_db {A} endpoint (api : Z -> Fetch A) page w :
  w_db (snd (api_get endpoint api page w)) = w_db w.
Proof. unfold api_get. now destruct (api page). Qed.

Lemma sync_bill_metadata_kept env bill : runs (sync_bill env bill) metadata_kept.
Proof.
  unfold sync_bill.
  runs_steps metadata_kept_skip metadata_kept_seq
    ltac:(apply pool_query_metadata_kept; reflexivity).
Qed.

Lemma page_loop_metadata_kept {A} endpoint (api : Z -> Fetch A) cap each :
  (forall x, runs (each x) metadata_kept) ->
  forall fuel page total,
    runs (page_loop endpoint api cap each fuel page total) metadata_kept.
Proof.
  intros Heach. apply runs_page_loop.
  - apply metadata_kept_skip.
  - apply metadata_kept_seq.
  - reflexivity.
  - intros page w. unfold metadata_kept. now rewrite api_get_same_db.
  - exact Heach.
Qed.

Lemma legislators_loop_stops env fuel page total :
  runs (legislators_loop env fuel page total) stops_at_failure.
Proof.
  intros w. rewrite legislators_loop_shape.
  apply page_loop_stops_at_failure. apply upsert_one_legislator_queries_only.
Qed.

Lemma bills_loop_stops env fuel page total :
  runs (bills_loop env fuel page total) stops_at_failure.
Proof.
  intros w. rewrite bills_loop_shape.
  apply page_loop_stops_at_failure. apply sync_bill_queries_only.
Qed.

Lemma legislators_loop_metadata env fuel page total :
  runs (legislators_loop env fuel page total) metadata_kept.
Proof.
  intros w. rewrite legislators_loop_shape.
  apply page_loop_metadata_kept. intros l.
  apply pool_query_metadata_kept. reflexivity.
Qed.

Lemma bills_loop_metadata env fuel page total :
  runs (bills_loop env fuel page total) metadata_kept.
Proof.
  intros w. rewrite bills_loop_shape.
  apply page_loop_metadata_kept. apply sync_bill_metadata_kept.
Qed.

(* ===================================================================== *)
(** ** Failure handling of the sub-syncs and of the orchestrator *)
(* ===================================================================== *)

Lemma syncLegislators_shape env fuel :
  syncLegislators env fuel = recorded_sync env "legislators" (legislators_loop env fuel 1 0).
Proof. reflexivity. Qed.

Lemma syncBills_shape env fuel :
  syncBills env fuel = recorded_sync env "bills" (bills_loop env fuel 1 0).
Proof. reflexivity. Qed.

Lemma pool_query_throws env {A} q (run : Z -> Db -> Db * A) w msg w' :
  pool_query env q run w = (Throw msg, w') ->
  db_fault env (w_queries w) = Some msg /\
  w' = mkWorld (w_db w) (S (w_queries w)) (w_trace w ++ [EvQuery q (Some msg)])
               (w_pool_ended w).
Proof.
  unfold pool_query. destruct (db_fault env (w_queries w)) as [m |].
  - intros H. injection H as -> <-. auto.
  - destruct (run _ _). discriminate.
Qed.

Lemma pool_query_returns env {A} q (run : Z -> Db -> Db * A) w a w' :
  pool_query env q run w = (Ok a, w') ->
  db_fault env (w_queries w) = None /\
  a = snd (run (now env (w_queries w)) (w_db w)) /\
  w' = mkWorld (fst (run (now env (w_queries w)) (w_db w))) (S (w_queries w))
               (w_trace w ++ [EvQuery q None]) (w_pool_ended w).
Proof.
  unfold pool_query. destruct (db_fault env (w_queries w)) as [m |].
  - discriminate.
  - destruct (run _ _) as [db' a']. intros H. injection H as <- <-. auto.
Qed.

Lemma pool_query_ending env {A} q (run : Z -> Db -> Db * A) w :
  (exists a w', pool_query env q run w = (Ok a, w')) \/
  (exists msg w', pool_query env q run w = (Throw msg, w')).
Proof.
  unfold pool_query. destruct (db_fault env (w_queries w)) as [m |].
  - right. eauto.
  - destruct (run _ _) as [db' a']. left. eauto.
Qed.

(** The body of the [try] block of a sub-sync. *)
Lemma recorded_body_throws env sync_type (loop : M Z) :
  runs loop stops_at_failure ->
  runs loop metadata_kept ->
  forall w cause w1,
    (totalSynced <- loop ;;
     pool_query env (QMetaSuccess sync_type)
                (Sql.update_success sync_type totalSynced) ;;
     ret totalSynced) w = (Throw cause, w1) ->
    w_pool_ended w1 = w_pool_ended w /\
    sync_metadata (w_db w1) = sync_metadata (w_db w) /\
    exists pre failed,
      w_trace w1 = w_trace w ++ pre ++ [failed] /\
      Forall ev_ok pre /\ ev_err failed = Some cause.
Proof.
  intros Hstop Hmeta w cause w1. rewrite bind_run.
  specialize (Hstop w). specialize (Hmeta w). unfold metadata_kept in Hmeta.
  destruct (loop w) as [[total | msg | c |] w0]; simpl in Hstop, Hmeta;
    try discriminate.
  - rewrite bind_run.
    destruct (pool_query_ending env (QMetaSuccess sync_type)
                (Sql.update_success sync_type total) w0)
      as [[a [w2 Hq]] | [msg [w2 Hq]]]; rewrite Hq; [discriminate |].
    intros H. injection H as -> ->.
    apply pool_query_throws in Hq. destruct Hq as [_ ->]. simpl.
    destruct Hstop as [Hp [evs [Ht [_ Hok]]]].
    split; [assumption |]. split; [assumption |].
    exists evs, (EvQuery (QMetaSuccess sync_type) (Some cause)).
    rewrite Ht, app_assoc. auto.
  - intros H. injection H as -> ->.
    destruct Hstop as [Hp [evs [Ht [_ [pre [failed [-> [Hpre Hf]]]]]]]].
    split; [assumption |]. split; [assumption |].
    exists pre, failed. auto.
Qed.

Lemma recorded_sync_throws env sync_type (loop : M Z) :
  runs loop stops_at_failure ->
  runs loop metadata_kept ->
  forall w thrown w',
    recorded_sync env sync_type loop w = (Throw thrown, w') ->
    failure_recorded sync_type w thrown w'.
Proof.
  intros Hstop Hmeta w thrown w'. unfold recorded_sync, try_catch.
  pose proof (recorded_body_throws env sync_type loop Hstop Hmeta w) as Hbody.
  destruct ((totalSynced <- loop ;;
             pool_query env (QMetaSuccess sync_type)
               (Sql.update_success sync_type totalSynced) ;;
             ret totalSynced) w) as [[total | cause | c |] w1]; try discriminate.
  destruct (Hbody cause w1 eq_refl) as [_ [Hm [pre [failed [Ht [Hpre Hf]]]]]].
  rewrite bind_run.
  destruct (pool_query_ending env (QMetaError sync_type)
              (Sql.update_error sync_type cause) w1)
    as [[a [w2 Hq]] | [again [w2 Hq]]]; rewrite Hq.
  - unfold throw. intros H. injection H as <- <-.
    apply pool_query_returns in Hq. destruct Hq as [_ [_ ->]]. simpl.
    exists pre, failed, cause, None. repeat split; try assumption.
    + rewrite Ht, <- !app_assoc. reflexivity.
    + exists (now env (w_queries w1)). now rewrite Hm.
  - intros H. injection H as <- <-.
    apply pool_query_throws in Hq. destruct Hq as [_ ->]. simpl.
    exists pre, failed, cause, (Some again). repeat split; try assumption.
    rewrite Ht, <- !app_assoc. reflexivity.
Qed.

(** A sub-sync never exits the process and never touches the pool. *)
Lemma recorded_sync_pool env sync_type (loop : M Z) :
  runs loop stops_at_failure ->
  forall w,
    w_pool_ended (snd (recorded_sync env sync_type loop w)) = w_pool_ended w /\
    forall c, fst (recorded_sync env sync_type loop w) <> Exit c.
Proof.
  intros Hstop w. unfold recorded_sync, try_catch.
  assert (Hbody : runs (totalSynced <- loop ;;
                        pool_query env (QMetaSuccess sync_type)
                          (Sql.update_success sync_type totalSynced) ;;
                        ret totalSynced) stops_at_failure).
  { runs_steps stops_at_failure_skip stops_at_failure_seq
      ltac:(first [ exact Hstop
                  | intros w0; apply queries_only_stops, pool_query_queries_only ]). }
  specialize (Hbody w).
  destruct ((totalSynced <- loop ;;
             pool_query env (QMetaSuccess sync_type)
               (Sql.update_success sync_type totalSynced) ;;
             ret totalSynced) w) as [[total | cause | c |] w1]; simpl in Hbody;
    destruct Hbody as [Hp [evs [_ [_ Hend]]]]; try contradiction.
  - simpl. split; [assumption | discriminate].
  - assert (Hh : runs (pool_query env (QMetaError sync_type)
                         (Sql.update_error sync_type cause) ;; @throw Z cause)
                      (fun w e w' => w_pool_ended w' = w_pool_ended w /\
                                     forall c, e <> EExit c)).
    { intros w0. rewrite bind_run.
      destruct (pool_query_ending env (QMetaError sync_type)
                  (Sql.update_error sync_type cause) w0)
        as [[a [w2 Hq]] | [again [w2 Hq]]]; rewrite Hq.
      - apply pool_query_returns in Hq. destruct Hq as [_ [_ ->]].
        simpl. split; [reflexivity | discriminate].
      - apply pool_query_throws in Hq. destruct Hq as [_ ->].
        simpl. split; [reflexivity | discriminate]. }
    specialize (Hh w1). destruct Hh as [Hp' Hne]. split; [congruence |].
    intros c Hc. apply (Hne c). now rewrite Hc.
  - simpl. split; [assumption | discriminate].
Qed.

(** Claim C8, as stated, fails when the error record is itself rejected:
    with the connection lost while the first legislator is written, the
    upsert and then the [UPDATE sync_metadata ... status = 'error'] both
    fail, and the [legislators] row stays [pending]. *)
Lemma connection_lost_error_not_recorded :
  w_trace (snd (runSync env_connection_lost enough_fuel (start (schema_db 0)))) =
    [ EvQuery QSelectNow None;
      EvFetch "/people" 1 None;
      EvQuery (QUpsertLegislator "ocd-person/7")
              (Some "Connection terminated unexpectedly");
      EvQuery (QMetaError "legislators") (Some "Connection terminated unexpectedly") ] /\
  metadata_status (w_db (snd (runSync env_connection_lost enough_fuel
                                (start (schema_db 0))))) =
    [ ("bills", Some "pending"); ("legislators", Some "pending");
      ("actions", Some "pending"); ("votes", Some "pending") ].
Proof. split; vm_compute; reflexivity. Qed.

(** Claim C8 (amended): when a fetch or a query fails during a sync type,
    that sync does nothing more than send the error record; if the error
    record is accepted the [sync_metadata] rows of the sync type get status
    [error] and the message of the failed call, which is rethrown; if it is
    rejected as well the metadata stays as it was and the second error is
    thrown. Either way the orchestrator receives an error: it exits with
    code 1 in the state the failed sub-sync left, so a failed Legislator
    Sync means Bill Sync is never started. *)
Theorem sync_failure_recorded_then_fatal :
  forall env fuel,
    (forall w thrown w',
        syncLegislators env fuel w = (Throw thrown, w') ->
        failure_recorded "legislators" w thrown w') /\
    (forall w thrown w',
        syncBills env fuel w = (Throw thrown, w') ->
        failure_recorded "bills" w thrown w') /\
    (forall w w1 thrown w2,
        pool_query env QSelectNow Sql.select_now w = (Ok tt, w1) ->
        syncLegislators env fuel w1 = (Throw thrown, w2) ->
        runSync env fuel w = (Exit 1, w2)) /\
    (forall w w1 total w2 thrown w3,
        pool_query env QSelectNow Sql.select_now w = (Ok tt, w1) ->
        syncLegislators env fuel w1 = (Ok total, w2) ->
        syncBills env fuel w2 = (Throw thrown, w3) ->
        runSync env fuel w = (Exit 1, w3)).
Proof.
  intros env fuel. split; [| split; [| split]].
  - intros w thrown w'. rewrite syncLegislators_shape.
    apply recorded_sync_throws.
    + apply legislators_loop_stops.
    + apply legislators_loop_metadata.
  - intros w thrown w'. rewrite syncBills_shape.
    apply recorded_sync_throws.
    + apply bills_loop_stops.
    + apply bills_loop_metadata.
  - intros w w1 thrown w2 Hnow Hleg.
    unfold runSync, try_finally, try_catch.
    rewrite bind_run, Hnow, bind_run, Hleg. reflexivity.
  - intros w w1 total w2 thrown w3 Hnow Hleg Hbills.
    unfold runSync, try_finally, try_catch.
    rewrite bind_run, Hnow, bind_run, Hleg, bind_run, Hbills. reflexivity.
Qed.

Lemma sync_failure_recorded_then_fatal_witness :
  failure_recorded "legislators"
    (snd (pool_query env_api_down QSelectNow Sql.select_now (start (schema_db 0))))
    "connect ECONNREFUSED"
    (snd (syncLegislators env_api_down enough_fuel
            (snd (pool_query env_api_down QSelectNow Sql.select_now
                    (start (schema_db 0)))))) /\
  runSync env_api_down enough_fuel (start (schema_db 0)) =
    (Exit 1,
     snd (syncLegislators env_api_down enough_fuel
            (snd (pool_query env_api_down QSelectNow Sql.select_now
                    (start (schema_db 0)))))).
Proof.
  split.
  - apply (proj1 (sync_failure_recorded_then_fatal env_api_down enough_fuel)).
    vm_compute. reflexivity.
  - apply (proj1 (proj2 (proj2 (sync_failure_recorded_then_fatal env_api_down
                                  enough_fuel)))
             (start (schema_db 0))
             (snd (pool_query env_api_down QSelectNow Sql.select_now
                     (start (schema_db 0))))
             "connect ECONNREFUSED").
    + vm_compute. reflexivity.
    + vm_compute. reflexivity.
Defined.

(* ===================================================================== *)
(** ** The connection pool *)
(* ===================================================================== *)

Lemma pool_kept_skip w : pool_kept w EOk w.
Proof. split; [reflexivity | discriminate]. Qed.

Lemma pool_kept_seq w1 w2 w3 e :
  pool_kept w1 EOk w2 -> pool_kept w2 e w3 -> pool_kept w1 e w3.
Proof. intros [H1 _] [H2 H3]. split; [congruence | assumption]. Qed.

Lemma recorded_sync_pool_kept env sync_type loop :
  runs loop stops_at_failure -> runs (recorded_sync env sync_type loop) pool_kept.
Proof.
  intros Hstop w. destruct (recorded_sync_pool env sync_type loop Hstop w) as [Hp He].
  split; [assumption |]. intros c Hc. apply (He c).
  destruct (fst (recorded_sync env sync_type loop w)); simpl in Hc; congruence.
Qed.

Lemma orchestrated_pool_kept env fuel :
  runs (pool_query env QSelectNow Sql.select_now ;;
        syncLegislators env fuel ;;
        syncBills env fuel ;;
        ret tt) pool_kept.
Proof.
  runs_steps pool_kept_skip pool_kept_seq
    ltac:(first
            [ rewrite syncLegislators_shape; apply recorded_sync_pool_kept;
              apply legislators_loop_stops
            | rewrite syncBills_shape; apply recorded_sync_pool_kept;
              apply bills_loop_stops
            | intros w0;
              destruct (queries_only_stops _ _ _
                          (pool_query_queries_only env QSelectNow Sql.select_now w0))
                as [Hp [evs [_ [_ He]]]];
              split; [exact Hp | intros c Hc; rewrite Hc in He; exact He] ]).
Qed.

(** [runSync] closes the pool exactly when nothing failed: a completed run
    ends with the pool closed, a failed one exits with code 1 and the pool
    as it was. *)
Lemma runSync_pool env fuel w :
  match runSync env fuel w with
  | (Ok _, w') => w_pool_ended w' = true
  | (Exit c, w') => c = 1 /\ w_pool_ended w' = w_pool_ended w
  | (Throw _, _) => False
  | (OutOfFuel, w') => w_pool_ended w' = w_pool_ended w
  end.
Proof.
  unfold runSync, try_finally, try_catch.
  pose proof (orchestrated_pool_kept env fuel w) as [Hp He].
  destruct ((pool_query env QSelectNow Sql.select_now ;;
             syncLegislators env fuel ;;
             syncBills env fuel ;;
             ret tt) w) as [[a | msg | c |] w1]; simpl in *.
  - reflexivity.
  - split; [reflexivity | assumption].
  - exfalso. now apply (He c).
  - assumption.
Qed.

(** Claim C7 fails on the error path: with the API unreachable the
    legislator sync throws, the [catch] block calls [process.exit(1)], and
    the process is gone before the [finally] block can run [pool.end()]. *)
Theorem pool_not_closed_when_sync_fails :
  fst (runSync env_api_down enough_fuel (start (schema_db 0))) = Exit 1 /\
  w_pool_ended (snd (runSync env_api_down enough_fuel (start (schema_db 0)))) = false /\
  ~ In EvPoolEnd (w_trace (snd (runSync env_api_down enough_fuel (start (schema_db 0))))).
Proof.
  split; [vm_compute; reflexivity |]. split; [vm_compute; reflexivity |].
  vm_compute. intuition discriminate.
Qed.

(* ===================================================================== *)
(** ** The page loops *)
(* ===================================================================== *)

Lemma pages_fetched_app endpoint (a b : list Event) :
  pages_fetched endpoint (a ++ b) = pages_fetched endpoint a ++ pages_fetched endpoint b.
Proof.
  induction a as [| e a IH]; simpl; [reflexivity |].
  destruct e as [ep page err | q err |]; try assumption.
  destruct (String.eqb ep endpoint); simpl; now rewrite IH.
Qed.

Lemma pages_fetched_queries endpoint (evs : list Event) :
  Forall is_query evs -> pages_fetched endpoint evs = [].
Proof.
  induction 1 as [| e evs He _ IH]; simpl; [reflexivity |].
  destruct e; simpl in He; try contradiction. assumption.
Qed.

Lemma pages_fetched_one endpoint page err :
  pages_fetched endpoint [EvFetch endpoint page err] = [page].
Proof. unfold pages_fetched. now rewrite String.eqb_refl. Qed.

Lemma api_get_returns {A} endpoint (api : Z -> Fetch A) page w data w' :
  api_get endpoint api page w = (Ok data, w') ->
  api page = FetchOk data /\ w' = log (EvFetch endpoint page None) w.
Proof.
  unfold api_get. destruct (api page) as [msg | d]; [discriminate |].
  intros H. injection H as -> <-. auto.
Qed.

Lemma api_get_ending {A} endpoint (api : Z -> Fetch A) page w :
  (exists data w', api_get endpoint api page w = (Ok data, w')) \/
  (exists msg w', api_get endpoint api page w = (Throw msg, w')).
Proof. unfold api_get. destruct (api page); eauto. Qed.

Lemma page_range_succ first n :
  page_range first (S n) = first :: page_range (first + 1) n.
Proof. reflexivity. Qed.

Section PageLoop.

Context {A : Type}.
Variable endpoint : string.
Variable api : Z -> Fetch A.
Variable cap : Z.
Variable each : A -> M unit.
Hypothesis each_queries : forall x, runs (each x) queries_only.

Lemma for_of_each_queries xs : runs (for_of xs each) queries_only.
Proof.
  apply runs_for_of; [apply queries_only_skip | apply queries_only_seq |].
  intros x _. apply each_queries.
Qed.

(** A loop that returns stopped at the first page that says so. *)
Lemma page_loop_returns fuel :
  forall page total w t w',
    page_loop endpoint api cap each fuel page total w = (Ok t, w') ->
    page <= cap ->
    exists k evs,
      page <= k <= cap /\
      w_trace w' = w_trace w ++ evs /\
      pages_fetched endpoint evs = page_range page (Z.to_nat (k - page + 1)) /\
      page_stops api cap k /\
      forall j, page <= j < k -> page_continues api j.
Proof.
  induction fuel as [| fuel IH]; intros page total w t w' Hrun Hcap; simpl in Hrun.
  - discriminate.
  - destruct (Z.leb_spec page cap) as [_ | Hgt]; [| lia].
    rewrite bind_run in Hrun.
    destruct (api_get_ending endpoint api page w)
      as [[data [w1 Hget]] | [msg [w1 Hget]]]; rewrite Hget in Hrun;
      [| discriminate].
    apply api_get_returns in Hget. destruct Hget as [Hapi ->].
    assert (Hone : pages_fetched endpoint [EvFetch endpoint page None] = [page]).
    { simpl. now rewrite String.eqb_refl. }
    assert (Hr1 : page_range page (Z.to_nat (page - page + 1)) = [page]).
    { replace (page - page + 1) with 1 by lia. reflexivity. }
    destruct (results data) as [| x xs] eqn:Hres;
      cbn [Datatypes.length Nat.eqb] in Hrun.
    + injection Hrun as <- <-.
      exists page, [EvFetch endpoint page None].
      refine (conj _ (conj _ (conj _ (conj _ _)))); [lia | reflexivity | now rewrite Hone, Hr1 | |].
      * exists data. split; [assumption |]. left. assumption.
      * intros j Hj. lia.
    + rewrite bind_run in Hrun.
      pose proof (for_of_each_queries (x :: xs) (log (EvFetch endpoint page None) w))
        as Hfor.
      destruct (for_of (x :: xs) each (log (EvFetch endpoint page None) w))
        as [[[] | msg | c |] w2]; try discriminate.
      destruct Hfor as [_ [evs2 [Ht2 [Hq2 _]]]]. simpl in Ht2.
      unfold last_page in Hrun.
      destruct (pagination data) as [p |] eqn:Hpag.
      * destruct (Z.leb_spec (max_page p) page) as [Hlast | Hmore].
        -- injection Hrun as <- <-.
           exists page, ([EvFetch endpoint page None] ++ evs2).
           refine (conj _ (conj _ (conj _ (conj _ _)))); [lia | | | |].
           ++ rewrite Ht2. now rewrite <- app_assoc.
           ++ rewrite pages_fetched_app, (pages_fetched_queries _ _ Hq2), Hone, Hr1.
              reflexivity.
           ++ exists data. split; [assumption |]. right. right. left.
              exists p. auto.
           ++ intros j Hj. lia.
        -- assert (Hcont : page_continues api page).
           { exists data, p. rewrite Hres. repeat split; try assumption. discriminate. }
           destruct (Z.leb_spec (page + 1) cap) as [Hnext | Hend].
           ++ destruct (IH _ _ _ _ _ Hrun Hnext)
                as [k [evs [Hk [Ht [Hpages [Hstop Hbefore]]]]]].
              exists k, ([EvFetch endpoint page None] ++ evs2 ++ evs).
              refine (conj _ (conj _ (conj _ (conj _ _)))); [lia | | | |].
              ** rewrite Ht, Ht2. now rewrite <- !app_assoc.
              ** rewrite !pages_fetched_app, (pages_fetched_queries _ _ Hq2), Hone.
                 simpl. rewrite Hpages.
                 replace (Z.to_nat (k - page + 1))
                   with (S (Z.to_nat (k - (page + 1) + 1))) by lia.
                 reflexivity.
              ** assumption.
              ** intros j Hj. destruct (Z.eq_dec j page) as [-> | Hne];
                   [assumption | apply Hbefore; lia].
           ++ destruct fuel as [| fuel']; simpl in Hrun; [discriminate |].
              destruct (Z.leb_spec (page + 1) cap) as [Hle | _]; [lia |].
              injection Hrun as <- <-.
              exists page, ([EvFetch endpoint page None] ++ evs2).
              refine (conj _ (conj _ (conj _ (conj _ _)))); [lia | | | |].
              ** rewrite Ht2. now rewrite <- app_assoc.
              ** rewrite pages_fetched_app, (pages_fetched_queries _ _ Hq2), Hone, Hr1.
                 reflexivity.
              ** exists data. split; [assumption |]. right. right. right. lia.
              ** intros j Hj. lia.
      * injection Hrun as <- <-.
        exists page, ([EvFetch endpoint page None] ++ evs2).
        refine (conj _ (conj _ (conj _ (conj _ _)))); [lia | | | |].
        -- rewrite Ht2. now rewrite <- app_assoc.
        -- rewrite pages_fetched_app, (pages_fetched_queries _ _ Hq2), Hone, Hr1.
           reflexivity.
        -- exists data. split; [assumption |]. right. left. assumption.
        -- intros j Hj. lia.
Qed.

(** With more fuel than pages under the cap the loop ends by itself. *)
Lemma page_loop_fuel fuel :
  forall page total w,
    (Z.to_nat (cap + 1 - page) < fuel)%nat ->
    fst (page_loop endpoint api cap each fuel page total w) <> OutOfFuel.
Proof.
  induction fuel as [| fuel IH]; intros page total w Hfuel; [lia |]. simpl.
  destruct (Z.leb_spec page cap) as [Hle | Hgt]; [| discriminate].
  rewrite bind_run.
  destruct (api_get_ending endpoint api page w)
    as [[data [w1 Hget]] | [msg [w1 Hget]]]; rewrite Hget; [| discriminate].
  destruct (length (results data) =? 0)%nat; [discriminate |].
  rewrite bind_run.
  pose proof (for_of_each_queries (results data) w1) as Hfor.
  destruct (for_of (results data) each w1) as [[[] | msg | c |] w2];
    destruct Hfor as [_ [evs [_ [_ Hend]]]]; simpl in Hend;
    try contradiction; try discriminate.
  destruct (last_page data page); [discriminate |].
  apply IH. lia.
Qed.

End PageLoop.

Lemma succeeds_skip w : succeeds w EOk w.
Proof. reflexivity. Qed.

Lemma succeeds_seq w1 w2 w3 e : succeeds w1 EOk w2 -> succeeds w2 e w3 -> succeeds w1 e w3.
Proof. intros _ H. exact H. Qed.

Lemma pool_query_succeeds env {A} q (run : Z -> Db -> Db * A) :
  no_faults env -> runs (pool_query env q run) succeeds.
Proof.
  intros Hno w. unfold pool_query, succeeds. rewrite Hno.
  now destruct (run _ _).
Qed.

Lemma sync_bill_succeeds env bill : no_faults env -> runs (sync_bill env bill) succeeds.
Proof.
  intros Hno. unfold sync_bill.
  runs_steps succeeds_skip succeeds_seq ltac:(apply pool_query_succeeds; exact Hno).
Qed.

Lemma page_loop_no_pagination {A} endpoint (api : Z -> Fetch A) cap each xs :
  (forall x, runs (each x) queries_only) ->
  (forall x, runs (each x) succeeds) ->
  api 1 = FetchOk (mkResponse xs None) ->
  1 <= cap ->
  forall fuel total w,
  exists w' evs,
    page_loop endpoint api cap each (S fuel) 1 total w =
      (Ok (total + Z.of_nat (length xs)), w') /\
    w_trace w' = w_trace w ++ evs /\
    pages_fetched endpoint evs = [1].
Proof.
  intros Hq Hs Hapi Hcap fuel total w. simpl.
  destruct (Z.leb_spec 1 cap) as [_ | Hgt]; [| lia].
  rewrite bind_run. unfold api_get. rewrite Hapi.
  destruct xs as [| x xs]; cbn [results pagination Datatypes.length Nat.eqb].
  - exists (log (EvFetch endpoint 1 None) w), [EvFetch endpoint 1 None].
    unfold ret. rewrite Z.add_0_r. split; [reflexivity |].
    split; [reflexivity | apply pages_fetched_one].
  - rewrite bind_run.
    pose proof (for_of_each_queries each Hq (x :: xs) (log (EvFetch endpoint 1 None) w))
      as Hfor.
    assert (Hok : runs (for_of (x :: xs) each) succeeds).
    { apply runs_for_of; [apply succeeds_skip | apply succeeds_seq |].
      intros y _. apply Hs. }
    specialize (Hok (log (EvFetch endpoint 1 None) w)). unfold succeeds in Hok.
    destruct (for_of (x :: xs) each (log (EvFetch endpoint 1 None) w))
      as [[[] | msg | c |] w2]; try discriminate.
    destruct Hfor as [_ [evs2 [Ht2 [Hq2 _]]]]. simpl in Ht2.
    exists w2, ([EvFetch endpoint 1 None] ++ evs2). unfold last_page.
    cbn [results pagination].
    unfold ret. split; [reflexivity |]. split.
    + rewrite Ht2. now rewrite <- app_assoc.
    + rewrite pages_fetched_app, (pages_fetched_queries _ _ Hq2), pages_fetched_one.
      reflexivity.
Qed.

Lemma recorded_sync_returns env sync_type (loop : M Z) w t w' :
  recorded_sync env sync_type loop w = (Ok t, w') ->
  exists w1,
    loop w = (Ok t, w1) /\
    w_trace w' = w_trace w1 ++ [EvQuery (QMetaSuccess sync_type) None].
Proof.
  unfold recorded_sync, try_catch. rewrite bind_run.
  destruct (loop w) as [[total | msg | c |] w1].
  - rewrite bind_run.
    destruct (pool_query_ending env (QMetaSuccess sync_type)
                (Sql.update_success sync_type total) w1)
      as [[a [w2 Hq]] | [msg [w2 Hq]]]; rewrite Hq.
    + unfold ret. intros H. injection H as <- <-.
      apply pool_query_returns in Hq. destruct Hq as [_ [_ ->]].
      exists w1. auto.
    + rewrite bind_run.
      destruct (pool_query_ending env (QMetaError sync_type)
                  (Sql.update_error sync_type msg) w2)
        as [[a [w3 Hq']] | [again [w3 Hq']]]; rewrite Hq'; discriminate.
  - rewrite bind_run.
    destruct (pool_query_ending env (QMetaError sync_type)
                (Sql.update_error sync_type msg) w1)
      as [[a [w3 Hq']] | [again [w3 Hq']]]; rewrite Hq'; discriminate.
  - discriminate.
  - discriminate.
Qed.

Lemma recorded_sync_fuel env sync_type (loop : M Z) w :
  fst (loop w) <> OutOfFuel ->
  fst (recorded_sync env sync_type loop w) <> OutOfFuel.
Proof.
  unfold recorded_sync, try_catch. rewrite bind_run.
  destruct (loop w) as [[total | msg | c |] w1]; simpl; intros Hloop.
  - rewrite bind_run.
    destruct (pool_query_ending env (QMetaSuccess sync_type)
                (Sql.update_success sync_type total) w1)
      as [[a [w2 Hq]] | [msg [w2 Hq]]]; rewrite Hq.
    + discriminate.
    + rewrite bind_run.
      destruct (pool_query_ending env (QMetaError sync_type)
                  (Sql.update_error sync_type msg) w2)
        as [[a [w3 Hq']] | [again [w3 Hq']]]; rewrite Hq'; discriminate.
  - rewrite bind_run.
    destruct (pool_query_ending env (QMetaError sync_type)
                (Sql.update_error sync_type msg) w1)
      as [[a [w3 Hq']] | [again [w3 Hq']]]; rewrite Hq'; discriminate.
  - discriminate.
  - congruence.
Qed.

Lemma recorded_sync_no_pagination env sync_type (loop : M Z) endpoint w t :
  no_faults env ->
  (exists w1 evs,
      loop w = (Ok t, w1) /\ w_trace w1 = w_trace w ++ evs /\
      pages_fetched endpoint evs = [1]) ->
  exists w',
    recorded_sync env sync_type loop w = (Ok t, w') /\
    first_page_only endpoint w w'.
Proof.
  intros Hno [w1 [evs [Hloop [Ht Hp]]]].
  unfold recorded_sync, try_catch. rewrite bind_run, Hloop, bind_run.
  pose proof (pool_query_succeeds env (QMetaSuccess sync_type)
                (Sql.update_success sync_type t) Hno w1) as Hok.
  unfold succeeds in Hok.
  destruct (pool_query_ending env (QMetaSuccess sync_type)
              (Sql.update_success sync_type t) w1)
    as [[a [w2 Hq]] | [msg [w2 Hq]]]; rewrite Hq in *; [| discriminate].
  exists w2. split; [reflexivity |].
  apply pool_query_returns in Hq. destruct Hq as [_ [_ ->]].
  exists (evs ++ [EvQuery (QMetaSuccess sync_type) None]). simpl. split.
  - rewrite Ht. now rewrite <- app_assoc.
  - rewrite pages_fetched_app, Hp. reflexivity.
Qed.

(** Claim C9: both page loops end by themselves, and a sync that completes
    has requested exactly the pages 1 to k, where k is the first page that
    is empty, or carries no pagination or is the last one announced, or
    equals the page cap. In particular a first page without pagination
    metadata ends the sync after that page, without error. The cap is 10
    pages for legislators and 20, which is larger, for bills. *)
Theorem page_loops_stop_at_first :
  forall env fuel w,
    (enough_fuel <= fuel)%nat ->
    (fst (syncLegislators env fuel w) <> OutOfFuel /\
     fst (syncBills env fuel w) <> OutOfFuel) /\
    (forall total w',
        syncLegislators env fuel w = (Ok total, w') ->
        stops_at_first "/people" (people_api env) legislators_max_pages w w') /\
    (forall total w',
        syncBills env fuel w = (Ok total, w') ->
        stops_at_first "/bills" (bills_api env) bills_max_pages w w') /\
    (forall legislators,
        no_faults env ->
        people_api env 1 = FetchOk (mkResponse legislators None) ->
        exists w',
          syncLegislators env fuel w = (Ok (Z.of_nat (length legislators)), w') /\
          first_page_only "/people" w w') /\
    (forall bills,
        no_faults env ->
        bills_api env 1 = FetchOk (mkResponse bills None) ->
        exists w',
          syncBills env fuel w = (Ok (Z.of_nat (length bills)), w') /\
          first_page_only "/bills" w w') /\
    legislators_max_pages = 10 /\ bills_max_pages = 20 /\
    legislators_max_pages < bills_max_pages.
Proof.
  intros env fuel w Hfuel. unfold enough_fuel in Hfuel.
  split; [split |]; [| | split; [| split; [| split; [| split]]]].
  - rewrite syncLegislators_shape. apply recorded_sync_fuel.
    rewrite legislators_loop_shape.
    apply page_loop_fuel; [apply upsert_one_legislator_queries_only |].
    unfold legislators_max_pages. lia.
  - rewrite syncBills_shape. apply recorded_sync_fuel.
    rewrite bills_loop_shape.
    apply page_loop_fuel; [apply sync_bill_queries_only |].
    unfold bills_max_pages. lia.
  - intros total w' Hrun. rewrite syncLegislators_shape in Hrun.
    apply recorded_sync_returns in Hrun. destruct Hrun as [w1 [Hloop Ht]].
    rewrite legislators_loop_shape in Hloop.
    apply page_loop_returns in Hloop;
      [| apply upsert_one_legislator_queries_only | unfold legislators_max_pages; lia].
    destruct Hloop as [k [evs [Hk [Ht1 [Hp [Hstop Hcont]]]]]].
    exists k, (evs ++ [EvQuery (QMetaSuccess "legislators") None]).
    refine (conj Hk (conj _ (conj _ (conj Hstop Hcont)))).
    + rewrite Ht, Ht1. now rewrite <- app_assoc.
    + rewrite pages_fetched_app, Hp. simpl. rewrite app_nil_r.
      f_equal. lia.
  - intros total w' Hrun. rewrite syncBills_shape in Hrun.
    apply recorded_sync_returns in Hrun. destruct Hrun as [w1 [Hloop Ht]].
    rewrite bills_loop_shape in Hloop.
    apply page_loop_returns in Hloop;
      [| apply sync_bill_queries_only | unfold bills_max_pages; lia].
    destruct Hloop as [k [evs [Hk [Ht1 [Hp [Hstop Hcont]]]]]].
    exists k, (evs ++ [EvQuery (QMetaSuccess "bills") None]).
    refine (conj Hk (conj _ (conj _ (conj Hstop Hcont)))).
    + rewrite Ht, Ht1. now rewrite <- app_assoc.
    + rewrite pages_fetched_app, Hp. simpl. rewrite app_nil_r.
      f_equal. lia.
  - intros legislators Hno Hapi. rewrite syncLegislators_shape.
    apply recorded_sync_no_pagination; [assumption |].
    destruct fuel as [| fuel']; [lia |].
    destruct (page_loop_no_pagination "/people" (people_api env) legislators_max_pages
                (upsert_one_legislator env) legislators
                (upsert_one_legislator_queries_only env)
                (fun l => pool_query_succeeds env _ _ Hno)
                Hapi ltac:(unfold legislators_max_pages; lia) fuel' 0 w)
      as [w1 [evs [Hloop Hrest]]].
    exists w1, evs. rewrite legislators_loop_shape. split; [exact Hloop | exact Hrest].
  - intros bills Hno Hapi. rewrite syncBills_shape.
    apply recorded_sync_no_pagination; [assumption |].
    destruct fuel as [| fuel']; [lia |].
    destruct (page_loop_no_pagination "/bills" (bills_api env) bills_max_pages
                (sync_bill env) bills
                (sync_bill_queries_only env)
                (fun b => sync_bill_succeeds env b Hno)
                Hapi ltac:(unfold bills_max_pages; lia) fuel' 0 w)
      as [w1 [evs [Hloop Hrest]]].
    exists w1, evs. rewrite bills_loop_shape. split; [exact Hloop | exact Hrest].
  - repeat split.
Qed.

Lemma page_loops_stop_at_first_witness :
  stops_at_first "/people" (people_api env_quiet) legislators_max_pages
    (start (schema_db 0))
    (snd (syncLegislators env_quiet enough_fuel (start (schema_db 0)))) /\
  exists w',
    syncBills env_no_pagination enough_fuel (start (schema_db 0)) =
      (Ok (Z.of_nat (length [hb1001])), w') /\
    first_page_only "/bills" (start (schema_db 0)) w'.
Proof.
  split.
  - apply (proj1 (proj2 (page_loops_stop_at_first env_quiet enough_fuel
                           (start (schema_db 0)) (le_n enough_fuel))) 1).
    vm_compute. reflexivity.
  - apply (proj1 (proj2 (proj2 (proj2 (proj2
             (page_loops_stop_at_first env_no_pagination enough_fuel
                (start (schema_db 0)) (le_n enough_fuel)))))) [hb1001]).
    + intros n. reflexivity.
    + reflexivity.
Defined.

(* ===================================================================== *)
(** ** What the sync stores in [bills] *)
(* ===================================================================== *)

Lemma bills_after_upsert stage bill t db r :
  In r (bills (fst (Sql.upsert_bill stage bill t db))) ->
  br_stage r = Some stage \/ In r (bills db).
Proof.
  simpl. destruct (existsb _ (bills db)).
  - intros H. apply in_map_iff in H. destruct H as [r0 [Hr Hin]].
    destruct (String.eqb (br_openstates_id r0) (b_id bill)).
    + left. now subst r.
    + right. now subst r.
  - intros H. apply in_app_or in H. destruct H as [H | [<- | []]].
    + now right.
    + now left.
Qed.

Section KeptByTheSync.

Variable P : list BillRow -> Prop.
Hypothesis P_upsert :
  forall bill t db,
    P (bills db) ->
    P (bills (fst (Sql.upsert_bill (determineBillStage bill) bill t db))).

Lemma keeps_skip w : keeps P w EOk w.
Proof. unfold keeps. auto. Qed.

Lemma keeps_seq w1 w2 w3 e : keeps P w1 EOk w2 -> keeps P w2 e w3 -> keeps P w1 e w3.
Proof. unfold keeps. auto. Qed.

Lemma pool_query_keeps env {A} q (run : Z -> Db -> Db * A) :
  (forall t db, P (bills db) -> P (bills (fst (run t db)))) ->
  runs (pool_query env q run) (keeps P).
Proof.
  intros H w. unfold pool_query, keeps.
  destruct (db_fault env (w_queries w)); [auto |].
  specialize (H (now env (w_queries w)) (w_db w)).
  destruct (run (now env (w_queries w)) (w_db w)) as [db' a]. exact H.
Qed.

Lemma sync_bill_keeps env bill : runs (sync_bill env bill) (keeps P).
Proof.
  unfold sync_bill.
  runs_steps keeps_skip keeps_seq
    ltac:(apply pool_query_keeps;
          first [ apply P_upsert | intros t db Hdb; exact Hdb ]).
Qed.

Lemma page_loop_keeps {A} endpoint (api : Z -> Fetch A) cap each :
  (forall x, runs (each x) (keeps P)) ->
  forall fuel page total,
    runs (page_loop endpoint api cap each fuel page total) (keeps P).
Proof.
  intros Heach. apply runs_page_loop.
  - apply keeps_skip.
  - apply keeps_seq.
  - intros w. apply keeps_skip.
  - intros page w. unfold keeps. now rewrite api_get_same_db.
  - exact Heach.
Qed.

Lemma recorded_sync_keeps env sync_type loop :
  runs loop (keeps P) -> runs (recorded_sync env sync_type loop) (keeps P).
Proof.
  intros Hloop w. unfold recorded_sync, try_catch.
  assert (Hbody : runs (totalSynced <- loop ;;
                        pool_query env (QMetaSuccess sync_type)
                          (Sql.update_success sync_type totalSynced) ;;
                        ret totalSynced) (keeps P)).
  { runs_steps keeps_skip keeps_seq
      ltac:(first [ exact Hloop
                  | apply pool_query_keeps; intros t db Hdb; exact Hdb ]). }
  specialize (Hbody w).
  destruct ((totalSynced <- loop ;;
             pool_query env (QMetaSuccess sync_type)
               (Sql.update_success sync_type totalSynced) ;;
             ret totalSynced) w) as [[total | cause | c |] w1];
    simpl in Hbody |- *; try exact Hbody.
  assert (Hh : runs (pool_query env (QMetaError sync_type)
                       (Sql.update_error sync_type cause) ;; @throw Z cause)
                    (keeps P)).
  { runs_steps keeps_skip keeps_seq
      ltac:(first [ apply pool_query_keeps; intros t db Hdb; exact Hdb
                  | intros w0; apply keeps_skip ]). }
  specialize (Hh w1). unfold keeps in *. auto.
Qed.

Lemma syncLegislators_keeps env fuel : runs (syncLegislators env fuel) (keeps P).
Proof.
  rewrite syncLegislators_shape. apply recorded_sync_keeps.
  intros w. rewrite legislators_loop_shape. apply page_loop_keeps.
  intros l. apply pool_query_keeps. intros t db Hdb. exact Hdb.
Qed.

Lemma syncBills_keeps env fuel : runs (syncBills env fuel) (keeps P).
Proof.
  rewrite syncBills_shape. apply recorded_sync_keeps.
  intros w. rewrite bills_loop_shape. apply page_loop_keeps.
  apply sync_bill_keeps.
Qed.

Lemma runSync_keeps env fuel : runs (runSync env fuel) (keeps P).
Proof.
  intros w. unfold runSync, try_finally, try_catch.
  assert (Hbody : runs (pool_query env QSelectNow Sql.select_now ;;
                        syncLegislators env fuel ;;
                        syncBills env fuel ;;
                        ret tt) (keeps P)).
  { runs_steps keeps_skip keeps_seq
      ltac:(first [ apply syncLegislators_keeps
                  | apply syncBills_keeps
                  | apply pool_query_keeps; intros t db Hdb; exact Hdb ]). }
  specialize (Hbody w).
  destruct ((pool_query env QSelectNow Sql.select_now ;;
             syncLegislators env fuel ;;
             syncBills env fuel ;;
             ret tt) w) as [[a | msg | c |] w1]; simpl in Hbody |- *;
    exact Hbody.
Qed.

End KeptByTheSync.

Lemma no_dead_stage_upsert bill t db :
  no_dead_stage (bills db) ->
  no_dead_stage (bills (fst (Sql.upsert_bill (determineBillStage bill) bill t db))).
Proof.
  intros H r Hr. apply bills_after_upsert in Hr. destruct Hr as [Hr | Hr].
  - rewrite Hr. intros Heq. injection Heq as Heq.
    exact (stages_not_dead _ (determineBillStage_stages bill) Heq).
  - now apply H.
Qed.

Lemma stages_typed_upsert bill t db :
  stages_typed (bills db) ->
  stages_typed (bills (fst (Sql.upsert_bill (determineBillStage bill) bill t db))).
Proof.
  intros H r s Hr Hs. apply bills_after_upsert in Hr. destruct Hr as [Hr | Hr].
  - rewrite Hr in Hs. injection Hs as <-. unfold stage_enum.
    apply in_or_app. left. apply determineBillStage_stages.
  - now apply (H r).
Qed.

(** Stages stay values of the Stage enumeration through a whole run. *)
Lemma runSync_stages_typed env fuel w :
  stages_typed (bills (w_db w)) ->
  stages_typed (bills (w_db (snd (runSync env fuel w)))).
Proof. apply (runSync_keeps stages_typed stages_typed_upsert env fuel w). Qed.

(** Claim C10: both copies of the classifier return one of introduced,
    committee, committee_approved, floor_calendar, passed_chamber,
    enrolled, signed, vetoed, became_law and never [dead]; and a run of the
    sync, whatever the API answers and whichever queries fail, puts stage
    [dead] on no bill. *)
Theorem classifier_never_dead :
  (forall bill,
      In (determineBillStage bill) stages /\ determineBillStage bill <> "dead") /\
  (forall bill,
      In (Server.determineBillStage bill) stages /\
      Server.determineBillStage bill <> "dead") /\
  (forall env fuel w,
      no_dead_stage (bills (w_db w)) ->
      no_dead_stage (bills (w_db (snd (runSync env fuel w))))).
Proof.
  split; [| split].
  - intros bill. split; [apply determineBillStage_stages |].
    apply stages_not_dead, determineBillStage_stages.
  - intros bill. split; [apply server_determineBillStage_stages |].
    apply stages_not_dead, server_determineBillStage_stages.
  - intros env fuel w.
    apply (runSync_keeps no_dead_stage no_dead_stage_upsert env fuel w).
Qed.

Lemma classifier_never_dead_witness :
  no_dead_stage
    (bills (w_db (snd (runSync env_quiet enough_fuel (start (schema_db 0)))))).
Proof.
  apply (proj2 (proj2 classifier_never_dead) env_quiet enough_fuel (start (schema_db 0))).
  intros r [].
Defined.

(* ===================================================================== *)
(** ** History rows *)
(* ===================================================================== *)

Lemma bind_returns {A B} (m : M A) (k : A -> M B) w b w' :
  bind m k w = (Ok b, w') ->
  exists a w1, m w = (Ok a, w1) /\ k a w1 = (Ok b, w').
Proof.
  rewrite bind_run. destruct (m w) as [[a | msg | c |] w1]; try discriminate.
  intros H. exists a, w1. auto.
Qed.

Lemma runs_elim {A} (m : M A) Q w r w' :
  runs m Q -> m w = (r, w') -> Q w (ending r) w'.
Proof. intros H Hm. specialize (H w). now rewrite Hm in H. Qed.

Lemma bills_kept_skip w : bills_kept w EOk w.
Proof. split; reflexivity. Qed.

Lemma bills_kept_seq w1 w2 w3 e :
  bills_kept w1 EOk w2 -> bills_kept w2 e w3 -> bills_kept w1 e w3.
Proof. intros [H1 H2] [H3 H4]. split; congruence. Qed.

Lemma pool_query_bills_kept env {A} q (run : Z -> Db -> Db * A) :
  (forall t db, bills (fst (run t db)) = bills db /\
                bill_history (fst (run t db)) = bill_history db) ->
  runs (pool_query env q run) bills_kept.
Proof.
  intros H w. unfold pool_query, bills_kept.
  destruct (db_fault env (w_queries w)); [auto |].
  specialize (H (now env (w_queries w)) (w_db w)).
  destruct (run (now env (w_queries w)) (w_db w)) as [db' a]. exact H.
Qed.





(** The row the upsert leaves for the bill carries the id it returns. *)
Lemma upsert_bill_row stage bill t db :
  exists r,
    In r (bills (fst (Sql.upsert_bill stage bill t db))) /\
    br_openstates_id r = b_id bill /\
    br_id r = fst (snd (Sql.upsert_bill stage bill t db)).
Proof.
  simpl.
  destruct (find (fun r => String.eqb (br_openstates_id r) (b_id bill)) (bills db))
    as [r0 |] eqn:Hf.
  - pose proof (find_some _ _ Hf) as [Hin He].
    assert (Hex : existsb (fun r => String.eqb (br_openstates_id r) (b_id bill))
                          (bills db) = true).
    { apply existsb_exists. exists r0. auto. }
    rewrite Hex.
    eexists. split.
    + apply in_map_iff. exists r0. split; [reflexivity | exact Hin].
    + rewrite He. simpl. apply String.eqb_eq in He. auto.
  - assert (Hex : existsb (fun r => String.eqb (br_openstates_id r) (b_id bill))
                          (bills db) = false).
    { apply existsb_absent. intros x Hx. apply (find_none _ _ Hf x Hx). }
    rewrite Hex. eexists. split.
    + apply in_or_app. right. left. reflexivity.
    + simpl. auto.
Qed.



(* ===================================================================== *)
(** ** Action rows *)
(* ===================================================================== *)

(** The conflict clause of the action insert never applies: the only
    unique key is the id, and the id is fresh. *)
Lemma insert_action_appends bill_id a i t db :
  action_ids_fresh db ->
  exists row,
    bill_actions (fst (Sql.insert_action bill_id a i t db)) = bill_actions db ++ [row] /\
    action_key row = (bill_id, a_date a, a_description a, i) /\
    action_ids_fresh (fst (Sql.insert_action bill_id a i t db)).
Proof.
  intros Hfresh. simpl.
  rewrite existsb_absent.
  - eexists. split; [reflexivity |]. split; [reflexivity |].
    intros r Hr. simpl in Hr |- *. apply in_app_or in Hr.
    destruct Hr as [Hr | [<- | []]].
    + apply Hfresh in Hr. lia.
    + simpl. lia.
  - intros r Hr. apply Hfresh in Hr. apply Z.eqb_neq. lia.
Qed.

(** Claim C2 fails on the code: [ON CONFLICT DO NOTHING] has no unique key
    on [bill_actions] other than the serial id to conflict with, so a second
    pass over the same source inserts every action again. After the first
    run the one action of the bill is stored once, after the second run
    twice, with the same bill, date, description and position. *)
Theorem actions_duplicated_on_resync :
  map action_key (bill_actions db_after_first_run) =
    [ (1, "2026-02-03", "action", 0) ] /\
  map action_key
      (bill_actions
         (w_db (snd (runSync env_quiet enough_fuel (start db_after_first_run))))) =
    [ (1, "2026-02-03", "action", 0); (1, "2026-02-03", "action", 0) ].
Proof. split; vm_compute; reflexivity. Qed.


(* ===================================================================== *)
(** ** Upserts keyed by a unique column *)
(* ===================================================================== *)

Section KeyedUpdate.

Context {A : Type}.
Variable key : A -> string.
Variable k : string.
Variable f : A -> A.
Hypothesis f_key : forall r, key (f r) = key r.

Let upd := fun r => if String.eqb (key r) k then f r else r.

Lemma keyed_update_one before r after :
  NoDup (map key (before ++ r :: after)) ->
  key r = k ->
  map upd (before ++ r :: after) = before ++ f r :: after.
Proof.
  intros Hu Hk. rewrite map_app in Hu. simpl in Hu. apply NoDup_remove_2 in Hu.
  rewrite map_app. simpl. unfold upd at 2. rewrite Hk, String.eqb_refl.
  f_equal; [| f_equal]; apply map_unchanged; intros x Hx; unfold upd;
    destruct (String.eqb_spec (key x) k) as [He | He]; try reflexivity;
    exfalso; apply Hu; rewrite Hk, <- He; apply in_or_app; [left | right];
    now apply in_map.
Qed.

Lemma keyed_update_keys l : map key (map upd l) = map key l.
Proof.
  rewrite map_map. apply map_ext. intros r. unfold upd.
  destruct (String.eqb (key r) k); [apply f_key | reflexivity].
Qed.

Lemma keyed_find_updated l :
  find (fun r => String.eqb (key r) k) (map upd l) =
  option_map f (find (fun r => String.eqb (key r) k) l).
Proof.
  induction l as [| r l IH]; simpl; [reflexivity |].
  assert (Hupd : upd r = if String.eqb (key r) k then f r else r) by reflexivity.
  rewrite Hupd. destruct (String.eqb (key r) k) eqn:He.
  - rewrite f_key, He. reflexivity.
  - rewrite He. exact IH.
Qed.

End KeyedUpdate.

Lemma keyed_append_nodup {A} (key : A -> string) (l : list A) (x : A) :
  NoDup (map key l) ->
  existsb (fun r => String.eqb (key r) (key x)) l = false ->
  NoDup (map key (l ++ [x])).
Proof.
  intros Hu Hex. rewrite map_app. simpl.
  assert (Hn : ~ In (key x) (map key l)).
  { intros Hin. apply in_map_iff in Hin. destruct Hin as [r [Hr Hin]].
    assert (Ht : existsb (fun r => String.eqb (key r) (key x)) l = true).
    { apply existsb_exists. exists r. split; [assumption |]. now apply String.eqb_eq. }
    congruence. }
  clear Hex. revert Hu Hn.
  induction (map key l) as [| y ys IH]; simpl; intros Hu Hn.
  - constructor; [tauto | constructor].
  - inversion Hu; subst. constructor.
    + rewrite in_app_iff. simpl. intros [H | [H | []]]; [tauto |]. apply Hn. now left.
    + apply IH; [assumption | tauto].
Qed.

Lemma find_existsb {A} (p : A -> bool) (l : list A) :
  existsb p l = match find p l with Some _ => true | None => false end.
Proof.
  induction l as [| x l IH]; simpl; [reflexivity |].
  destruct (p x); [reflexivity | exact IH].
Qed.

Lemma find_app_absent {A} (p : A -> bool) (l : list A) (x : A) :
  find p l = None -> find p (l ++ [x]) = if p x then Some x else None.
Proof.
  induction l as [| y l IH]; simpl; [reflexivity |].
  destruct (p y); [discriminate | exact IH].
Qed.

Lemma bills_after_upsert_table stage bill t db :
  bills (fst (Sql.upsert_bill stage bill t db)) =
  if existsb (fun r => String.eqb (br_openstates_id r) (b_id bill)) (bills db)
  then map (fun r => if String.eqb (br_openstates_id r) (b_id bill)
                     then bill_updated stage bill t r else r) (bills db)
  else bills db ++
       [ mkBillRow (bills_seq db) (b_id bill)
           (JS.interpolate (JS.or (b_session bill) (Some "2026")))
           (b_identifier bill) (b_title bill)
           (JS.interpolate (JS.or (b_description bill) (Some (b_title bill))))
           (b_classification bill)
           (match b_subject bill with Some l => l | None => [] end)
           (b_latest_action_description bill) (b_from_organization bill)
           (Some stage) t t (b_first_action_date bill)
           (b_latest_action_date bill) (b_latest_action_description bill)
           (match b_versions bill with
            | Some (u :: _) => JS.or u None
            | _ => None
            end)
           ("https://openstates.org/ok/bills/" ++ JS.interpolate (b_session bill)
              ++ "/" ++ b_identifier bill)%string ].
Proof. reflexivity. Qed.

(** Property X1. The bill upsert is keyed by [openstates_id]. A stored identifier leaves
    the table the same except that the one row with that identifier takes
    the new title, status, stage, latest action date and description and
    update time, and keeps every other column; the statement returns that
    row's id and the stage it had before. An identifier not yet stored
    appends one row with the next id, and the previous stage returned is
    null. The identifier stays unique. *)
Theorem bill_upsert_keyed :
  forall (stage : string) (bill : Bill) (now : Z) (db : Db),
    unique_bills db ->
    let db' := fst (Sql.upsert_bill stage bill now db) in
    let returned := snd (Sql.upsert_bill stage bill now db) in
    (forall before r after,
        bills db = before ++ r :: after ->
        br_openstates_id r = b_id bill ->
        bills db' = before ++ bill_updated stage bill now r :: after /\
        bill_fixed_columns (bill_updated stage bill now r) = bill_fixed_columns r /\
        returned = (br_id r, br_stage r)) /\
    ((forall r, In r (bills db) -> br_openstates_id r <> b_id bill) ->
     exists row,
       bills db' = bills db ++ [row] /\
       br_id row = bills_seq db /\ br_openstates_id row = b_id bill /\
       br_stage row = Some stage /\ br_title row = b_title bill /\
       returned = (bills_seq db, None)) /\
    unique_bills db'.
Proof.
  intros stage bill now db Hu db' returned. subst db' returned.
  unfold unique_bills in *. rewrite bills_after_upsert_table.
  split; [| split].
  - intros before r after Hdb Hid.
    assert (Hfind : find (fun r => String.eqb (br_openstates_id r) (b_id bill))
                         (bills db) = Some r).
    { rewrite Hdb in Hu |- *. clear Hdb. rewrite map_app in Hu. simpl in Hu.
      apply NoDup_remove_2 in Hu.
      induction before as [| x before IH]; simpl.
      - now rewrite Hid, String.eqb_refl.
      - destruct (String.eqb_spec (br_openstates_id x) (b_id bill)) as [He | He].
        + exfalso. apply Hu. simpl. left. congruence.
        + apply IH. intros Hin. apply Hu. simpl. now right. }
    rewrite find_existsb, Hfind. split; [| split].
    + rewrite Hdb in Hu |- *.
      apply (keyed_update_one br_openstates_id (b_id bill)
               (bill_updated stage bill now)); assumption.
    + reflexivity.
    + unfold Sql.upsert_bill, Sql.select_stage. simpl. now rewrite Hfind.
  - intros Habs.
    assert (Hfind : find (fun r => String.eqb (br_openstates_id r) (b_id bill))
                         (bills db) = None).
    { destruct (find _ (bills db)) as [r |] eqn:Hf; [| reflexivity].
      apply find_some in Hf. destruct Hf as [Hin He].
      apply String.eqb_eq in He. now apply Habs in Hin. }
    rewrite find_existsb, Hfind. eexists. split; [reflexivity |].
    repeat split.
    unfold Sql.upsert_bill, Sql.select_stage. simpl. now rewrite Hfind.
  - destruct (existsb _ (bills db)) eqn:Hex.
    + rewrite (keyed_update_keys br_openstates_id (b_id bill)
                 (bill_updated stage bill now)); [exact Hu | reflexivity].
    + apply keyed_append_nodup; [exact Hu | exact Hex].
Qed.

Lemma schema_unique_bills : unique_bills (schema_db 0).
Proof. constructor. Qed.

Lemma bill_upsert_keyed_witness :
  unique_bills (fst (Sql.upsert_bill "introduced" hb1001 1000 (schema_db 0))).
Proof.
  apply (proj2 (proj2 (bill_upsert_keyed "introduced" hb1001 1000 (schema_db 0)
                         schema_unique_bills))).
Defined.


(* ===================================================================== *)
(** ** One bill pass: stage, history, actions, sponsorships *)
(* ===================================================================== *)

Lemma select_stage_after_upsert stage bill t db :
  Sql.select_stage (b_id bill) (fst (Sql.upsert_bill stage bill t db)) = Some stage.
Proof.
  unfold Sql.select_stage. rewrite bills_after_upsert_table, find_existsb.
  destruct (find (fun r => String.eqb (br_openstates_id r) (b_id bill)) (bills db))
    as [r0 |] eqn:Hf.
  - rewrite (keyed_find_updated br_openstates_id (b_id bill)
               (bill_updated stage bill t)) by reflexivity.
    rewrite Hf. reflexivity.
  - rewrite (find_app_absent _ _ _ Hf). simpl. now rewrite String.eqb_refl.
Qed.

Lemma bill_row_id_after_upsert stage bill t db :
  bill_row_id bill (fst (Sql.upsert_bill stage bill t db)) =
  Some (fst (snd (Sql.upsert_bill stage bill t db))).
Proof.
  unfold bill_row_id. rewrite bills_after_upsert_table, find_existsb.
  unfold Sql.upsert_bill. cbn [snd fst].
  destruct (find (fun r => String.eqb (br_openstates_id r) (b_id bill)) (bills db))
    as [r0 |] eqn:Hf.
  - rewrite (keyed_find_updated br_openstates_id (b_id bill)
               (bill_updated stage bill t)) by reflexivity.
    rewrite Hf. reflexivity.
  - rewrite (find_app_absent _ _ _ Hf). simpl. now rewrite String.eqb_refl.
Qed.

Lemma bill_rows_kept_skip w : bill_rows_kept w EOk w.
Proof. reflexivity. Qed.

Lemma bill_rows_kept_seq w1 w2 w3 e :
  bill_rows_kept w1 EOk w2 -> bill_rows_kept w2 e w3 -> bill_rows_kept w1 e w3.
Proof. unfold bill_rows_kept. congruence. Qed.

Lemma pool_query_bill_rows_kept env {A} q (run : Z -> Db -> Db * A) :
  (forall t db, bills (fst (run t db)) = bills db) ->
  runs (pool_query env q run) bill_rows_kept.
Proof.
  intros H w. unfold pool_query, bill_rows_kept.
  destruct (db_fault env (w_queries w)); [reflexivity |].
  specialize (H (now env (w_queries w)) (w_db w)).
  destruct (run (now env (w_queries w)) (w_db w)) as [db' a]. exact H.
Qed.

(** What is left of a bill pass once the upsert has returned. *)
Lemma sync_bill_after_upsert env bill w :
  db_fault env (w_queries w) = None ->
  exists w1 rest,
    w_db w1 = fst (Sql.upsert_bill (determineBillStage bill) bill
                     (now env (w_queries w)) (w_db w)) /\
    w_queries w1 = S (w_queries w) /\
    sync_bill env bill w = rest w1 /\
    runs rest bill_rows_kept.
Proof.
  intros Hno. unfold sync_bill. rewrite bind_run.
  unfold pool_query at 1. rewrite Hno.
  destruct (Sql.upsert_bill (determineBillStage bill) bill (now env (w_queries w)) (w_db w))
    as [db1 [billId oldStage]] eqn:Hup.
  eexists (mkWorld db1 (S (w_queries w)) _ _), _. cbn [w_db w_queries fst snd].
  split; [reflexivity |]. split; [reflexivity |]. split; [reflexivity |].
  runs_steps bill_rows_kept_skip bill_rows_kept_seq
    ltac:(apply pool_query_bill_rows_kept; reflexivity).
Qed.

Lemma sync_bill_stores_stage env bill w :
  db_fault env (w_queries w) = None ->
  Sql.select_stage (b_id bill) (w_db (snd (sync_bill env bill w))) =
  Some (determineBillStage bill).
Proof.
  intros Hno.
  destruct (sync_bill_after_upsert env bill w Hno) as [w1 [rest [Hdb [_ [Hrun Hkept]]]]].
  rewrite Hrun. specialize (Hkept w1). unfold bill_rows_kept in Hkept.
  unfold Sql.select_stage in *. rewrite Hkept, Hdb.
  apply select_stage_after_upsert.
Qed.

(** Property X2. Once the upsert of a bill pass is accepted the stored stage of the
    bill is the stage just computed, whether or not the statements after it
    succeed. *)
Theorem stored_stage_is_computed :
  forall env bill w,
    db_fault env (w_queries w) = None ->
    Sql.select_stage (b_id bill) (w_db (snd (sync_bill env bill w))) =
    Some (determineBillStage bill).
Proof.
  intros env bill w Hno. now apply sync_bill_stores_stage.
Qed.

Lemma stored_stage_is_computed_witness :
  Sql.select_stage (b_id hb1001_referred)
    (w_db (snd (sync_bill env_referred hb1001_referred (start db_after_first_run)))) =
  Some (determineBillStage hb1001_referred).
Proof.
  apply (stored_stage_is_computed env_referred hb1001_referred (start db_after_first_run)).
  reflexivity.
Defined.

Lemma stage_unchanged stage : stage_changed (Some stage) stage = false.
Proof.
  unfold stage_changed. simpl JS.interpolate. rewrite String.eqb_refl.
  apply andb_false_r.
Qed.

(** A pass over a bill whose stored stage already is the computed one
    writes no history row, whatever else happens in the pass. *)
Lemma no_history_when_stage_stored env bill w :
  Sql.select_stage (b_id bill) (w_db w) = Some (determineBillStage bill) ->
  bill_history (w_db (snd (sync_bill env bill w))) = bill_history (w_db w).
Proof.
  intros Hsame. unfold sync_bill. rewrite bind_run.
  destruct (pool_query_ending env (QUpsertBill (b_id bill))
              (Sql.upsert_bill (determineBillStage bill) bill) w)
    as [[[billId oldStage] [w1 Hq]] | [msg [w1 Hq]]]; rewrite Hq.
  - apply pool_query_returns in Hq. destruct Hq as [_ [Hres Hw1]].
    assert (Hold : oldStage = Some (determineBillStage bill)).
    { rewrite <- Hsame. now injection Hres. }
    cbn [fst snd]. rewrite Hold, stage_unchanged.
    match goal with
    | |- bill_history (w_db (snd (?m w1))) = _ =>
        assert (Hkept : runs m bills_kept)
    end.
    { runs_steps bills_kept_skip bills_kept_seq
        ltac:(apply pool_query_bills_kept; intros; split; reflexivity). }
    destruct (Hkept w1) as [_ Hh]. rewrite Hh, Hw1. reflexivity.
  - apply pool_query_throws in Hq. destruct Hq as [_ ->]. reflexivity.
Qed.

(** Property X3. Running the bill pass again on the same source record adds no history
    row: the first pass (its upsert accepted) stores the computed stage, and
    the second finds it unchanged. *)
Theorem resync_adds_no_history :
  forall env1 env2 bill w w1,
    db_fault env1 (w_queries w) = None ->
    w_db w1 = w_db (snd (sync_bill env1 bill w)) ->
    bill_history (w_db (snd (sync_bill env2 bill w1))) = bill_history (w_db w1).
Proof.
  intros env1 env2 bill w w1 Hno Hdb.
  apply no_history_when_stage_stored. rewrite Hdb.
  now apply sync_bill_stores_stage.
Qed.

Lemma resync_adds_no_history_witness :
  bill_history
    (w_db (snd (sync_bill env_referred hb1001_referred
                  (snd (sync_bill env_referred hb1001_referred
                          (start db_after_first_run)))))) =
  bill_history
    (w_db (snd (sync_bill env_referred hb1001_referred (start db_after_first_run)))).
Proof.
  apply (resync_adds_no_history env_referred env_referred hb1001_referred
           (start db_after_first_run)).
  - reflexivity.
  - reflexivity.
Defined.

(** Property X4. The writes of a bill pass are separate statements: when the upsert is
    accepted and the history insert that follows is rejected, the pass
    throws with the new stage stored and no history row written, and no
    later pass over the same record writes that row either. *)
Theorem transition_lost_when_history_rejected :
  forall env bill w prev msg,
    Sql.select_stage (b_id bill) (w_db w) = Some prev ->
    stage_changed (Some prev) (determineBillStage bill) = true ->
    db_fault env (w_queries w) = None ->
    db_fault env (S (w_queries w)) = Some msg ->
    fst (sync_bill env bill w) = Throw msg /\
    Sql.select_stage (b_id bill) (w_db (snd (sync_bill env bill w))) =
      Some (determineBillStage bill) /\
    bill_history (w_db (snd (sync_bill env bill w))) = bill_history (w_db w) /\
    forall env2,
      bill_history (w_db (snd (sync_bill env2 bill (snd (sync_bill env bill w))))) =
      bill_history (w_db w).
Proof.
  intros env bill w prev msg Hprev Hch Hno Hfault.
  assert (Hrun : exists w', sync_bill env bill w = (Throw msg, w') /\
                            bill_history (w_db w') = bill_history (w_db w)).
  { unfold sync_bill. rewrite bind_run. unfold pool_query at 1. rewrite Hno.
    destruct (Sql.upsert_bill (determineBillStage bill) bill (now env (w_queries w))
                (w_db w)) as [db1 [billId oldStage]] eqn:Hup.
    assert (Hold : oldStage = Some prev).
    { rewrite <- Hprev. unfold Sql.upsert_bill in Hup. now injection Hup. }
    assert (Hh : bill_history db1 = bill_history (w_db w)).
    { unfold Sql.upsert_bill in Hup. injection Hup as <- _ _. reflexivity. }
    cbn [fst snd]. rewrite Hold, Hch, bind_run.
    unfold pool_query at 1. cbn [w_queries]. rewrite Hfault.
    eexists. split; [reflexivity | exact Hh]. }
  destruct Hrun as [w' [Hrun Hhist']].
  assert (Hthrow : fst (sync_bill env bill w) = Throw msg) by (now rewrite Hrun).
  assert (Hhist : bill_history (w_db (snd (sync_bill env bill w))) =
                  bill_history (w_db w)) by (now rewrite Hrun).
  clear w' Hrun Hhist'.
  split; [exact Hthrow |]. split; [now apply sync_bill_stores_stage |].
  split; [exact Hhist |]. intros env2.
  rewrite no_history_when_stage_stored; [exact Hhist |].
  now apply sync_bill_stores_stage.
Qed.

Lemma transition_lost_when_history_rejected_witness :
  fst (sync_bill (mkEnv (one_page [smith]) (one_page [hb1001_referred])
                        history_insert_rejected clock table_order)
                 hb1001_referred (start db_after_first_run)) =
  Throw "deadlock detected".
Proof.
  apply (transition_lost_when_history_rejected
           (mkEnv (one_page [smith]) (one_page [hb1001_referred])
                  history_insert_rejected clock table_order)
           hb1001_referred (start db_after_first_run) "introduced" "deadlock detected").
  - vm_compute. reflexivity.
  - vm_compute. reflexivity.
  - reflexivity.
  - reflexivity.
Defined.

(* --------------------------------------------------------------------- *)
(** *** Action rows of a pass *)

Lemma actions_kept_skip w : actions_kept w EOk w.
Proof. split; reflexivity. Qed.

Lemma actions_kept_seq w1 w2 w3 e :
  actions_kept w1 EOk w2 -> actions_kept w2 e w3 -> actions_kept w1 e w3.
Proof. intros [H1 H2] [H3 H4]. split; congruence. Qed.

Lemma pool_query_actions_kept env {A} q (run : Z -> Db -> Db * A) :
  (forall t db, bill_actions (fst (run t db)) = bill_actions db /\
                bill_actions_seq (fst (run t db)) = bill_actions_seq db) ->
  runs (pool_query env q run) actions_kept.
Proof.
  intros H w. unfold pool_query, actions_kept.
  destruct (db_fault env (w_queries w)); [auto |].
  specialize (H (now env (w_queries w)) (w_db w)).
  destruct (run (now env (w_queries w)) (w_db w)) as [db' a]. exact H.
Qed.

Lemma insert_action_row bill_id a i t db :
  action_ids_fresh db ->
  bill_actions (fst (Sql.insert_action bill_id a i t db)) =
    bill_actions db ++
    [ mkActionRow (bill_actions_seq db) bill_id (a_date a) (a_description a)
        (JS.or (JS.first (a_classification a)) None) (a_organization a) i t ] /\
  action_ids_fresh (fst (Sql.insert_action bill_id a i t db)).
Proof.
  intros Hfresh. simpl. rewrite existsb_absent.
  - split; [reflexivity |]. intros r Hr. simpl in Hr |- *.
    apply in_app_or in Hr. destruct Hr as [Hr | [<- | []]].
    + apply Hfresh in Hr. lia.
    + simpl. lia.
  - intros r Hr. apply Hfresh in Hr. apply Z.eqb_neq. lia.
Qed.

Lemma insert_actions_in_order env bill_id :
  forall actions i w w',
    for_index i actions
      (fun i action =>
         pool_query env (QInsertAction bill_id i) (Sql.insert_action bill_id action i))
      w = (Ok tt, w') ->
    action_ids_fresh (w_db w) ->
    exists rows,
      bill_actions (w_db w') = bill_actions (w_db w) ++ rows /\
      map action_key rows = action_keys bill_id i actions /\
      map ar_classification rows =
        map (fun a => JS.or (JS.first (a_classification a)) None) actions /\
      action_ids_fresh (w_db w').
Proof.
  induction actions as [| a actions IH]; intros i w w' Hrun Hfresh; simpl in Hrun.
  - injection Hrun as <-. exists []. rewrite app_nil_r. auto.
  - apply bind_returns in Hrun. destruct Hrun as [[] [w1 [Hq Hrun]]].
    apply pool_query_returns in Hq. destruct Hq as [_ [_ Hw1]].
    destruct (insert_action_row bill_id a i (now env (w_queries w)) (w_db w) Hfresh)
      as [Hrow Hfresh1].
    assert (Hdb1 : w_db w1 = fst (Sql.insert_action bill_id a i (now env (w_queries w))
                                    (w_db w))) by (rewrite Hw1; reflexivity).
    rewrite <- Hdb1 in Hrow, Hfresh1.
    destruct (IH _ _ _ Hrun Hfresh1) as [rows [Happ [Hkeys [Hcls Hfresh']]]].
    eexists (_ :: rows). split; [| split; [| split]].
    + rewrite Happ, Hrow, <- app_assoc. reflexivity.
    + simpl. rewrite Hkeys. reflexivity.
    + simpl. rewrite Hcls. reflexivity.
    + exact Hfresh'.
Qed.

(** Property X5. A bill pass that completes appends one [bill_actions] row per action of
    the source record, in source order, with the bill's row id, the action's
    date and description, its first classification tag (null when there is
    none) and its position counted from 0; rows already stored stay. *)
Theorem actions_appended_in_order :
  forall env bill w w',
    sync_bill env bill w = (Ok tt, w') ->
    action_ids_fresh (w_db w) ->
    exists rows id,
      bill_actions (w_db w') = bill_actions (w_db w) ++ rows /\
      bill_row_id bill (w_db w') = Some id /\
      map action_key rows =
        action_keys id 0 (match b_actions bill with Some l => l | None => [] end) /\
      map ar_classification rows =
        map (fun a => JS.or (JS.first (a_classification a)) None)
            (match b_actions bill with Some l => l | None => [] end) /\
      action_ids_fresh (w_db w').
Proof.
  intros env bill w w' Hrun Hfresh.
  assert (Hid : bill_row_id bill (w_db w') =
                Some (fst (snd (Sql.upsert_bill (determineBillStage bill) bill
                                  (now env (w_queries w)) (w_db w))))).
  { destruct (pool_query_ending env (QUpsertBill (b_id bill))
                (Sql.upsert_bill (determineBillStage bill) bill) w)
      as [[res [w1 Hq]] | [msg [w1 Hq]]].
    - apply pool_query_returns in Hq. destruct Hq as [Hno _].
      destruct (sync_bill_after_upsert env bill w Hno)
        as [w1' [rest [Hdb [_ [Heq Hkept]]]]].
      specialize (Hkept w1'). unfold bill_rows_kept in Hkept.
      rewrite Heq in Hrun. rewrite Hrun in Hkept. cbn [snd] in Hkept.
      unfold bill_row_id at 1. rewrite Hkept, Hdb.
      apply bill_row_id_after_upsert.
    - unfold sync_bill in Hrun. rewrite bind_run, Hq in Hrun. discriminate. }
  unfold sync_bill in Hrun.
  apply bind_returns in Hrun. destruct Hrun as [[billId oldStage] [w1 [Hup Hrun]]].
  apply pool_query_returns in Hup. destruct Hup as [_ [Hres Hw1]].
  assert (HbillId : billId = fst (snd (Sql.upsert_bill (determineBillStage bill) bill
                                         (now env (w_queries w)) (w_db w))))
    by (rewrite <- Hres; reflexivity).
  cbn [fst snd] in Hrun.
  apply bind_returns in Hrun. destruct Hrun as [[] [w2 [Hhist Hrun]]].
  assert (Hk2 : actions_kept w EOk w2).
  { apply (actions_kept_seq w w1 w2).
    - rewrite Hw1. split; reflexivity.
    - eapply (runs_elim _ actions_kept w1 (Ok tt) w2); [| exact Hhist].
      runs_steps actions_kept_skip actions_kept_seq
        ltac:(apply pool_query_actions_kept; intros; split; reflexivity). }
  destruct Hk2 as [Hrows2 Hseq2].
  assert (Hfresh2 : action_ids_fresh (w_db w2)).
  { intros r Hr. rewrite Hrows2 in Hr. rewrite Hseq2. now apply Hfresh. }
  apply bind_returns in Hrun. destruct Hrun as [[] [w3 [Hact Hrun]]].
  assert (Hk3 : actions_kept w3 EOk w').
  { eapply (runs_elim _ actions_kept w3 (Ok tt) w'); [| exact Hrun].
    runs_steps actions_kept_skip actions_kept_seq
      ltac:(apply pool_query_actions_kept; intros; split; reflexivity). }
  destruct Hk3 as [Hrows3 Hseq3].
  destruct (b_actions bill) as [actions |].
  - destruct (insert_actions_in_order env billId actions 0 w2 w3 Hact Hfresh2)
      as [rows [Happ [Hkeys [Hcls Hfresh3]]]].
    exists rows, billId. split; [| split; [| split; [| split]]].
    + rewrite Hrows3, Happ, Hrows2. reflexivity.
    + rewrite Hid, HbillId. reflexivity.
    + exact Hkeys.
    + exact Hcls.
    + intros r Hr. rewrite Hrows3 in Hr. rewrite Hseq3. now apply Hfresh3.
  - injection Hact as <-. exists [], billId.
    split; [| split; [| split; [| split]]].
    + rewrite Hrows3, Hrows2, app_nil_r. reflexivity.
    + rewrite Hid, HbillId. reflexivity.
    + reflexivity.
    + reflexivity.
    + intros r Hr. rewrite Hrows3 in Hr. rewrite Hseq3. now apply Hfresh2.
Qed.

Lemma actions_appended_in_order_witness :
  exists rows id,
    bill_actions (w_db (snd (sync_bill env_quiet hb1001 (start (schema_db 0))))) =
      bill_actions (w_db (start (schema_db 0))) ++ rows /\
    bill_row_id hb1001 (w_db (snd (sync_bill env_quiet hb1001 (start (schema_db 0))))) =
      Some id /\
    map action_key rows =
      action_keys id 0 (match b_actions hb1001 with Some l => l | None => [] end) /\
    map ar_classification rows =
      map (fun a => JS.or (JS.first (a_classification a)) None)
          (match b_actions hb1001 with Some l => l | None => [] end) /\
    action_ids_fresh (w_db (snd (sync_bill env_quiet hb1001 (start (schema_db 0))))).
Proof.
  apply (actions_appended_in_order env_quiet hb1001 (start (schema_db 0))).
  - vm_compute. reflexivity.
  - intros r [].
Defined.

(* --------------------------------------------------------------------- *)
(** *** Sponsorship rows of a pass *)

Lemma sponsors_linked_skip id sponsors w : sponsors_linked id sponsors w EOk w.
Proof. split; [reflexivity |]. intros r Hr. now left. Qed.

Lemma sponsors_linked_same_db id sponsors w e w' :
  w_db w' = w_db w -> sponsors_linked id sponsors w e w'.
Proof.
  intros H. unfold sponsors_linked. rewrite H. split; [reflexivity |].
  intros r Hr. now left.
Qed.

Lemma sponsors_linked_seq id sponsors w1 w2 w3 e :
  sponsors_linked id sponsors w1 EOk w2 ->
  sponsors_linked id sponsors w2 e w3 ->
  sponsors_linked id sponsors w1 e w3.
Proof.
  intros [Hl1 H1] [Hl2 H2]. split; [congruence |].
  intros r Hr. destruct (H2 r Hr) as [Hin | Hlinked].
  - now apply H1.
  - right. now rewrite <- Hl1.
Qed.

Lemma sponsorships_kept_linked id sponsors w e w' :
  sponsorships_kept w e w' -> sponsors_linked id sponsors w e w'.
Proof.
  intros [Hl Hs]. split; [exact Hl |]. intros r Hr. left. now rewrite <- Hs.
Qed.

Lemma pool_query_sponsorships_kept env {A} q (run : Z -> Db -> Db * A) :
  (forall t db, legislators (fst (run t db)) = legislators db /\
                sponsorships (fst (run t db)) = sponsorships db) ->
  runs (pool_query env q run) sponsorships_kept.
Proof.
  intros H w. unfold pool_query, sponsorships_kept.
  destruct (db_fault env (w_queries w)); [auto |].
  specialize (H (now env (w_queries w)) (w_db w)).
  destruct (run (now env (w_queries w)) (w_db w)) as [db' a]. exact H.
Qed.

Lemma select_legislator_found pick name t db :
  match snd (Sql.select_legislator pick name t db) with
  | Some id => exists l, In l (legislators db) /\ lr_name l = name /\ lr_id l = id
  | None =>
      (forall l, In l (legislators db) -> lr_name l <> name) \/
      (exists l, In l (legislators db) /\ lr_name l = name /\ lr_id l = 0)
  end.
Proof.
  unfold Sql.select_legislator. cbn [snd].
  set (found := filter (fun r => String.eqb (lr_name r) name) (legislators db)).
  assert (Hfound : forall l, In l found -> In l (legislators db) /\ lr_name l = name).
  { intros l Hl. apply filter_In in Hl. destruct Hl as [Hl He].
    apply String.eqb_eq in He. auto. }
  destruct (nth_error found (Nat.modulo (pick found) (length found))) as [l |] eqn:Hn.
  - apply nth_error_In in Hn. destruct (Hfound l Hn) as [Hin He].
    destruct (Z.eqb_spec (lr_id l) 0) as [Hz | Hz].
    + right. exists l. auto.
    + exists l. auto.
  - left. intros l Hl He. apply nth_error_None in Hn.
    assert (Hin : In l found).
    { apply filter_In. split; [exact Hl | now apply String.eqb_eq]. }
    destruct found as [| x found']; [contradiction |].
    pose proof (Nat.mod_upper_bound (pick (x :: found')) (length (x :: found'))
                  ltac:(discriminate)) as Hb.
    apply (Nat.lt_irrefl (length (x :: found'))).
    eapply Nat.le_lt_trans; [exact Hn | exact Hb].
Qed.

Lemma select_legislator_linked pick name t db r :
  sr_name r = name ->
  sr_legislator_id r = snd (Sql.select_legislator pick name t db) ->
  sponsor_linked (legislators db) r.
Proof.
  intros Hname Hid. unfold sponsor_linked. rewrite Hid, Hname.
  apply select_legislator_found.
Qed.

Lemma sponsor_step_linked env id sponsors sponsor :
  In sponsor sponsors ->
  runs (legislatorId <- pool_query env (QSelectLegislator (sp_name sponsor))
                          (Sql.select_legislator (first_row env) (sp_name sponsor)) ;;
        pool_query env (QInsertSponsorship id)
                   (Sql.insert_sponsorship id legislatorId sponsor))
       (sponsors_linked id sponsors).
Proof.
  intros Hin w. rewrite bind_run.
  destruct (pool_query_ending env (QSelectLegislator (sp_name sponsor))
              (Sql.select_legislator (first_row env) (sp_name sponsor)) w)
    as [[lid [w1 Hq]] | [msg [w1 Hq]]]; rewrite Hq.
  - apply pool_query_returns in Hq. destruct Hq as [_ [Hlid Hw1]].
    assert (Hdb1 : w_db w1 = w_db w) by (rewrite Hw1; reflexivity).
    destruct (pool_query_ending env (QInsertSponsorship id)
                (Sql.insert_sponsorship id lid sponsor) w1)
      as [[[] [w2 Hq2]] | [msg [w2 Hq2]]]; rewrite Hq2; cbn [fst snd ending].
    + apply pool_query_returns in Hq2. destruct Hq2 as [_ [_ Hw2]].
      rewrite Hw2. cbn [w_db]. rewrite Hdb1. split; [reflexivity |].
      intros r Hr. simpl in Hr.
      destruct (existsb _ (sponsorships (w_db w))); [now left |].
      apply in_app_or in Hr. destruct Hr as [Hr | [<- | []]]; [now left |].
      right. split; [reflexivity |]. split.
      * exists sponsor. auto.
      * apply (select_legislator_linked (first_row env) (sp_name sponsor)
                 (now env (w_queries w)));
          [reflexivity | exact Hlid].
    + apply pool_query_throws in Hq2. destruct Hq2 as [_ ->].
      apply sponsors_linked_same_db. exact Hdb1.
  - apply pool_query_throws in Hq. destruct Hq as [_ ->]. cbn [fst snd ending].
    apply sponsors_linked_same_db. reflexivity.
Qed.

(** Property X6. Every sponsorship row a bill pass adds belongs to the bill's row, names
    a sponsor of the source record with its classification and entity type,
    and is linked by exact name: its legislator id is that of a stored
    legislator with the sponsor's name, or null when no stored legislator
    has that name (or the one found has id 0, which [|| null] turns into
    null). *)
Theorem sponsorships_linked_by_name :
  forall env bill w r,
    In r (sponsorships (w_db (snd (sync_bill env bill w)))) ->
    ~ In r (sponsorships (w_db w)) ->
    bill_row_id bill (w_db (snd (sync_bill env bill w))) = Some (sr_bill_id r) /\
    (exists sponsors sp,
        b_sponsorships bill = Some sponsors /\ In sp sponsors /\
        sr_name r = sp_name sp /\ sr_classification r = sp_classification sp /\
        sr_entity_type r = sp_entity_type sp) /\
    sponsor_linked (legislators (w_db w)) r.
Proof.
  intros env bill w r Hin Hnew.
  destruct (pool_query_ending env (QUpsertBill (b_id bill))
              (Sql.upsert_bill (determineBillStage bill) bill) w)
    as [[[billId oldStage] [w1 Hq]] | [msg [w1 Hq]]].
  - pose proof (pool_query_returns _ _ _ _ _ _ Hq) as [Hno [Hres Hw1]].
    assert (HbillId : billId = fst (snd (Sql.upsert_bill (determineBillStage bill) bill
                                           (now env (w_queries w)) (w_db w))))
      by (rewrite <- Hres; reflexivity).
    assert (Hid : bill_row_id bill (w_db (snd (sync_bill env bill w))) = Some billId).
    { destruct (sync_bill_after_upsert env bill w Hno)
        as [w1' [rest [Hdb [_ [Heq Hkept]]]]].
      specialize (Hkept w1'). unfold bill_rows_kept in Hkept.
      rewrite Heq. unfold bill_row_id at 1. rewrite Hkept, Hdb, HbillId.
      apply bill_row_id_after_upsert. }
    unfold sync_bill in Hin. rewrite bind_run, Hq in Hin. cbn [fst snd] in Hin.
    match type of Hin with
    | In r (sponsorships (w_db (snd (?m w1)))) =>
        assert (Hrest : runs m (sponsors_linked billId
                                  (match b_sponsorships bill with
                                   | Some l => l | None => [] end)))
    end.
    { apply (runs_bind _ (sponsors_linked_seq _ _)).
      - intros w0. apply sponsorships_kept_linked.
        revert w0.
        match goal with
        | |- forall w0, sponsorships_kept w0 (ending (fst (?m w0))) (snd (?m w0)) =>
            change (runs m sponsorships_kept)
        end.
        apply runs_if.
        + apply pool_query_sponsorships_kept. intros; split; reflexivity.
        + intros w0. split; reflexivity.
      - intros _. apply (runs_bind _ (sponsors_linked_seq _ _)).
        + intros w0. apply sponsorships_kept_linked. revert w0.
          match goal with
          | |- forall w0, sponsorships_kept w0 (ending (fst (?m w0))) (snd (?m w0)) =>
              change (runs m sponsorships_kept)
          end.
          destruct (b_actions bill) as [actions |].
          * apply runs_for_index.
            -- intros w0. split; reflexivity.
            -- intros wa wb wc e [Ha1 Ha2] [Hb1 Hb2]. split; congruence.
            -- intros j x. apply pool_query_sponsorships_kept.
               intros; split; reflexivity.
          * intros w0. split; reflexivity.
        + intros _. destruct (b_sponsorships bill) as [sponsors |].
          * apply runs_for_of.
            -- apply sponsors_linked_skip.
            -- apply sponsors_linked_seq.
            -- intros sp Hsp. now apply sponsor_step_linked.
          * intros w0. apply sponsors_linked_skip. }
    destruct (Hrest w1) as [_ Hrows].
    assert (Hw1db : sponsorships (w_db w1) = sponsorships (w_db w) /\
                    legislators (w_db w1) = legislators (w_db w)).
    { rewrite Hw1. split; reflexivity. }
    destruct Hw1db as [Hs1 Hl1].
    destruct (Hrows r Hin) as [Hold | [Hbid [[sp [Hsp Hfields]] Hlinked]]].
    + exfalso. apply Hnew. now rewrite <- Hs1.
    + split; [rewrite Hid, Hbid; reflexivity |]. split.
      * destruct (b_sponsorships bill) as [sponsors |]; [| destruct Hsp].
        exists sponsors, sp. destruct Hfields as [Hn [Hc He]]. auto.
      * now rewrite <- Hl1.
  - exfalso. apply Hnew. unfold sync_bill in Hin. rewrite bind_run, Hq in Hin.
    apply pool_query_throws in Hq. destruct Hq as [_ ->]. exact Hin.
Qed.

Lemma sponsorships_linked_by_name_witness :
  bill_row_id hb1001_sponsored
    (w_db (snd (sync_bill env_sponsored hb1001_sponsored (start db_with_smith)))) =
    Some (sr_bill_id smith_sponsorship) /\
  sponsor_linked (legislators (w_db (start db_with_smith))) smith_sponsorship.
Proof.
  destruct (sponsorships_linked_by_name env_sponsored hb1001_sponsored
              (start db_with_smith) smith_sponsorship) as [Hid [_ Hlinked]].
  - vm_compute. left. reflexivity.
  - vm_compute. tauto.
  - split; [exact Hid | exact Hlinked].
Defined.


(* ===================================================================== *)
(** ** What a completed sync records, and how the process ends *)
(* ===================================================================== *)

Lemma page_loop_total {A} endpoint (api : Z -> Fetch A) cap each :
  (forall x, runs (each x) queries_only) ->
  forall fuel page total w t w',
    page_loop endpoint api cap each fuel page total w = (Ok t, w') ->
    exists evs,
      w_trace w' = w_trace w ++ evs /\
      t = total + sum_Z (map (page_size api) (pages_fetched endpoint evs)).
Proof.
  intros Heach.
  induction fuel as [| fuel IH]; intros page total w t w' Hrun; simpl in Hrun.
  - discriminate.
  - destruct (page <=? cap).
    + rewrite bind_run in Hrun.
      destruct (api_get_ending endpoint api page w)
        as [[data [w1 Hget]] | [msg [w1 Hget]]]; rewrite Hget in Hrun;
        [| discriminate].
      apply api_get_returns in Hget. destruct Hget as [Hapi ->].
      assert (Hsize : page_size api page = Z.of_nat (length (results data))).
      { unfold page_size. now rewrite Hapi. }
      destruct (length (results data) =? 0)%nat eqn:Hlen.
      * injection Hrun as <- <-. exists [EvFetch endpoint page None].
        split; [reflexivity |]. rewrite pages_fetched_one. simpl.
        apply Nat.eqb_eq in Hlen. rewrite Hsize, Hlen. simpl. lia.
      * rewrite bind_run in Hrun.
        pose proof (for_of_each_queries each Heach (results data)
                      (log (EvFetch endpoint page None) w)) as Hfor.
        destruct (for_of (results data) each (log (EvFetch endpoint page None) w))
          as [[[] | msg | c |] w2]; try discriminate.
        destruct Hfor as [_ [evs2 [Ht2 [Hq2 _]]]]. simpl in Ht2.
        destruct (last_page data page).
        -- injection Hrun as <- <-. exists ([EvFetch endpoint page None] ++ evs2).
           split; [rewrite Ht2; now rewrite <- app_assoc |].
           rewrite pages_fetched_app, (pages_fetched_queries _ _ Hq2),
             pages_fetched_one. simpl. rewrite Hsize. lia.
        -- destruct (IH _ _ _ _ _ Hrun) as [evs [Ht Hsum]].
           exists ([EvFetch endpoint page None] ++ evs2 ++ evs).
           split; [rewrite Ht, Ht2; now rewrite <- !app_assoc |].
           rewrite !pages_fetched_app, (pages_fetched_queries _ _ Hq2),
             pages_fetched_one. simpl. rewrite Hsum, Hsize. lia.
    + injection Hrun as <- <-. exists []. rewrite app_nil_r. simpl. split; [reflexivity | lia].
Qed.

Lemma recorded_sync_returns_db env sync_type (loop : M Z) w t w' :
  recorded_sync env sync_type loop w = (Ok t, w') ->
  exists w1,
    loop w = (Ok t, w1) /\
    w_trace w' = w_trace w1 ++ [EvQuery (QMetaSuccess sync_type) None] /\
    w_db w' = fst (Sql.update_success sync_type t (now env (w_queries w1)) (w_db w1)).
Proof.
  unfold recorded_sync, try_catch. rewrite bind_run.
  destruct (loop w) as [[total | msg | c |] w1].
  - rewrite bind_run.
    destruct (pool_query_ending env (QMetaSuccess sync_type)
                (Sql.update_success sync_type total) w1)
      as [[a [w2 Hq]] | [msg [w2 Hq]]]; rewrite Hq.
    + unfold ret. intros H. injection H as <- <-.
      apply pool_query_returns in Hq. destruct Hq as [_ [_ ->]].
      exists w1. auto.
    + rewrite bind_run.
      destruct (pool_query_ending env (QMetaError sync_type)
                  (Sql.update_error sync_type msg) w2)
        as [[a [w3 Hq']] | [again [w3 Hq']]]; rewrite Hq'; discriminate.
  - rewrite bind_run.
    destruct (pool_query_ending env (QMetaError sync_type)
                (Sql.update_error sync_type msg) w1)
      as [[a [w3 Hq']] | [again [w3 Hq']]]; rewrite Hq'; discriminate.
  - discriminate.
  - discriminate.
Qed.

Lemma recorded_sync_success {A} env sync_type endpoint (api : Z -> Fetch A) cap each
      fuel w total w' :
  (forall x, runs (each x) queries_only) ->
  (forall x, runs (each x) metadata_kept) ->
  recorded_sync env sync_type (page_loop endpoint api cap each fuel 1 0) w =
    (Ok total, w') ->
  success_recorded sync_type endpoint api w total w'.
Proof.
  intros Hq Hm Hrun. apply recorded_sync_returns_db in Hrun.
  destruct Hrun as [w1 [Hloop [Ht Hdb]]].
  pose proof (page_loop_metadata_kept endpoint api cap each Hm fuel 1 0 w) as Hkept.
  rewrite Hloop in Hkept. unfold metadata_kept in Hkept. simpl in Hkept.
  apply (page_loop_total endpoint api cap each Hq) in Hloop.
  destruct Hloop as [evs [Ht1 Hsum]]. split.
  - exists (evs ++ [EvQuery (QMetaSuccess sync_type) None]). split.
    + rewrite Ht, Ht1. now rewrite <- app_assoc.
    + rewrite pages_fetched_app. simpl. rewrite app_nil_r. lia.
  - exists (now env (w_queries w1)). rewrite Hdb. simpl. now rewrite Hkept.
Qed.

Lemma recorded_sync_ext env sync_type (loop1 loop2 : M Z) w :
  (forall w0, loop1 w0 = loop2 w0) ->
  recorded_sync env sync_type loop1 w = recorded_sync env sync_type loop2 w.
Proof.
  intros H. unfold recorded_sync, try_catch. rewrite !bind_run, H. reflexivity.
Qed.

(** Property X7. A sync that completes has counted exactly the records on the pages it
    requested, and leaves the [sync_metadata] rows of its type with status
    [success], that count, and the time of the record as last sync and last
    success; the error message of an earlier failure stays in the row. *)
Theorem sync_success_recorded :
  forall env fuel w total w',
    (syncLegislators env fuel w = (Ok total, w') ->
     success_recorded "legislators" "/people" (people_api env) w total w') /\
    (syncBills env fuel w = (Ok total, w') ->
     success_recorded "bills" "/bills" (bills_api env) w total w').
Proof.
  intros env fuel w total w'. split; intros Hrun.
  - rewrite syncLegislators_shape in Hrun.
    rewrite (recorded_sync_ext _ _ _ _ _ (legislators_loop_shape env fuel 1 0)) in Hrun.
    eapply recorded_sync_success; [| | exact Hrun].
    + apply upsert_one_legislator_queries_only.
    + intros l. apply pool_query_metadata_kept. reflexivity.
  - rewrite syncBills_shape in Hrun.
    rewrite (recorded_sync_ext _ _ _ _ _ (bills_loop_shape env fuel 1 0)) in Hrun.
    eapply recorded_sync_success; [| | exact Hrun].
    + apply sync_bill_queries_only.
    + apply sync_bill_metadata_kept.
Qed.

Lemma sync_success_recorded_witness :
  success_recorded "legislators" "/people" (people_api env_quiet)
    (start (schema_db 0)) 1
    (snd (syncLegislators env_quiet enough_fuel (start (schema_db 0)))).
Proof.
  apply (proj1 (sync_success_recorded env_quiet enough_fuel (start (schema_db 0)) 1
                  (snd (syncLegislators env_quiet enough_fuel (start (schema_db 0)))))).
  vm_compute. reflexivity.
Defined.

Lemma ends_as_logged_skip w : ends_as_logged w EOk w.
Proof. exists []. rewrite app_nil_r. split; [reflexivity | constructor]. Qed.

Lemma ends_as_logged_seq w1 w2 w3 e :
  ends_as_logged w1 EOk w2 -> ends_as_logged w2 e w3 -> ends_as_logged w1 e w3.
Proof.
  intros [evs1 [Ht1 Ho1]] [evs2 [Ht2 Ho2]]. exists (evs1 ++ evs2). split.
  - rewrite Ht2, Ht1. now rewrite app_assoc.
  - destruct e as [| msg | c |]; try assumption.
    + apply Forall_app. now split.
    + apply Exists_app. now right.
Qed.

Lemma stops_ends_as_logged w e w' : stops_at_failure w e w' -> ends_as_logged w e w'.
Proof.
  intros [_ [evs [Ht [_ Hend]]]]. exists evs. split; [exact Ht |].
  destruct e as [| msg | c |]; try assumption.
  destruct Hend as [pre [ev [-> [_ Hev]]]].
  apply Exists_app. right. constructor. now exists msg.
Qed.

Lemma recorded_sync_ends_as_logged env sync_type (loop : M Z) :
  runs loop stops_at_failure ->
  runs loop metadata_kept ->
  runs (recorded_sync env sync_type loop) ends_as_logged.
Proof.
  intros Hstop Hmeta w.
  destruct (recorded_sync env sync_type loop w) as [[t | thrown | c |] w'] eqn:Hrun;
    cbn [fst snd ending].
  - unfold recorded_sync, try_catch in Hrun.
    assert (Hbody : runs (totalSynced <- loop ;;
                          pool_query env (QMetaSuccess sync_type)
                            (Sql.update_success sync_type totalSynced) ;;
                          ret totalSynced) stops_at_failure).
    { runs_steps stops_at_failure_skip stops_at_failure_seq
        ltac:(first [ exact Hstop
                    | intros w0; apply queries_only_stops, pool_query_queries_only ]). }
    specialize (Hbody w).
    destruct ((totalSynced <- loop ;;
               pool_query env (QMetaSuccess sync_type)
                 (Sql.update_success sync_type totalSynced) ;;
               ret totalSynced) w) as [[total | cause | c |] w1]; try discriminate.
    + injection Hrun as <- <-. now apply stops_ends_as_logged in Hbody.
    + exfalso. revert Hrun. rewrite bind_run.
      destruct (pool_query_ending env (QMetaError sync_type)
                  (Sql.update_error sync_type cause) w1)
        as [[a [w3 Hq']] | [again [w3 Hq']]]; rewrite Hq'; discriminate.
  - destruct (recorded_sync_throws env sync_type loop Hstop Hmeta w thrown w' Hrun)
      as [pre [failed [cause [recorded [Ht [_ [Hf _]]]]]]].
    exists (pre ++ [failed; EvQuery (QMetaError sync_type) recorded]).
    split; [exact Ht |]. apply Exists_app. right. constructor. now exists cause.
  - destruct (recorded_sync_pool env sync_type loop Hstop w) as [_ Hne].
    exfalso. apply (Hne c). now rewrite Hrun.
  - unfold recorded_sync, try_catch in Hrun. revert Hrun.
    rewrite bind_run.
    pose proof (Hstop w) as Hl.
    destruct (loop w) as [[total | msg | c |] w1]; cbn [fst snd ending] in Hl.
    + rewrite bind_run.
      destruct (pool_query_ending env (QMetaSuccess sync_type)
                  (Sql.update_success sync_type total) w1)
        as [[a [w2 Hq]] | [msg [w2 Hq]]]; rewrite Hq; [discriminate |].
      rewrite bind_run.
      destruct (pool_query_ending env (QMetaError sync_type)
                  (Sql.update_error sync_type msg) w2)
        as [[a [w3 Hq']] | [again [w3 Hq']]]; rewrite Hq'; discriminate.
    + rewrite bind_run.
      destruct (pool_query_ending env (QMetaError sync_type)
                  (Sql.update_error sync_type msg) w1)
        as [[a [w3 Hq']] | [again [w3 Hq']]]; rewrite Hq'; discriminate.
    + discriminate.
    + intros H. injection H as <-. destruct Hl as [_ [evs [Ht _]]].
      exists evs. split; [exact Ht | exact I].
Qed.

Lemma syncLegislators_ends_as_logged env fuel :
  runs (syncLegislators env fuel) ends_as_logged.
Proof.
  rewrite syncLegislators_shape. apply recorded_sync_ends_as_logged.
  - apply legislators_loop_stops.
  - apply legislators_loop_metadata.
Qed.

Lemma syncBills_ends_as_logged env fuel : runs (syncBills env fuel) ends_as_logged.
Proof.
  rewrite syncBills_shape. apply recorded_sync_ends_as_logged.
  - apply bills_loop_stops.
  - apply bills_loop_metadata.
Qed.

Lemma syncLegislators_fuel env fuel w :
  (enough_fuel <= fuel)%nat -> fst (syncLegislators env fuel w) <> OutOfFuel.
Proof.
  intros Hfuel. unfold enough_fuel in Hfuel.
  rewrite syncLegislators_shape. apply recorded_sync_fuel.
  rewrite legislators_loop_shape.
  apply page_loop_fuel; [apply upsert_one_legislator_queries_only |].
  unfold legislators_max_pages. lia.
Qed.

Lemma syncBills_fuel env fuel w :
  (enough_fuel <= fuel)%nat -> fst (syncBills env fuel w) <> OutOfFuel.
Proof.
  intros Hfuel. unfold enough_fuel in Hfuel.
  rewrite syncBills_shape. apply recorded_sync_fuel.
  rewrite bills_loop_shape.
  apply page_loop_fuel; [apply sync_bill_queries_only |].
  unfold bills_max_pages. lia.
Qed.

(** How a run ends, for answers of the API that have the shape the script
    reads: with code 0 after calls that all succeeded, or with code 1 after
    a call that failed. *)
Lemma runSync_exit_logged :
  forall env fuel w,
    (enough_fuel <= fuel)%nat ->
    exists evs,
      w_trace (snd (runSync env fuel w)) = w_trace w ++ evs /\
      ((exit_status (runSync env fuel w) = Some 0 /\ Forall ev_ok evs) \/
       (exit_status (runSync env fuel w) = Some 1 /\ Exists ev_failed evs)).
Proof.
  intros env fuel w Hfuel. unfold runSync, try_finally, try_catch, exit_status.
  assert (Hbody : runs (pool_query env QSelectNow Sql.select_now ;;
                        syncLegislators env fuel ;;
                        syncBills env fuel ;;
                        ret tt) ends_as_logged).
  { runs_steps ends_as_logged_skip ends_as_logged_seq
      ltac:(first [ apply syncLegislators_ends_as_logged
                  | apply syncBills_ends_as_logged
                  | intros w0; apply stops_ends_as_logged, queries_only_stops,
                      pool_query_queries_only ]). }
  specialize (Hbody w).
  assert (Hnofuel : fst ((pool_query env QSelectNow Sql.select_now ;;
                          syncLegislators env fuel ;;
                          syncBills env fuel ;;
                          ret tt) w) <> OutOfFuel).
  { rewrite bind_run.
    destruct (pool_query_ending env QSelectNow Sql.select_now w)
      as [[a [w1 Hq]] | [msg [w1 Hq]]]; rewrite Hq; [| discriminate].
    rewrite bind_run.
    pose proof (syncLegislators_fuel env fuel w1 Hfuel) as Hl.
    destruct (syncLegislators env fuel w1) as [[t | msg | c |] w2]; try discriminate;
      [| now elim Hl].
    rewrite bind_run.
    pose proof (syncBills_fuel env fuel w2 Hfuel) as Hb.
    destruct (syncBills env fuel w2) as [[t' | msg | c |] w3]; try discriminate.
    now elim Hb. }
  destruct ((pool_query env QSelectNow Sql.select_now ;;
             syncLegislators env fuel ;;
             syncBills env fuel ;;
             ret tt) w) as [[a | msg | c |] w1]; cbn [fst snd ending] in *;
    destruct Hbody as [evs [Ht Hend]].
  - exists (evs ++ [EvPoolEnd]). split.
    + simpl. rewrite Ht. now rewrite <- app_assoc.
    + left. split; [reflexivity |]. apply Forall_app. split; [exact Hend |].
      repeat constructor.
  - exists evs. split; [exact Ht |]. right. split; [reflexivity | exact Hend].
  - contradiction.
  - now elim Hnofuel.
Qed.

(** Property X8. No failure is swallowed: when a fetch or a query of the run
    fails, the process ends with exit code 1, and it ends with exit code 0
    only after every fetch and every query it made succeeded; it ends with
    one of the two codes. *)
Theorem failure_never_exits_zero :
  forall env fuel w,
    (enough_fuel <= fuel)%nat ->
    exists evs,
      w_trace (snd (runSync env fuel w)) = w_trace w ++ evs /\
      (exit_status (runSync env fuel w) = Some 0 \/
       exit_status (runSync env fuel w) = Some 1) /\
      (Exists ev_failed evs -> exit_status (runSync env fuel w) = Some 1) /\
      (exit_status (runSync env fuel w) = Some 0 -> Forall ev_ok evs).
Proof.
  intros env fuel w Hfuel.
  destruct (runSync_exit_logged env fuel w Hfuel) as [evs [Ht Hend]].
  exists evs. split; [exact Ht |].
  destruct Hend as [[H0 Hok] | [H1 Hfailed]].
  - split; [now left |]. split; [| intros _; exact Hok].
    intros Hex. exfalso. apply Exists_exists in Hex.
    destruct Hex as [e [Hin [msg Hmsg]]].
    rewrite Forall_forall in Hok. specialize (Hok e Hin).
    unfold ev_ok in Hok. congruence.
  - split; [now right |]. split; [intros _; exact H1 |].
    intros H0. congruence.
Qed.

Lemma failure_never_exits_zero_witness :
  exit_status (runSync env_api_down enough_fuel (start (schema_db 0))) = Some 1.
Proof.
  destruct (failure_never_exits_zero env_api_down enough_fuel (start (schema_db 0))
              (le_n _)) as [evs [Ht [_ [Hfail _]]]].
  apply Hfail. vm_compute in Ht. rewrite <- Ht.
  apply Exists_exists.
  exists (EvFetch "/people" 1 (Some "connect ECONNREFUSED")).
  split; [simpl; tauto | eexists; reflexivity].
Defined.


(* ===================================================================== *)
(** ** The constraints of the schema through a run *)
(* ===================================================================== *)

Section KeptDb.

Variable P : Db -> Prop.
Hypothesis P_legislator :
  forall l t db, P db -> P (fst (Sql.upsert_legislator l t db)).
Hypothesis P_bill : forall env bill, runs (sync_bill env bill) (keeps_db P).
Hypothesis P_success :
  forall sync_type total t db, P db -> P (fst (Sql.update_success sync_type total t db)).
Hypothesis P_error :
  forall sync_type msg t db, P db -> P (fst (Sql.update_error sync_type msg t db)).

Lemma keeps_db_skip w : keeps_db P w EOk w.
Proof. unfold keeps_db. auto. Qed.

Lemma keeps_db_seq w1 w2 w3 e :
  keeps_db P w1 EOk w2 -> keeps_db P w2 e w3 -> keeps_db P w1 e w3.
Proof. unfold keeps_db. auto. Qed.

Lemma pool_query_keeps_db env {A} q (run : Z -> Db -> Db * A) :
  (forall t db, P db -> P (fst (run t db))) ->
  runs (pool_query env q run) (keeps_db P).
Proof.
  intros H w. unfold pool_query, keeps_db.
  destruct (db_fault env (w_queries w)); [auto |].
  specialize (H (now env (w_queries w)) (w_db w)).
  destruct (run (now env (w_queries w)) (w_db w)) as [db' a]. exact H.
Qed.

Lemma page_loop_keeps_db {A} endpoint (api : Z -> Fetch A) cap each :
  (forall x, runs (each x) (keeps_db P)) ->
  forall fuel page total,
    runs (page_loop endpoint api cap each fuel page total) (keeps_db P).
Proof.
  intros Heach. apply runs_page_loop.
  - apply keeps_db_skip.
  - apply keeps_db_seq.
  - intros w. apply keeps_db_skip.
  - intros page w. unfold keeps_db. now rewrite api_get_same_db.
  - exact Heach.
Qed.

Lemma recorded_sync_keeps_db env sync_type loop :
  runs loop (keeps_db P) -> runs (recorded_sync env sync_type loop) (keeps_db P).
Proof.
  intros Hloop w. unfold recorded_sync, try_catch.
  assert (Hbody : runs (totalSynced <- loop ;;
                        pool_query env (QMetaSuccess sync_type)
                          (Sql.update_success sync_type totalSynced) ;;
                        ret totalSynced) (keeps_db P)).
  { runs_steps keeps_db_skip keeps_db_seq
      ltac:(first [ exact Hloop | apply pool_query_keeps_db; apply P_success ]). }
  specialize (Hbody w).
  destruct ((totalSynced <- loop ;;
             pool_query env (QMetaSuccess sync_type)
               (Sql.update_success sync_type totalSynced) ;;
             ret totalSynced) w) as [[total | cause | c |] w1];
    simpl in Hbody |- *; try exact Hbody.
  assert (Hh : runs (pool_query env (QMetaError sync_type)
                       (Sql.update_error sync_type cause) ;; @throw Z cause)
                    (keeps_db P)).
  { runs_steps keeps_db_skip keeps_db_seq
      ltac:(first [ apply pool_query_keeps_db; apply P_error
                  | intros w0; apply keeps_db_skip ]). }
  specialize (Hh w1). unfold keeps_db in *. auto.
Qed.

Lemma runSync_keeps_db env fuel : runs (runSync env fuel) (keeps_db P).
Proof.
  intros w. unfold runSync, try_finally, try_catch.
  assert (Hbody : runs (pool_query env QSelectNow Sql.select_now ;;
                        syncLegislators env fuel ;;
                        syncBills env fuel ;;
                        ret tt) (keeps_db P)).
  { runs_steps keeps_db_skip keeps_db_seq
      ltac:(first
              [ rewrite syncLegislators_shape; apply recorded_sync_keeps_db;
                intros w0; rewrite legislators_loop_shape; apply page_loop_keeps_db;
                intros l; apply pool_query_keeps_db; apply P_legislator
              | rewrite syncBills_shape; apply recorded_sync_keeps_db;
                intros w0; rewrite bills_loop_shape; apply page_loop_keeps_db;
                apply P_bill
              | apply pool_query_keeps_db; intros t db Hdb; exact Hdb ]). }
  specialize (Hbody w).
  destruct ((pool_query env QSelectNow Sql.select_now ;;
             syncLegislators env fuel ;;
             syncBills env fuel ;;
             ret tt) w) as [[a | msg | c |] w1]; simpl in Hbody |- *;
    exact Hbody.
Qed.

End KeptDb.

(* --------------------------------------------------------------------- *)
(** *** Keys *)

Lemma serial_append {A} (id : A -> Z) rows seq x :
  serial_ok id rows seq -> id x = seq -> serial_ok id (rows ++ [x]) (seq + 1).
Proof.
  intros [Hpos [Hnd Hb]] Hx. split; [lia |]. split.
  - rewrite map_app. simpl. apply NoDup_app_remove_l with (l := []). simpl.
    assert (Hn : ~ In (id x) (map id rows)).
    { intros Hin. apply in_map_iff in Hin. destruct Hin as [r [Hr Hin]].
      apply Hb in Hin. lia. }
    clear Hb. revert Hnd Hn.
    induction (map id rows) as [| y ys IH]; simpl; intros Hnd Hn.
    + constructor; [tauto | constructor].
    + inversion Hnd; subst. constructor.
      * rewrite in_app_iff. simpl. intros [H | [H | []]]; [tauto |]. apply Hn. now left.
      * apply IH; [assumption | tauto].
  - intros r Hr. apply in_app_or in Hr. destruct Hr as [Hr | [<- | []]].
    + apply Hb in Hr. lia.
    + lia.
Qed.

Lemma serial_bump {A} (id : A -> Z) rows seq :
  serial_ok id rows seq -> serial_ok id rows (seq + 1).
Proof.
  intros [Hpos [Hnd Hb]]. split; [lia |]. split; [exact Hnd |].
  intros r Hr. apply Hb in Hr. lia.
Qed.

Lemma serial_map {A} (id : A -> Z) (f : A -> A) rows seq :
  (forall r, id (f r) = id r) ->
  serial_ok id rows seq -> serial_ok id (map f rows) seq.
Proof.
  intros Hf [Hpos [Hnd Hb]]. split; [exact Hpos |]. split.
  - rewrite map_map. erewrite map_ext; [exact Hnd | exact Hf].
  - intros r Hr. apply in_map_iff in Hr. destruct Hr as [r0 [<- Hr0]].
    rewrite Hf. now apply Hb.
Qed.

Lemma serial_do_nothing {A} (id : A -> Z) rows seq x :
  serial_ok id rows seq -> id x = seq ->
  serial_ok id (if existsb (fun r => Z.eqb (id r) seq) rows then rows
                else rows ++ [x]) (seq + 1).
Proof.
  intros H Hx. destruct (existsb _ rows).
  - now apply serial_bump.
  - now apply serial_append.
Qed.

Lemma serial_upserted {A} (id : A -> Z) (f : A -> A) rows seq x (b : bool) :
  (forall r, id (f r) = id r) -> id x = seq ->
  serial_ok id rows seq ->
  serial_ok id (if b then map f rows else rows ++ [x]) (seq + 1).
Proof.
  intros Hf Hx H. destruct b.
  - apply serial_bump. now apply serial_map.
  - now apply serial_append.
Qed.

Lemma keys_ok_upsert_legislator l t db :
  keys_ok db -> keys_ok (fst (Sql.upsert_legislator l t db)).
Proof.
  intros [Hul [Hub [Hl [Hb [Ha [Hh Hs]]]]]].
  refine (conj _ (conj Hub (conj _ (conj Hb (conj Ha (conj Hh Hs)))))).
  - unfold unique_legislators in *. rewrite legislators_after_upsert.
    destruct (existsb _ (legislators db)) eqn:Hex.
    + rewrite (keyed_update_keys lr_openstates_id (l_id l) (legislator_updated l t));
        [exact Hul | reflexivity].
    + apply keyed_append_nodup; [exact Hul | exact Hex].
  - rewrite legislators_after_upsert.
    apply (serial_upserted lr_id
             (fun r => if String.eqb (lr_openstates_id r) (l_id l)
                       then legislator_updated l t r else r)
             (legislators db) (legislators_seq db) (legislator_inserted l t db));
      [| reflexivity | exact Hl].
    intros r. now destruct (String.eqb (lr_openstates_id r) (l_id l)).
Qed.

Lemma keys_ok_upsert_bill stage bill t db :
  keys_ok db -> keys_ok (fst (Sql.upsert_bill stage bill t db)).
Proof.
  intros [Hul [Hub [Hl [Hb [Ha [Hh Hs]]]]]].
  refine (conj Hul (conj _ (conj Hl (conj _ (conj Ha (conj Hh Hs)))))).
  - unfold unique_bills in *. rewrite bills_after_upsert_table.
    destruct (existsb _ (bills db)) eqn:Hex.
    + rewrite (keyed_update_keys br_openstates_id (b_id bill)
                 (bill_updated stage bill t)); [exact Hub | reflexivity].
    + apply keyed_append_nodup; [exact Hub | exact Hex].
  - rewrite bills_after_upsert_table.
    apply (serial_upserted br_id
             (fun r => if String.eqb (br_openstates_id r) (b_id bill)
                       then bill_updated stage bill t r else r));
      [| reflexivity | exact Hb].
    intros r. now destruct (String.eqb (br_openstates_id r) (b_id bill)).
Qed.

Lemma keys_ok_insert_history bill_id stage status previous t db :
  keys_ok db -> keys_ok (fst (Sql.insert_history bill_id stage status previous t db)).
Proof.
  intros [Hul [Hub [Hl [Hb [Ha [Hh Hs]]]]]].
  refine (conj Hul (conj Hub (conj Hl (conj Hb (conj Ha (conj _ Hs)))))).
  apply (serial_append hr_id _ _ _ Hh). reflexivity.
Qed.

Lemma keys_ok_insert_action bill_id a i t db :
  keys_ok db -> keys_ok (fst (Sql.insert_action bill_id a i t db)).
Proof.
  intros [Hul [Hub [Hl [Hb [Ha [Hh Hs]]]]]].
  refine (conj Hul (conj Hub (conj Hl (conj Hb (conj _ (conj Hh Hs)))))).
  apply (serial_do_nothing ar_id _ _ _ Ha). reflexivity.
Qed.

Lemma keys_ok_insert_sponsorship bill_id lid sp t db :
  keys_ok db -> keys_ok (fst (Sql.insert_sponsorship bill_id lid sp t db)).
Proof.
  intros [Hul [Hub [Hl [Hb [Ha [Hh Hs]]]]]].
  refine (conj Hul (conj Hub (conj Hl (conj Hb (conj Ha (conj Hh _)))))).
  apply (serial_do_nothing sr_id _ _ _ Hs). reflexivity.
Qed.

Lemma keys_ok_sync_bill env bill : runs (sync_bill env bill) (keeps_db keys_ok).
Proof.
  unfold sync_bill.
  runs_steps (keeps_db_skip keys_ok) (keeps_db_seq keys_ok)
    ltac:(apply pool_query_keeps_db;
          first [ apply keys_ok_upsert_bill
                | apply keys_ok_insert_history
                | apply keys_ok_insert_action
                | apply keys_ok_insert_sponsorship
                | intros t db Hdb; exact Hdb ]).
Qed.

Lemma keys_ok_schema t0 : keys_ok (schema_db t0).
Proof.
  unfold keys_ok, unique_legislators, unique_bills, serial_ok. simpl.
  repeat split; try lia; try constructor; intros r [].
Qed.

(** Property X9. A run keeps the key constraints of the schema, whatever the API
    answers and whichever queries are rejected: no two legislators and no
    two bills share an [openstates_id], and in each of the five tables the
    ids are distinct, positive and below the table's sequence; so the
    [INSERT]s of the script never hit a duplicate primary key. *)
Theorem run_keeps_keys :
  forall env fuel w,
    keys_ok (w_db w) -> keys_ok (w_db (snd (runSync env fuel w))).
Proof.
  intros env fuel w.
  apply (runSync_keeps_db keys_ok keys_ok_upsert_legislator keys_ok_sync_bill).
  - intros sync_type total t db H. exact H.
  - intros sync_type msg t db H. exact H.
Qed.

Lemma run_keeps_keys_witness :
  keys_ok (w_db (snd (runSync env_sponsored enough_fuel (start (schema_db 0))))).
Proof.
  apply (run_keeps_keys env_sponsored enough_fuel (start (schema_db 0))).
  apply keys_ok_schema.
Defined.

(* --------------------------------------------------------------------- *)
(** *** References *)

Lemma bill_ids_after_upsert stage bill t db id :
  In id (map br_id (bills db)) ->
  In id (map br_id (bills (fst (Sql.upsert_bill stage bill t db)))).
Proof.
  rewrite bills_after_upsert_table. destruct (existsb _ (bills db)).
  - rewrite map_map. erewrite map_ext; [intros H; exact H |].
    intros r. simpl. now destruct (String.eqb (br_openstates_id r) (b_id bill)).
  - intros H. rewrite map_app. apply in_or_app. now left.
Qed.

Lemma legislator_ids_after_upsert l t db id :
  In id (map lr_id (legislators db)) ->
  In id (map lr_id (legislators (fst (Sql.upsert_legislator l t db)))).
Proof.
  rewrite legislators_after_upsert. destruct (existsb _ (legislators db)).
  - rewrite map_map. erewrite map_ext; [intros H; exact H |].
    intros r. simpl. now destruct (String.eqb (lr_openstates_id r) (l_id l)).
  - intros H. rewrite map_app. apply in_or_app. now left.
Qed.

Lemma references_ok_upsert_legislator l t db :
  references_ok db -> references_ok (fst (Sql.upsert_legislator l t db)).
Proof.
  intros [Ha [Hh Hs]]. refine (conj Ha (conj Hh _)).
  intros r Hr. destruct (Hs r Hr) as [Hb Hl]. split; [exact Hb |].
  intros id Hid. apply legislator_ids_after_upsert. now apply Hl.
Qed.

Lemma references_ok_upsert_bill stage bill t db :
  references_ok db ->
  references_with (fst (snd (Sql.upsert_bill stage bill t db)))
                  (fst (Sql.upsert_bill stage bill t db)).
Proof.
  intros [Ha [Hh Hs]]. split.
  - split; [| split].
    + intros r Hr. apply bill_ids_after_upsert. now apply Ha.
    + intros r Hr. apply bill_ids_after_upsert. now apply Hh.
    + intros r Hr. destruct (Hs r Hr) as [Hb Hl]. split; [| exact Hl].
      now apply bill_ids_after_upsert.
  - destruct (upsert_bill_row stage bill t db) as [r [Hr [_ Hid]]].
    rewrite <- Hid. now apply in_map.
Qed.

Lemma references_with_insert_history id stage status previous t db :
  references_with id db ->
  references_with id (fst (Sql.insert_history id stage status previous t db)).
Proof.
  intros [[Ha [Hh Hs]] Hid]. split; [| exact Hid].
  refine (conj Ha (conj _ Hs)).
  intros r Hr. simpl in Hr. apply in_app_or in Hr.
  destruct Hr as [Hr | [<- | []]]; [now apply Hh | exact Hid].
Qed.

Lemma references_with_insert_action id a i t db :
  references_with id db ->
  references_with id (fst (Sql.insert_action id a i t db)).
Proof.
  intros [[Ha [Hh Hs]] Hid]. split; [| exact Hid].
  refine (conj _ (conj Hh Hs)).
  intros r Hr. simpl in Hr.
  destruct (existsb _ (bill_actions db)); [now apply Ha |].
  apply in_app_or in Hr. destruct Hr as [Hr | [<- | []]]; [now apply Ha | exact Hid].
Qed.

Lemma references_with_insert_sponsorship id pick name sp t1 t2 db :
  references_with id db ->
  references_with id
    (fst (Sql.insert_sponsorship id (snd (Sql.select_legislator pick name t1 db)) sp t2 db)).
Proof.
  intros [[Ha [Hh Hs]] Hid]. split; [| exact Hid].
  refine (conj Ha (conj Hh _)).
  pose proof (select_legislator_found pick name t1 db) as Hsel.
  destruct (snd (Sql.select_legislator pick name t1 db)) as [chosen |].
  - intros r Hr. simpl in Hr.
    destruct (existsb _ (sponsorships db)); [now apply Hs |].
    apply in_app_or in Hr. destruct Hr as [Hr | [<- | []]]; [now apply Hs |].
    split; [exact Hid |]. simpl. intros lid Hlid. injection Hlid as <-.
    destruct Hsel as [l [Hin [_ <-]]]. now apply in_map.
  - intros r Hr. simpl in Hr.
    destruct (existsb _ (sponsorships db)); [now apply Hs |].
    apply in_app_or in Hr. destruct Hr as [Hr | [<- | []]]; [now apply Hs |].
    split; [exact Hid |]. simpl. intros lid Hlid. discriminate Hlid.
Qed.

Lemma sponsor_step_references env id sponsor :
  runs (legislatorId <- pool_query env (QSelectLegislator (sp_name sponsor))
                          (Sql.select_legislator (first_row env) (sp_name sponsor)) ;;
        pool_query env (QInsertSponsorship id)
                   (Sql.insert_sponsorship id legislatorId sponsor))
       (keeps_db (references_with id)).
Proof.
  intros w Href. rewrite bind_run.
  destruct (pool_query_ending env (QSelectLegislator (sp_name sponsor))
              (Sql.select_legislator (first_row env) (sp_name sponsor)) w)
    as [[lid [w1 Hq]] | [msg [w1 Hq]]]; rewrite Hq.
  - apply pool_query_returns in Hq. destruct Hq as [_ [Hlid Hw1]].
    destruct (pool_query_ending env (QInsertSponsorship id)
                (Sql.insert_sponsorship id lid sponsor) w1)
      as [[[] [w2 Hq2]] | [msg [w2 Hq2]]]; rewrite Hq2; cbn [fst snd].
    + apply pool_query_returns in Hq2. destruct Hq2 as [_ [_ Hw2]].
      rewrite Hw2, Hw1, Hlid.
      exact (references_with_insert_sponsorship id (first_row env) (sp_name sponsor) sponsor
               (now env (w_queries w)) _ (w_db w) Href).
    + apply pool_query_throws in Hq2. destruct Hq2 as [_ ->].
      rewrite Hw1. exact Href.
  - apply pool_query_throws in Hq. destruct Hq as [_ ->]. exact Href.
Qed.

(** As [runs_steps], trying the given rule on a statement before taking the
    statement apart. *)
Ltac runs_steps_whole skip seq prim :=
  repeat first
    [ prim
    | apply (runs_ret _ skip)
    | apply (runs_bind _ seq); [| intro]
    | apply (runs_for_of _ skip seq); intros
    | apply (runs_for_index _ skip seq); intros
    | apply runs_if
    | match goal with
      | |- runs (match ?x with _ => _ end) _ => destruct x
      end ].

Lemma references_ok_sync_bill env bill :
  runs (sync_bill env bill) (keeps_db references_ok).
Proof.
  intros w Href. unfold sync_bill. rewrite bind_run.
  destruct (pool_query_ending env (QUpsertBill (b_id bill))
              (Sql.upsert_bill (determineBillStage bill) bill) w)
    as [[[billId oldStage] [w1 Hq]] | [msg [w1 Hq]]]; rewrite Hq.
  - apply pool_query_returns in Hq. destruct Hq as [_ [Hres Hw1]].
    assert (Hwith : references_with billId (w_db w1)).
    { rewrite Hw1. cbn [w_db].
      replace billId with (fst (snd (Sql.upsert_bill (determineBillStage bill) bill
                                       (now env (w_queries w)) (w_db w))))
        by (rewrite <- Hres; reflexivity).
      now apply references_ok_upsert_bill. }
    cbn [fst snd].
    match goal with
    | |- references_ok (w_db (snd (?m w1))) =>
        assert (Hrest : runs m (keeps_db (references_with billId)))
    end.
    { runs_steps_whole (keeps_db_skip (references_with billId))
        (keeps_db_seq (references_with billId))
        ltac:(first
                [ apply sponsor_step_references
                | apply pool_query_keeps_db;
                  first [ apply references_with_insert_history
                        | apply references_with_insert_action ] ]). }
    apply (Hrest w1 Hwith).
  - apply pool_query_throws in Hq. destruct Hq as [_ ->]. exact Href.
Qed.

Lemma references_ok_schema t0 : references_ok (schema_db t0).
Proof. unfold references_ok. simpl. split; [| split]; intros r []. Qed.

(** Property X10. A run keeps the references of the schema, whatever the API answers and
    whichever queries are rejected: every action, history and sponsorship
    row points to a stored bill, and every sponsorship with a legislator id
    points to a stored legislator. *)
Theorem run_keeps_references :
  forall env fuel w,
    references_ok (w_db w) -> references_ok (w_db (snd (runSync env fuel w))).
Proof.
  intros env fuel w.
  apply (runSync_keeps_db references_ok references_ok_upsert_legislator
           references_ok_sync_bill).
  - intros sync_type total t db H. exact H.
  - intros sync_type msg t db H. exact H.
Qed.

Lemma run_keeps_references_witness :
  references_ok (w_db (snd (runSync env_sponsored enough_fuel (start (schema_db 0))))).
Proof.
  apply (run_keeps_references env_sponsored enough_fuel (start (schema_db 0))).
  apply references_ok_schema.
Defined.


(* ===================================================================== *)
(** ** More on the Stage Classifier *)
(* ===================================================================== *)

Lemma filter_Boolean_perm (l l' : list (option string)) :
  Permutation l l' -> Permutation (JS.filter_Boolean l) (JS.filter_Boolean l').
Proof.
  induction 1 as [| x l l' _ IH | x y l | l1 l2 l3 _ IH1 _ IH2]; simpl.
  - constructor.
  - destruct x as [s |]; [destruct (String.eqb s "") |]; auto.
  - destruct x as [s |], y as [s' |];
      try destruct (String.eqb s ""); try destruct (String.eqb s' "");
      try apply Permutation_refl; apply perm_swap.
  - eapply Permutation_trans; eassumption.
Qed.

Lemma actionTypes_perm (actions actions' : list Action) :
  Permutation actions actions' ->
  Permutation (actionTypes actions) (actionTypes actions').
Proof.
  intros H. unfold actionTypes. apply filter_Boolean_perm. now apply Permutation_map.
Qed.

Lemma includes_perm (l l' : list string) (t : string) :
  Permutation l l' -> JS.includes l t = JS.includes l' t.
Proof.
  intros H. destruct (JS.includes l' t) eqn:H'.
  - apply includes_In. apply includes_In in H'.
    eapply Permutation_in; [apply Permutation_sym; exact H | exact H'].
  - apply includes_not_In. apply includes_not_In in H'. intros Hin. apply H'.
    eapply Permutation_in; [exact H | exact Hin].
Qed.

Lemma passageActions_perm (actions actions' : list Action) :
  Permutation actions actions' ->
  length (passageActions actions) = length (passageActions actions').
Proof.
  intros H. unfold passageActions. apply Permutation_length.
  induction H as [| x l l' _ IH | x y l | l1 l2 l3 _ IH1 _ IH2]; simpl.
  - constructor.
  - destruct (has_passage x); auto.
  - destruct (has_passage x), (has_passage y);
      try apply Permutation_refl; apply perm_swap.
  - eapply Permutation_trans; eassumption.
Qed.

(** Property X11. The stage does not depend on the order of the actions: two records
    with the same actions in a different order (and the same latest action
    description, which the servers' classifier may read) get the same stage
    from either classifier. *)
Theorem stage_ignores_action_order :
  forall bill bill' actions actions',
    b_actions bill = Some actions ->
    b_actions bill' = Some actions' ->
    Permutation actions actions' ->
    b_latest_action_description bill = b_latest_action_description bill' ->
    determineBillStage bill = determineBillStage bill' /\
    Server.determineBillStage bill = Server.determineBillStage bill'.
Proof.
  intros bill bill' actions actions' Hb Hb' Hperm Hdesc.
  pose proof (actionTypes_perm _ _ Hperm) as Htypes.
  pose proof (passageActions_perm _ _ Hperm) as Hpass.
  unfold determineBillStage, Server.determineBillStage.
  rewrite Hb, Hb', Hdesc.
  destruct actions as [| a rest].
  - apply Permutation_nil in Hperm. subst actions'. split; reflexivity.
  - destruct actions' as [| a' rest'].
    + apply Permutation_sym, Permutation_nil in Hperm. discriminate.
    + rewrite !(includes_perm _ _ _ Htypes), Hpass. split; reflexivity.
Qed.

Lemma stage_ignores_action_order_witness :
  determineBillStage bill_vetoed_then_law = determineBillStage bill_law_then_vetoed /\
  Server.determineBillStage bill_vetoed_then_law =
  Server.determineBillStage bill_law_then_vetoed.
Proof.
  apply (stage_ignores_action_order bill_vetoed_then_law bill_law_then_vetoed
           [tagged ["executive-veto"]; tagged ["became-law"]]
           [tagged ["became-law"]; tagged ["executive-veto"]]).
  - reflexivity.
  - reflexivity.
  - apply perm_swap.
  - reflexivity.
Defined.

Lemma primary_tag_includes (t : string) (actions : list Action) :
  t <> "" ->
  (JS.includes (actionTypes actions) t = true <-> primary_tag t actions).
Proof.
  intros Ht. rewrite includes_In. split.
  - apply actionTypes_primary_tag.
  - now apply primary_tag_actionTypes.
Qed.

Lemma no_primary_tag_nil t : ~ primary_tag t [].
Proof. intros [a [rest [[] _]]]. Qed.

(** Property X12. In the sync script the three terminal stages are reported exactly on
    their tags: [signed] if and only if some action has executive-signature
    as its first tag; [vetoed] if and only if one has executive-veto and none
    executive-signature; [became_law] if and only if one has became-law and
    none has either of the other two. *)
Theorem terminal_stage_iff_tag :
  forall bill,
    (determineBillStage bill = "signed" <->
     primary_tag "executive-signature" (actions_of bill)) /\
    (determineBillStage bill = "vetoed" <->
     primary_tag "executive-veto" (actions_of bill) /\
     ~ primary_tag "executive-signature" (actions_of bill)) /\
    (determineBillStage bill = "became_law" <->
     primary_tag "became-law" (actions_of bill) /\
     ~ primary_tag "executive-veto" (actions_of bill) /\
     ~ primary_tag "executive-signature" (actions_of bill)).
Proof.
  intros bill. unfold determineBillStage, actions_of.
  destruct (b_actions bill) as [[| a rest] |].
  - pose proof (no_primary_tag_nil "executive-signature").
    pose proof (no_primary_tag_nil "executive-veto").
    pose proof (no_primary_tag_nil "became-law").
    intuition discriminate.
  - rewrite <- !(primary_tag_includes _ (a :: rest)) by discriminate.
    destruct (JS.includes (actionTypes (a :: rest)) "executive-signature");
      destruct (JS.includes (actionTypes (a :: rest)) "executive-veto");
      destruct (JS.includes (actionTypes (a :: rest)) "became-law");
      repeat match goal with
             | |- context [if ?b then _ else _] => destruct b
             end;
      repeat split; try discriminate; try reflexivity; try tauto;
      intros; intuition discriminate.
  - pose proof (no_primary_tag_nil "executive-signature").
    pose proof (no_primary_tag_nil "executive-veto").
    pose proof (no_primary_tag_nil "became-law").
    intuition discriminate.
Qed.

(** Property X13. The two copies of the classifier agree on every bill that has one of
    the eight tags the sync script knows as a primary tag and does not have
    committee-referral as one. *)
Theorem classifiers_agree_on_known_tags :
  forall bill,
    (exists t, In t sync_recognized /\ primary_tag t (actions_of bill)) ->
    ~ primary_tag "committee-referral" (actions_of bill) ->
    Server.determineBillStage bill = determineBillStage bill.
Proof.
  intros bill [t [Ht Hp]] Hno.
  unfold determineBillStage, Server.determineBillStage, actions_of in *.
  destruct (b_actions bill) as [[| a rest] |]; try reflexivity.
  assert (Hcr : JS.includes (actionTypes (a :: rest)) "committee-referral" = false).
  { apply includes_not_In. intros H. apply Hno. now apply actionTypes_primary_tag. }
  assert (Hsome : JS.includes (actionTypes (a :: rest)) t = true).
  { apply includes_In. apply primary_tag_actionTypes; [| exact Hp].
    unfold sync_recognized in Ht. simpl in Ht.
    repeat (destruct Ht as [<- | Ht]; [discriminate |]). contradiction. }
  rewrite Hcr.
  unfold sync_recognized in Ht. simpl in Ht.
  destruct (JS.includes (actionTypes (a :: rest)) "executive-signature") eqn:H1;
    [reflexivity |].
  destruct (JS.includes (actionTypes (a :: rest)) "executive-veto") eqn:H2;
    [reflexivity |].
  destruct (JS.includes (actionTypes (a :: rest)) "became-law") eqn:H3;
    [reflexivity |].
  destruct (JS.includes (actionTypes (a :: rest)) "passage") eqn:H4;
    [reflexivity |].
  destruct (JS.includes (actionTypes (a :: rest)) "committee-passage") eqn:H5;
    [reflexivity |].
  destruct (JS.includes (actionTypes (a :: rest)) "referral-committee") eqn:H6;
    [reflexivity |]. simpl orb. cbv iota.
  destruct (JS.includes (actionTypes (a :: rest)) "reading-3") eqn:H7;
    [reflexivity |].
  destruct (JS.includes (actionTypes (a :: rest)) "introduction") eqn:H8;
    [reflexivity |].
  exfalso.
  repeat (destruct Ht as [<- | Ht]; [congruence |]). contradiction.
Qed.

Lemma classifiers_agree_on_known_tags_witness :
  Server.determineBillStage bill_two_passages = determineBillStage bill_two_passages.
Proof.
  apply (classifiers_agree_on_known_tags bill_two_passages).
  - exists "passage". split.
    + unfold sync_recognized. simpl. tauto.
    + exists (tagged ["passage"]), []. split; [left; reflexivity | reflexivity].
  - intros [a [rest [Hin Hc]]]. simpl in Hin.
    destruct Hin as [<- | [<- | []]]; discriminate Hc.
Defined.

Lemma terminal_stage_iff_tag_witness :
  determineBillStage bill_vetoed_then_law = "vetoed".
Proof.
  apply (proj2 (proj1 (proj2 (terminal_stage_iff_tag bill_vetoed_then_law)))).
  split.
  - exists (tagged ["executive-veto"]), []. split; [left; reflexivity | reflexivity].
  - intros [a [rest [Hin Hc]]]. simpl in Hin.
    destruct Hin as [<- | [<- | []]]; discriminate Hc.
Defined.


(* ===================================================================== *)
(** ** Statistics of the servers *)
(* ===================================================================== *)

Lemma server_stage_cases (b : Bill) :
  let s := Server.determineBillStage b in
  s <> "dead" /\
  (JS.includes ["signed"; "became_law"; "vetoed"; "dead"] s = false /\
   JS.includes ["signed"; "became_law"] s = false /\ String.eqb s "vetoed" = false \/
   JS.includes ["signed"; "became_law"; "vetoed"; "dead"] s = true /\
   JS.includes ["signed"; "became_law"] s = true /\ String.eqb s "vetoed" = false \/
   JS.includes ["signed"; "became_law"; "vetoed"; "dead"] s = true /\
   JS.includes ["signed"; "became_law"] s = false /\ String.eqb s "vetoed" = true).
Proof.
  intros s. pose proof (server_determineBillStage_stages b) as H. fold s in H.
  unfold stages in H. simpl in H.
  repeat (destruct H as [<- | H];
          [split; [discriminate | vm_compute; tauto] |]).
  contradiction.
Qed.

Lemma summary_partition (bills : list Bill) :
  Stats.count (fun b => negb (JS.includes ["signed"; "became_law"; "vetoed"; "dead"]
                                          (Server.determineBillStage b))) bills +
  Stats.count (fun b => JS.includes ["signed"; "became_law"]
                                    (Server.determineBillStage b)) bills +
  Stats.count (fun b => String.eqb (Server.determineBillStage b) "vetoed") bills =
  Z.of_nat (length bills).
Proof.
  unfold Stats.count. induction bills as [| b bills IH]; [reflexivity |].
  cbn [filter length].
  destruct (server_stage_cases b) as [_ [[H1 [H2 H3]] | [[H1 [H2 H3]] | [H1 [H2 H3]]]]];
    rewrite H1, H2, H3; cbn [negb length]; lia.
Qed.

Lemma house_not_senate (b : Bill) :
  andb (Stats.identifier_starts "HB" b) (Stats.identifier_starts "SB" b) = false.
Proof.
  unfold Stats.identifier_starts. destruct (b_identifier b) as [| c rest].
  - reflexivity.
  - cbn [JS.starts_with].
    destruct (Ascii.eqb "H" c) eqn:Hh; [| reflexivity].
    destruct (Ascii.eqb "S" c) eqn:Hs; [| apply andb_false_r].
    apply Ascii.eqb_eq in Hh, Hs. congruence.
Qed.

Lemma disjoint_counts {A} (p q : A -> bool) (l : list A) :
  (forall x, andb (p x) (q x) = false) ->
  Stats.count p l + Stats.count q l <= Z.of_nat (length l).
Proof.
  intros H. unfold Stats.count. induction l as [| x l IH]; [simpl; lia |].
  cbn [filter length]. specialize (H x).
  destruct (p x), (q x); try discriminate; cbn [length]; lia.
Qed.

Lemma chamber_counts (bills : list Bill) :
  Stats.count (Stats.identifier_starts "HB") bills +
  Stats.count (Stats.identifier_starts "SB") bills <= Z.of_nat (length bills).
Proof. apply disjoint_counts. apply house_not_senate. Qed.

(** Property X14. The summary counts partition the bills: every bill is counted in
    exactly one of active, passed and vetoed, so the three add up to the
    number of bills examined (which in [server.js] is the fetched page, not
    [total_bills] when the API reports more); and no bill is counted both as
    a House and as a Senate bill. *)
Theorem summary_counts_partition :
  forall total_items bills,
    let s := Stats.summary total_items bills in
    let e := Stats.summary_enhanced bills in
    Stats.active_bills s + Stats.passed_bills s + Stats.vetoed_bills s =
      Z.of_nat (length bills) /\
    Stats.house_bills s + Stats.senate_bills s <= Z.of_nat (length bills) /\
    Stats.active_bills e + Stats.passed_bills e + Stats.vetoed_bills e =
      Stats.total_bills e /\
    Stats.house_bills e + Stats.senate_bills e <= Stats.total_bills e.
Proof.
  intros total_items bills. cbn [Stats.summary Stats.summary_enhanced
    Stats.active_bills Stats.passed_bills Stats.vetoed_bills Stats.house_bills
    Stats.senate_bills Stats.total_bills].
  pose proof (summary_partition bills). pose proof (chamber_counts bills).
  repeat split; lia.
Qed.

Section KeyedFold.

Context {V : Type}.
Variable step : Bill -> V -> V.
Variable missing : V.

Let fold (bills : list Bill) (table : list (string * V)) : list (string * V) :=
  fold_left
    (fun t bill =>
       let stage := Server.determineBillStage bill in
       if Stats.hasOwnProperty t stage then Stats.update t stage (step bill) else t)
    bills table.

Lemma update_keys (t : list (string * V)) s g : map fst (Stats.update t s g) = map fst t.
Proof.
  unfold Stats.update. rewrite map_map. apply map_ext. intros [k v]. simpl.
  now destruct (String.eqb k s).
Qed.

Lemma get_update (t : list (string * V)) s g k :
  Stats.get (Stats.update t s g) k missing =
  if andb (String.eqb k s) (Stats.hasOwnProperty t k)
  then g (Stats.get t k missing) else Stats.get t k missing.
Proof.
  unfold Stats.get, Stats.update, Stats.hasOwnProperty.
  induction t as [| [k0 v0] t IH]; cbn [map find existsb fst snd].
  - now rewrite andb_false_r.
  - destruct (String.eqb k0 s) eqn:H0s; cbn [fst snd].
    + destruct (String.eqb k0 k) eqn:H0k.
      * apply String.eqb_eq in H0s, H0k. subst s k.
        rewrite String.eqb_refl. reflexivity.
      * rewrite IH. cbn [orb]. reflexivity.
    + destruct (String.eqb k0 k) eqn:H0k.
      * apply String.eqb_eq in H0k. subst k. rewrite H0s. reflexivity.
      * rewrite IH. cbn [orb]. reflexivity.
Qed.

Lemma hasOwnProperty_keys (t : list (string * V)) k :
  Stats.hasOwnProperty t k = true <-> In k (map fst t).
Proof.
  unfold Stats.hasOwnProperty. rewrite existsb_exists, in_map_iff. split.
  - intros [p [Hp He]]. apply String.eqb_eq in He. exists p. auto.
  - intros [p [He Hp]]. exists p. split; [exact Hp |]. now apply String.eqb_eq.
Qed.

Lemma hasOwnProperty_update (t : list (string * V)) s g k :
  Stats.hasOwnProperty (Stats.update t s g) k = Stats.hasOwnProperty t k.
Proof.
  destruct (Stats.hasOwnProperty t k) eqn:H.
  - apply hasOwnProperty_keys. rewrite update_keys. now apply hasOwnProperty_keys.
  - destruct (Stats.hasOwnProperty (Stats.update t s g) k) eqn:H'; [| reflexivity].
    apply hasOwnProperty_keys in H'. rewrite update_keys in H'.
    apply hasOwnProperty_keys in H'. congruence.
Qed.

Lemma fold_keys bills : forall t, map fst (fold bills t) = map fst t.
Proof.
  unfold fold. induction bills as [| b bills IH]; intros t; simpl; [reflexivity |].
  rewrite IH. destruct (Stats.hasOwnProperty t _); [apply update_keys | reflexivity].
Qed.

Lemma fold_get bills :
  forall t k,
    Stats.hasOwnProperty t k = true ->
    Stats.get (fold bills t) k missing =
    fold_left (fun v b => step b v) (Stats.in_stage k bills) (Stats.get t k missing).
Proof.
  unfold fold, Stats.in_stage.
  induction bills as [| b bills IH]; intros t k Hk; simpl; [reflexivity |].
  destruct (String.eqb_spec (Server.determineBillStage b) k) as [He | Hne].
  - rewrite He, Hk. simpl. rewrite IH by (now rewrite hasOwnProperty_update).
    rewrite get_update, String.eqb_refl, Hk. reflexivity.
  - destruct (Stats.hasOwnProperty t (Server.determineBillStage b)).
    + rewrite IH by (now rewrite hasOwnProperty_update).
      rewrite get_update.
      destruct (String.eqb_spec k (Server.determineBillStage b)) as [He | _];
        [congruence | reflexivity].
    + now apply IH.
Qed.

End KeyedFold.

Lemma sum_update_one (t : list (string * Z)) s :
  NoDup (map fst t) -> In s (map fst t) ->
  sum_Z (map snd (Stats.update t s (fun n => n + 1))) = sum_Z (map snd t) + 1.
Proof.
  unfold Stats.update. induction t as [| [k v] t IH]; simpl; intros Hnd Hin.
  - contradiction.
  - inversion Hnd as [| ? ? Hk Hnd']; subst.
    destruct (String.eqb_spec k s) as [-> | Hne]; simpl.
    + rewrite map_unchanged; [lia |].
      intros [k' v'] Hp. simpl.
      destruct (String.eqb_spec k' s) as [-> | _]; [| reflexivity].
      exfalso. apply Hk. apply in_map_iff. exists (s, v'). auto.
    + rewrite IH; [lia | assumption |]. destruct Hin as [H | H]; [congruence | exact H].
Qed.

Lemma stage_is_key (b : Bill) : In (Server.determineBillStage b) Stats.stage_keys.
Proof.
  pose proof (server_determineBillStage_stages b) as H.
  unfold stages in H. unfold Stats.stage_keys. simpl in *. tauto.
Qed.

Lemma stage_keys_nodup : NoDup Stats.stage_keys.
Proof.
  unfold Stats.stage_keys.
  repeat (constructor; [simpl; intuition discriminate |]). constructor.
Qed.

Lemma stageCounts_sum (bills : list Bill) :
  forall t,
    map fst t = Stats.stage_keys ->
    sum_Z (map snd
             (fold_left
                (fun counts bill =>
                   let stage := Server.determineBillStage bill in
                   if Stats.hasOwnProperty counts stage
                   then Stats.update counts stage (fun n => n + 1) else counts)
                bills t)) =
    sum_Z (map snd t) + Z.of_nat (length bills).
Proof.
  induction bills as [| b bills IH]; intros t Hkeys; simpl fold_left.
  - simpl. lia.
  - assert (Hhas : Stats.hasOwnProperty t (Server.determineBillStage b) = true).
    { apply hasOwnProperty_keys. rewrite Hkeys. apply stage_is_key. }
    cbv zeta. rewrite Hhas, IH by (now rewrite update_keys).
    rewrite sum_update_one.
    + cbn [length]. lia.
    + rewrite Hkeys. apply stage_keys_nodup.
    + rewrite Hkeys. apply stage_is_key.
Qed.

Lemma initial_keys {V} (v : V) :
  map fst (map (fun k => (k, v)) Stats.stage_keys) = Stats.stage_keys.
Proof. reflexivity. Qed.

Lemma count_fold (l : list Bill) (z : Z) :
  fold_left (fun (v : Z) (_ : Bill) => v + 1) l z = z + Z.of_nat (length l).
Proof.
  revert z. induction l as [| b l IH]; intros z; simpl fold_left.
  - simpl. lia.
  - rewrite IH. cbn [length]. lia.
Qed.

(** Property X15. The pipeline statistics count every bill once: the counter of each of
    the ten stages is the number of bills the classifier puts in that
    stage, the counters add up to the number of bills, and the counter of
    [dead] is always 0, since the classifier never returns it. *)
Theorem pipeline_counts_every_bill :
  forall bills,
    map fst (Stats.stageCounts bills) = Stats.stage_keys /\
    (forall k, In k Stats.stage_keys ->
       Stats.get (Stats.stageCounts bills) k 0 =
       Z.of_nat (length (Stats.in_stage k bills))) /\
    sum_Z (map snd (Stats.stageCounts bills)) = Z.of_nat (length bills) /\
    Stats.get (Stats.stageCounts bills) "dead" 0 = 0.
Proof.
  intros bills.
  assert (Hget : forall k, In k Stats.stage_keys ->
            Stats.get (Stats.stageCounts bills) k 0 =
            Z.of_nat (length (Stats.in_stage k bills))).
  { intros k Hk. unfold Stats.stageCounts.
    rewrite (fold_get (fun _ n => n + 1) 0 bills).
    - assert (H0 : Stats.get (map (fun k => (k, 0)) Stats.stage_keys) k 0 = 0).
      { unfold Stats.stage_keys in *. simpl in Hk.
        repeat (destruct Hk as [<- | Hk]; [reflexivity |]). contradiction. }
      rewrite H0. rewrite count_fold. lia.
    - apply hasOwnProperty_keys. now rewrite initial_keys. }
  split; [| split; [exact Hget | split]].
  - unfold Stats.stageCounts.
    rewrite (fold_keys (fun _ n => n + 1) bills). apply initial_keys.
  - unfold Stats.stageCounts. rewrite stageCounts_sum.
    + reflexivity.
    + apply initial_keys.
  - rewrite Hget by (unfold Stats.stage_keys; simpl; tauto).
    unfold Stats.in_stage. clear Hget.
    induction bills as [| b bills IH]; [reflexivity |]. simpl.
    destruct (String.eqb_spec (Server.determineBillStage b) "dead") as [He | _].
    + exfalso. exact (stages_not_dead _ (server_determineBillStage_stages b) He).
    + exact IH.
Qed.

Lemma pipeline_counts_every_bill_witness :
  Stats.get (Stats.stageCounts [hb1001; bill_two_passages]) "enrolled" 0 =
  Z.of_nat (length (Stats.in_stage "enrolled" [hb1001; bill_two_passages])).
Proof.
  apply (proj1 (proj2 (pipeline_counts_every_bill [hb1001; bill_two_passages]))).
  unfold Stats.stage_keys. simpl. tauto.
Defined.


(* ===================================================================== *)
(** ** Paging *)
(* ===================================================================== *)

Lemma slice_window {A} (l : list A) (a n : Z) :
  0 <= a -> 0 <= n ->
  Paging.slice l a (a + n) = firstn (Z.to_nat n) (skipn (Z.to_nat a) l).
Proof.
  intros Ha Hn. unfold Paging.slice.
  destruct (Z.ltb_spec a 0) as [Hlt | _]; [lia |].
  destruct (Z.ltb_spec (a + n) 0) as [Hlt | _]; [lia |].
  destruct (Z.le_gt_cases a (Z.of_nat (length l))) as [Hle | Hgt].
  - rewrite (Z.min_l a) by lia.
    destruct (Z.le_gt_cases (a + n) (Z.of_nat (length l))) as [Hle' | Hgt'].
    + rewrite Z.min_l by lia. f_equal. lia.
    + rewrite Z.min_r by lia.
      rewrite !firstn_all2; [reflexivity | |]; rewrite length_skipn; lia.
  - rewrite !Z.min_r by lia. rewrite !skipn_all2 by lia. now rewrite !firstn_nil.
Qed.

Lemma firstn_add_skipn {A} (l : list A) (a b : nat) :
  firstn (a + b) l = firstn a l ++ firstn b (skipn a l).
Proof.
  revert l. induction a as [| a IH]; intros l; simpl; [reflexivity |].
  destruct l as [| x l]; simpl.
  - now rewrite firstn_nil.
  - now rewrite IH.
Qed.

Lemma chunks_concat {A} (l : list A) (s n : nat) :
  concat (map (fun i => firstn s (skipn (i * s) l)) (seq 0 n)) = firstn (n * s) l.
Proof.
  induction n as [| n IH]; [reflexivity |].
  rewrite seq_S, map_app, concat_app, IH. simpl.
  rewrite app_nil_r. rewrite (Nat.add_comm s (n * s)).
  symmetry. apply firstn_add_skipn.
Qed.

Lemma page_range_seq (first : Z) (n : nat) :
  page_range first n = map (fun i => first + Z.of_nat i) (seq 0 n).
Proof.
  revert first. induction n as [| n IH]; intros first; [reflexivity |].
  simpl page_range. rewrite IH. simpl. rewrite Z.add_0_r. f_equal.
  rewrite <- seq_shift, map_map. apply map_ext. intros i. lia.
Qed.

Lemma paginate_results {A} (pageNum requested : Z) (l : list A) :
  1 <= pageNum -> 1 <= requested ->
  fst (Paging.paginate pageNum requested l) =
  firstn (Z.to_nat (Z.min requested 20))
         (skipn (Z.to_nat (pageNum - 1) * Z.to_nat (Z.min requested 20)) l).
Proof.
  intros Hp Hr. unfold Paging.paginate. cbn [fst].
  rewrite slice_window by nia. f_equal. f_equal.
  rewrite Z2Nat.inj_mul by lia. reflexivity.
Qed.

(** Property X17. For a page number and a page size of at least 1 the handler returns
    the window of at most 20 bills that the page number selects; it reports
    the number of pages as the number of bills divided by the page size
    (the size asked for, at most 20), rounded up: the least number of pages
    of that size that hold all bills; the pages 1 to that number, put
    together, are exactly the list, and any later page is empty. *)
Theorem pages_cover_the_list :
  forall (A : Type) (requested : Z) (l : list A),
    1 <= requested ->
    exists total,
      (forall pageNum, 1 <= pageNum ->
         Paging.total_pages (snd (Paging.paginate pageNum requested l)) = Some total /\
         Z.of_nat (length (fst (Paging.paginate pageNum requested l))) <= 20 /\
         (total < pageNum -> fst (Paging.paginate pageNum requested l) = [])) /\
      (total - 1) * Z.min requested 20 < Z.of_nat (length l)
        <= total * Z.min requested 20 /\
      0 <= total /\
      concat (map (fun pageNum => fst (Paging.paginate pageNum requested l))
                  (page_range 1 (Z.to_nat total))) = l.
Proof.
  intros A requested l Hr.
  set (s := Z.min requested 20).
  assert (Hs : 1 <= s <= 20) by (unfold s; lia).
  set (len := Z.of_nat (length l)).
  exists (- ((- len) / s)).
  assert (Hceil : len <= (- ((- len) / s)) * s < len + s).
  { pose proof (Z.div_mod (- len) s ltac:(lia)) as Hdm.
    pose proof (Z.mod_pos_bound (- len) s ltac:(lia)) as Hb. nia. }
  assert (Hnn : 0 <= - ((- len) / s)) by (unfold len in *; nia).
  split; [| split; [fold s len; nia | split; [exact Hnn |]]].
  - intros pageNum Hp. split; [| split].
    + unfold Paging.paginate, Paging.ceil_div. cbn [snd Paging.total_pages].
      fold s len. destruct (Z.eqb_spec s 0); [lia | reflexivity].
    + rewrite paginate_results by assumption. fold s.
      rewrite length_firstn. lia.
    + intros Hlate. rewrite paginate_results by assumption. fold s.
      rewrite skipn_all2; [apply firstn_nil |]. unfold len in *. nia.
  - rewrite page_range_seq, map_map.
    rewrite (map_ext_in _ (fun i => firstn (Z.to_nat s) (skipn (i * Z.to_nat s) l))).
    + rewrite (chunks_concat l (Z.to_nat s) (Z.to_nat (- ((- len) / s)))).
      apply firstn_all2. unfold len in *. nia.
    + intros i Hi. rewrite paginate_results by lia. fold s.
      f_equal. f_equal. f_equal. lia.
Qed.

Lemma pages_cover_the_list_witness :
  exists total,
    Paging.total_pages (snd (Paging.paginate 1 2 [1; 2; 3; 4; 5])) = Some total /\
    (total - 1) * Z.min 2 20 < Z.of_nat (length [1; 2; 3; 4; 5])
      <= total * Z.min 2 20 /\
    concat (map (fun pageNum => fst (Paging.paginate pageNum 2 [1; 2; 3; 4; 5]))
                (page_range 1 (Z.to_nat total))) = [1; 2; 3; 4; 5].
Proof.
  destruct (pages_cover_the_list Z 2 [1; 2; 3; 4; 5])
    as [total [Hpage [Hceil [_ Hcat]]]].
  - lia.
  - exists total. split; [exact (proj1 (Hpage 1 ltac:(lia))) |].
    split; [exact Hceil | exact Hcat].
Defined.

(** Property X18. The cap of 20 bills per page only binds sizes of 1 and more: a negative
    [per_page] on page 1 makes the handler return every bill but the last
    [-per_page] ones, however many they are. *)
Theorem negative_page_size_lifts_cap :
  forall (A : Type) (requested : Z) (l : list A),
    requested < 0 ->
    fst (Paging.paginate 1 requested l) =
    firstn (Z.to_nat (Z.of_nat (length l) + requested)) l.
Proof.
  intros A requested l Hneg. unfold Paging.paginate, Paging.slice. cbn [fst].
  rewrite (Z.min_l requested 20) by lia.
  replace ((1 - 1) * requested) with 0 by lia.
  destruct (Z.ltb_spec 0 0) as [Hlt | _]; [lia |].
  destruct (Z.ltb_spec (0 + requested) 0) as [_ | Hge]; [| lia].
  rewrite Z.min_l by lia. simpl skipn. f_equal. lia.
Qed.

Lemma negative_page_size_lifts_cap_witness :
  fst (Paging.paginate 1 (-1) (repeat 7 30)) = repeat 7 29.
Proof.
  rewrite (negative_page_size_lifts_cap Z (-1) (repeat 7 30)); [| lia].
  vm_compute. reflexivity.
Defined.


(* ===================================================================== *)
(** ** The bill cache of the enhanced server *)
(* ===================================================================== *)

Lemma fetch_pages_collects env maxPages fuel :
  forall page acc req,
    (Z.to_nat (maxPages - page + 1) < fuel)%nat ->
    exists n,
      Enhanced.fetch_pages env fuel maxPages page acc req =
        Some (acc ++ concat (map (Enhanced.bills_on env) (page_range page n)),
              req ++ page_range page n) /\
      Z.of_nat n <= Z.max 0 (maxPages - page + 1).
Proof.
  induction fuel as [| fuel IH]; intros page acc req Hfuel; [lia |].
  simpl Enhanced.fetch_pages.
  destruct (Z.leb_spec page maxPages) as [Hle | Hgt].
  - assert (Hone : forall bills,
               Enhanced.bills_on env page = bills ->
               acc ++ concat (map (Enhanced.bills_on env) (page_range page 1)) =
               acc ++ bills).
    { intros bills <-. simpl. now rewrite app_nil_r. }
    unfold Enhanced.bills_on in Hone |- *.
    destruct (Enhanced.api env page) as [msg | data] eqn:Hapi.
    + exists 1%nat. split; [| lia].
      rewrite (Hone [] eq_refl), app_nil_r. reflexivity.
    + destruct (length (Enhanced.a_results data) =? 0)%nat eqn:Hlen.
      * exists 1%nat. split; [| lia].
        apply Nat.eqb_eq in Hlen. apply length_zero_iff_nil in Hlen.
        rewrite (Hone _ eq_refl), Hlen, app_nil_r. reflexivity.
      * assert (Hstop : Some (acc ++ Enhanced.a_results data, req ++ [page]) =
                        Some (acc ++ concat (map (Enhanced.bills_on env)
                                                 (page_range page 1)),
                              req ++ page_range page 1)).
        { unfold Enhanced.bills_on. rewrite (Hone _ eq_refl). reflexivity. }
        assert (Hnext : exists n,
                   Enhanced.fetch_pages env fuel maxPages (page + 1)
                     (acc ++ Enhanced.a_results data) (req ++ [page]) =
                   Some (acc ++ concat (map (Enhanced.bills_on env) (page_range page n)),
                         req ++ page_range page n) /\
                   Z.of_nat n <= Z.max 0 (maxPages - page + 1)).
        { destruct (IH (page + 1) (acc ++ Enhanced.a_results data) (req ++ [page]))
            as [n [Hrun Hn]]; [lia |].
          exists (S n). split; [| lia].
          rewrite Hrun. simpl page_range. simpl map. simpl concat.
          unfold Enhanced.bills_on at 2. rewrite Hapi.
          rewrite <- !app_assoc. reflexivity. }
        destruct (Enhanced.a_total_pages data) as [[total |] |].
        -- destruct (total <=? page); [| exact Hnext].
           exists 1%nat. split; [exact Hstop | lia].
        -- exact Hnext.
        -- exists 1%nat. split; [exact Hstop | lia].
  - exists 0%nat. simpl. rewrite !app_nil_r. split; [reflexivity | lia].
Qed.

Lemma fetchAllBills_result env maxPages st :
    exists bills st' n,
      Enhanced.fetchAllBills env maxPages st = Some (bills, st') /\
      Enhanced.requests st' = Enhanced.requests st ++ page_range 1 n /\
      Z.of_nat n <= Z.max 0 maxPages /\
      Enhanced.allBills (Enhanced.statsCache st') = Some bills /\
      (bills = concat (map (Enhanced.bills_on env) (page_range 1 n)) \/
       n = 0%nat /\ Enhanced.allBills (Enhanced.statsCache st) = Some bills).
Proof.
  unfold Enhanced.fetchAllBills.
  destruct (fetch_pages_collects env maxPages (S (Z.to_nat maxPages)) 1 [] [])
    as [n [Hrun Hn]]; [lia |].
  simpl app in Hrun.
  assert (Hmiss : forall st1,
            Enhanced.requests st1 = Enhanced.requests st ->
            exists bills st' n,
              match Enhanced.fetch_pages env (S (Z.to_nat maxPages)) maxPages 1 [] [] with
              | None => None
              | Some (bills, requested) =>
                  Some (bills,
                        Enhanced.mkState
                          (Enhanced.mkCache
                             (Enhanced.summary (Enhanced.statsCache st1))
                             (Enhanced.pipeline (Enhanced.statsCache st1))
                             (Some bills)
                             (Some (Enhanced.clock env (Enhanced.clock_reads st1))))
                          (S (Enhanced.clock_reads st1))
                          (Enhanced.requests st1 ++ requested))
              end = Some (bills, st') /\
              Enhanced.requests st' = Enhanced.requests st ++ page_range 1 n /\
              Z.of_nat n <= Z.max 0 maxPages /\
              Enhanced.allBills (Enhanced.statsCache st') = Some bills /\
              (bills = concat (map (Enhanced.bills_on env) (page_range 1 n)) \/
               n = 0%nat /\ Enhanced.allBills (Enhanced.statsCache st) = Some bills)).
  { intros st1 Hreq. rewrite Hrun. eexists _, _, n.
    split; [reflexivity |]. cbn [Enhanced.requests Enhanced.statsCache Enhanced.allBills].
    rewrite Hreq. split; [reflexivity |]. split; [lia |]. split; [reflexivity |].
    now left. }
  unfold Enhanced.still_fresh.
  destruct (Enhanced.allBills (Enhanced.statsCache st)) as [cached |] eqn:Hc;
    cbn [Enhanced.is_set]; [| now apply Hmiss].
  destruct (Enhanced.lastUpdate (Enhanced.statsCache st)) as [t |];
    [| now apply Hmiss].
  destruct (t =? 0); [now apply Hmiss |].
  destruct (Enhanced.clock env (Enhanced.clock_reads st) - t <? Enhanced.CACHE_DURATION).
  - cbn [Enhanced.statsCache]. rewrite Hc. eexists _, _, 0%nat.
    split; [reflexivity |]. cbn [Enhanced.requests Enhanced.statsCache page_range].
    rewrite app_nil_r. split; [reflexivity |]. split; [lia |].
    split; [exact Hc |]. right. auto.
  - now apply Hmiss.
Qed.

(** Property X19. [fetchAllBills] always answers with a list: on a miss it asks for the
    pages 1 to n, with n at most [maxPages], and returns what those pages
    gave, a failed request counting as an empty last page; on a hit it asks
    for nothing. Either way the list returned is then the cached one. *)
Theorem fetch_all_never_fails :
  forall env maxPages st,
    exists bills st' n,
      Enhanced.fetchAllBills env maxPages st = Some (bills, st') /\
      Enhanced.requests st' = Enhanced.requests st ++ page_range 1 n /\
      Z.of_nat n <= Z.max 0 maxPages /\
      Enhanced.allBills (Enhanced.statsCache st') = Some bills /\
      (bills = concat (map (Enhanced.bills_on env) (page_range 1 n)) \/
       n = 0%nat /\ Enhanced.allBills (Enhanced.statsCache st) = Some bills).
Proof.
  intros env maxPages st. apply fetchAllBills_result.
Qed.

Lemma cache_hit env maxPages st bills t :
  Enhanced.allBills (Enhanced.statsCache st) = Some bills ->
  Enhanced.lastUpdate (Enhanced.statsCache st) = Some t ->
  t <> 0 ->
  Enhanced.clock env (Enhanced.clock_reads st) - t < Enhanced.CACHE_DURATION ->
  Enhanced.fetchAllBills env maxPages st =
  Some (bills, Enhanced.mkState (Enhanced.statsCache st) (S (Enhanced.clock_reads st))
                                (Enhanced.requests st)).
Proof.
  intros Hc Ht Hnz Hfresh. unfold Enhanced.fetchAllBills, Enhanced.still_fresh.
  rewrite Hc, Ht. cbn [Enhanced.is_set].
  destruct (Z.eqb_spec t 0) as [He | _]; [contradiction |].
  destruct (Z.ltb_spec (Enhanced.clock env (Enhanced.clock_reads st) - t)
                       Enhanced.CACHE_DURATION) as [_ | Hge]; [| lia].
  cbn [Enhanced.statsCache]. now rewrite Hc.
Qed.

(** Property X20. A call that follows another within five minutes of the time the first
    one stored is answered from the cache: it returns the same list and asks
    the API for nothing, whatever the API would say by then. *)
Theorem second_fetch_is_cached :
  forall env env' maxPages maxPages' st bills st1 t,
    Enhanced.fetchAllBills env maxPages st = Some (bills, st1) ->
    Enhanced.lastUpdate (Enhanced.statsCache st1) = Some t ->
    t <> 0 ->
    Enhanced.clock env' (Enhanced.clock_reads st1) - t < Enhanced.CACHE_DURATION ->
    exists st2,
      Enhanced.fetchAllBills env' maxPages' st1 = Some (bills, st2) /\
      Enhanced.requests st2 = Enhanced.requests st1 /\
      Enhanced.statsCache st2 = Enhanced.statsCache st1.
Proof.
  intros env env' maxPages maxPages' st bills st1 t Hrun Ht Hnz Hfresh.
  destruct (fetchAllBills_result env maxPages st)
    as [bills0 [st0 [n [Hrun0 [_ [_ [Hcached _]]]]]]].
  rewrite Hrun in Hrun0. injection Hrun0 as <- <-.
  rewrite (cache_hit env' maxPages' st1 bills t Hcached Ht Hnz Hfresh).
  eexists. split; [reflexivity |]. split; reflexivity.
Qed.

Lemma second_fetch_is_cached_witness :
  exists st2,
    Enhanced.fetchAllBills api_offline 10
      (Enhanced.mkState
         (Enhanced.mkCache None None (Some [hb1001]) (Some 1000)) 1 [1]) =
      Some ([hb1001], st2) /\
    Enhanced.requests st2 = [1] /\
    Enhanced.statsCache st2 =
      Enhanced.mkCache None None (Some [hb1001]) (Some 1000).
Proof.
  apply (second_fetch_is_cached api_single_page api_offline 15 10
           server_started [hb1001]
           (Enhanced.mkState
              (Enhanced.mkCache None None (Some [hb1001]) (Some 1000)) 1 [1])
           1000).
  - vm_compute. reflexivity.
  - reflexivity.
  - discriminate.
  - vm_compute. reflexivity.
Defined.

Lemma fetch_keeps_answers env maxPages st bills st1 :
  Enhanced.fetchAllBills env maxPages st = Some (bills, st1) ->
  Enhanced.pipeline (Enhanced.statsCache st1) =
    Enhanced.pipeline (Enhanced.statsCache st) /\
  Enhanced.summary (Enhanced.statsCache st1) =
    Enhanced.summary (Enhanced.statsCache st).
Proof.
  unfold Enhanced.fetchAllBills, Enhanced.still_fresh. intros Hrun.
  assert (Hmiss : forall st0,
            Enhanced.statsCache st0 = Enhanced.statsCache st ->
            match Enhanced.fetch_pages env (S (Z.to_nat maxPages)) maxPages 1 [] [] with
            | None => None
            | Some (bills, requested) =>
                Some (bills,
                      Enhanced.mkState
                        (Enhanced.mkCache
                           (Enhanced.summary (Enhanced.statsCache st0))
                           (Enhanced.pipeline (Enhanced.statsCache st0))
                           (Some bills)
                           (Some (Enhanced.clock env (Enhanced.clock_reads st0))))
                        (S (Enhanced.clock_reads st0))
                        (Enhanced.requests st0 ++ requested))
            end = Some (bills, st1) ->
            Enhanced.pipeline (Enhanced.statsCache st1) =
              Enhanced.pipeline (Enhanced.statsCache st) /\
            Enhanced.summary (Enhanced.statsCache st1) =
              Enhanced.summary (Enhanced.statsCache st)).
  { intros st0 Hsame H.
    destruct (Enhanced.fetch_pages env _ maxPages 1 [] []) as [[bs rq] |];
      [| discriminate].
    injection H as _ <-. cbn. now rewrite Hsame. }
  destruct (Enhanced.allBills (Enhanced.statsCache st)) as [cached |] eqn:Hc;
    cbn [Enhanced.is_set] in Hrun; [| now apply (Hmiss st)].
  destruct (Enhanced.lastUpdate (Enhanced.statsCache st)) as [t |];
    [| now apply (Hmiss st)].
  destruct (t =? 0); [now apply (Hmiss st) |].
  destruct (Enhanced.clock env (Enhanced.clock_reads st) - t <? Enhanced.CACHE_DURATION).
  - cbn [Enhanced.statsCache] in Hrun. rewrite Hc in Hrun.
    injection Hrun as _ <-. cbn. auto.
  - exact (Hmiss (Enhanced.mkState (Enhanced.statsCache st)
                                   (S (Enhanced.clock_reads st))
                                   (Enhanced.requests st)) eq_refl Hrun).
Qed.

(** Property X21. The pipeline answer outlives the bills it was computed from: when the
    bill list is fetched again the stored time is renewed but the cached
    pipeline object is kept, so for the next five minutes
    [GET /api/stats/pipeline] sends the old object, whatever the new list
    holds, and asks the API for nothing. *)
Theorem pipeline_answer_outlives_refetch :
  forall env env' maxPages st old bills st1 t,
    Enhanced.pipeline (Enhanced.statsCache st) = Some old ->
    Enhanced.fetchAllBills env maxPages st = Some (bills, st1) ->
    Enhanced.lastUpdate (Enhanced.statsCache st1) = Some t ->
    t <> 0 ->
    Enhanced.clock env' (Enhanced.clock_reads st1) - t < Enhanced.CACHE_DURATION ->
    exists st2,
      Enhanced.pipeline_handler env' st1 = Some (old, st2) /\
      Enhanced.requests st2 = Enhanced.requests st1 /\
      Enhanced.allBills (Enhanced.statsCache st2) = Some bills.
Proof.
  intros env env' maxPages st old bills st1 t Hold Hrun Ht Hnz Hfresh.
  destruct (fetch_keeps_answers env maxPages st bills st1 Hrun) as [Hp _].
  destruct (fetchAllBills_result env maxPages st)
    as [bills0 [st0 [n [Hrun0 [_ [_ [Hcached _]]]]]]].
  rewrite Hrun in Hrun0. injection Hrun0 as <- <-.
  unfold Enhanced.pipeline_handler, Enhanced.still_fresh.
  rewrite Hp, Hold, Ht. cbn [Enhanced.is_set].
  destruct (Z.eqb_spec t 0) as [He | _]; [contradiction |].
  destruct (Z.ltb_spec (Enhanced.clock env' (Enhanced.clock_reads st1) - t)
                       Enhanced.CACHE_DURATION) as [_ | Hge]; [| lia].
  cbn [Enhanced.statsCache]. rewrite Hp, Hold.
  eexists. split; [reflexivity |]. split; [reflexivity | exact Hcached].
Qed.

Lemma pipeline_answer_outlives_refetch_witness :
  exists st2,
    Enhanced.pipeline_handler api_single_page
      (Enhanced.mkState
         (Enhanced.mkCache None (Some pipeline_of_outage) (Some [hb1001])
                           (Some 2000))
         2 [1; 1]) = Some (pipeline_of_outage, st2) /\
    Enhanced.requests st2 = [1; 1] /\
    Enhanced.allBills (Enhanced.statsCache st2) = Some [hb1001].
Proof.
  apply (pipeline_answer_outlives_refetch api_single_page api_single_page 15
           server_after_outage pipeline_of_outage [hb1001]
           (Enhanced.mkState
              (Enhanced.mkCache None (Some pipeline_of_outage) (Some [hb1001])
                                (Some 2000))
              2 [1; 1])
           2000).
  - reflexivity.
  - vm_compute. reflexivity.
  - reflexivity.
  - discriminate.
  - vm_compute. reflexivity.
Defined.

Lemma stageCounts_nil k : Stats.get (Stats.stageCounts []) k 0 = 0.
Proof.
  unfold Stats.stageCounts, Stats.get. cbn [fold_left].
  destruct (find _ _) as [p |] eqn:Hfind; [| reflexivity].
  apply find_some in Hfind. destruct Hfind as [Hin _].
  apply in_map_iff in Hin. destruct Hin as [k' [<- _]]. reflexivity.
Qed.

(** Property X22. While the API is down [GET /api/stats/pipeline] does not report an
    error: with nothing cached it makes one request, then sends zero bills
    and ten zero counters, and caches both the empty list and that answer. *)
Theorem outage_reported_as_no_bills :
  forall env st message,
    Enhanced.pipeline (Enhanced.statsCache st) = None ->
    Enhanced.allBills (Enhanced.statsCache st) = None ->
    Enhanced.api env 1 = Enhanced.Failed message ->
    exists answer st',
      Enhanced.pipeline_handler env st = Some (answer, st') /\
      Enhanced.p_total_bills answer = 0 /\
      (forall k, Stats.get (Enhanced.p_by_stage answer) k 0 = 0) /\
      Enhanced.requests st' = Enhanced.requests st ++ [1] /\
      Enhanced.pipeline (Enhanced.statsCache st') = Some answer /\
      Enhanced.allBills (Enhanced.statsCache st') = Some [].
Proof.
  intros env st message Hp Hb Hapi.
  unfold Enhanced.pipeline_handler, Enhanced.still_fresh.
  rewrite Hp. cbn [Enhanced.is_set].
  unfold Enhanced.fetchAllBills, Enhanced.still_fresh.
  rewrite Hb. cbn [Enhanced.is_set].
  simpl Enhanced.fetch_pages. rewrite Hapi. simpl app.
  eexists _, _. split; [reflexivity |].
  cbn [Enhanced.p_total_bills Enhanced.p_by_stage Enhanced.requests
       Enhanced.statsCache Enhanced.pipeline Enhanced.allBills length].
  split; [reflexivity |]. split; [exact stageCounts_nil |].
  split; [reflexivity |]. split; reflexivity.
Qed.

Lemma outage_reported_as_no_bills_witness :
  exists answer st',
    Enhanced.pipeline_handler api_offline server_started = Some (answer, st') /\
    Enhanced.p_total_bills answer = 0 /\
    (forall k, Stats.get (Enhanced.p_by_stage answer) k 0 = 0) /\
    Enhanced.requests st' = Enhanced.requests server_started ++ [1] /\
    Enhanced.pipeline (Enhanced.statsCache st') = Some answer /\
    Enhanced.allBills (Enhanced.statsCache st') = Some [].
Proof.
  apply (outage_reported_as_no_bills api_offline server_started
           "timeout of 30000ms exceeded"); reflexivity.
Defined.


(* ===================================================================== *)
(** ** The statistics read from the database the sync writes *)
(* ===================================================================== *)

Lemma count_cons {A} (p : A -> bool) (x : A) (l : list A) :
  Stats.count p (x :: l) = (if p x then 1 else 0) + Stats.count p l.
Proof.
  unfold Stats.count. cbn [filter]. destruct (p x); cbn [length]; lia.
Qed.

Lemma stored_counts (table : list BillRow) :
  Stats.count (Complete.stage_not_in ["signed"; "became_law"; "vetoed"; "dead"]) table +
  Stats.count (Complete.stage_in ["signed"; "became_law"]) table +
  Stats.count (Complete.stage_in ["vetoed"]) table +
  Stats.count Complete.uncounted table = Z.of_nat (length table).
Proof.
  induction table as [| r table IH]; [reflexivity |].
  rewrite !count_cons.
  assert (Hrow : (if Complete.stage_not_in ["signed"; "became_law"; "vetoed"; "dead"] r
                  then 1 else 0) +
                 (if Complete.stage_in ["signed"; "became_law"] r then 1 else 0) +
                 (if Complete.stage_in ["vetoed"] r then 1 else 0) +
                 (if Complete.uncounted r then 1 else 0) = 1).
  { unfold Complete.stage_not_in, Complete.stage_in, Complete.uncounted.
    destruct (br_stage r) as [s |]; [| reflexivity].
    unfold JS.includes. cbn [existsb].
    destruct (String.eqb_spec s "signed") as [-> | _]; [reflexivity |].
    destruct (String.eqb_spec s "became_law") as [-> | _]; [reflexivity |].
    destruct (String.eqb_spec s "vetoed") as [-> | _]; [reflexivity |].
    destruct (String.eqb_spec s "dead") as [-> | _]; reflexivity. }
  cbn [length]. lia.
Qed.

Lemma uncounted_none (table : list BillRow) :
  stages_live table -> Stats.count Complete.uncounted table = 0.
Proof.
  induction table as [| r table IH]; intros Hlive; [reflexivity |].
  rewrite count_cons. destruct (Hlive r (or_introl eq_refl)) as [s [Hs Hdead]].
  unfold Complete.uncounted at 1. rewrite Hs.
  destruct (String.eqb_spec s "dead") as [He | _]; [contradiction |].
  rewrite IH; [reflexivity |]. intros r' Hr'. apply Hlive. now right.
Qed.

Lemma stages_live_upsert bill t db :
  stages_live (bills db) ->
  stages_live (bills (fst (Sql.upsert_bill (determineBillStage bill) bill t db))).
Proof.
  intros H r Hr. apply bills_after_upsert in Hr. destruct Hr as [Hr | Hr].
  - exists (determineBillStage bill). split; [exact Hr |].
    exact (stages_not_dead _ (determineBillStage_stages bill)).
  - now apply H.
Qed.

Lemma like_HB_not_SB (r : BillRow) :
  andb (Complete.identifier_like "HB" r) (Complete.identifier_like "SB" r) = false.
Proof.
  unfold Complete.identifier_like. destruct (br_identifier r) as [| c rest]; [reflexivity |].
  cbn [JS.starts_with].
  destruct (Ascii.eqb_spec "H"%char c) as [<- | _]; [| reflexivity].
  replace (Ascii.eqb "S" "H") with false by reflexivity.
  cbn [andb]. apply andb_false_r.
Qed.

(** Property X23. The summary the database server sends leaves out of its three status
    counts exactly the bills whose stage is null or [dead]; the sync script
    stores neither, so after a run over a table without such bills active,
    passed and vetoed add up to the total, whatever the API answered and
    whichever queries failed. House and Senate counts never overlap. *)
Theorem stored_summary_partitions :
  (forall db,
     let s := Complete.summary db in
     Stats.active_bills s + Stats.passed_bills s + Stats.vetoed_bills s +
       Stats.count Complete.uncounted (bills db) = Stats.total_bills s /\
     Stats.house_bills s + Stats.senate_bills s <= Stats.total_bills s) /\
  (forall env fuel w,
     stages_live (bills (w_db w)) ->
     let s := Complete.summary (w_db (snd (runSync env fuel w))) in
     Stats.active_bills s + Stats.passed_bills s + Stats.vetoed_bills s =
       Stats.total_bills s).
Proof.
  assert (Htotal : forall table : list BillRow,
             Stats.count (fun _ => true) table = Z.of_nat (length table)).
  { intros table. unfold Stats.count. induction table as [| r table IH];
      [reflexivity |]. cbn [filter length] in *. lia. }
  split.
  - intros db. cbn. rewrite Htotal. split; [apply stored_counts |].
    apply disjoint_counts, like_HB_not_SB.
  - intros env fuel w Hlive. cbn. rewrite Htotal.
    pose proof (runSync_keeps stages_live stages_live_upsert env fuel w) as Hrun.
    pose proof (stored_counts (bills (w_db (snd (runSync env fuel w))))) as Hsum.
    rewrite uncounted_none in Hsum by exact (Hrun Hlive). lia.
Qed.

Lemma stored_summary_partitions_witness :
  stages_live (bills db_after_first_run) /\
  let s := Complete.summary
             (w_db (snd (runSync env_referred enough_fuel (start db_after_first_run)))) in
  Stats.active_bills s + Stats.passed_bills s + Stats.vetoed_bills s =
  Stats.total_bills s.
Proof.
  assert (Hlive : stages_live (bills db_after_first_run)).
  { vm_compute. intros r [<- | []]. exists "introduced".
    split; [reflexivity | discriminate]. }
  split; [exact Hlive |].
  exact (proj2 stored_summary_partitions env_referred enough_fuel
           (start db_after_first_run) Hlive).
Defined.


(* ===================================================================== *)
(** ** E-mail subscriptions *)
(* ===================================================================== *)

Lemma same_key_spec k r : Subscriptions.same_key k r = true <-> Subscriptions.key r = k.
Proof.
  destruct k as [[e b] t]. unfold Subscriptions.same_key, Subscriptions.key.
  rewrite !andb_true_iff, !String.eqb_eq, Z.eqb_eq. split.
  - intros [[-> ->] ->]. reflexivity.
  - intros H. injection H as -> -> ->. auto.
Qed.

Lemma same_key_false k r : Subscriptions.key r <> k -> Subscriptions.same_key k r = false.
Proof.
  intros H. destruct (Subscriptions.same_key k r) eqn:He; [| reflexivity].
  apply same_key_spec in He. contradiction.
Qed.

Lemma find_none_iff {A} (p : A -> bool) (l : list A) :
  find p l = None <-> forall x, In x l -> p x = false.
Proof.
  induction l as [| y l IH]; simpl.
  - split; [intros _ x [] | reflexivity].
  - destruct (p y) eqn:Hy.
    + split; [discriminate |]. intros H. rewrite (H y) in Hy by auto. discriminate.
    + rewrite IH. split.
      * intros H x [<- | Hx]; auto.
      * intros H x Hx. apply H. auto.
Qed.

Lemma find_middle {A} (p : A -> bool) (before after : list A) (r : A) :
  (forall x, In x before -> p x = false) -> p r = true ->
  find p (before ++ r :: after) = Some r.
Proof.
  intros Hb Hr. induction before as [| y before IH]; simpl.
  - now rewrite Hr.
  - rewrite (Hb y) by (now left). apply IH. intros x Hx. apply Hb. now right.
Qed.

Lemma others_differ before r after :
  NoDup (map Subscriptions.key (before ++ r :: after)) ->
  forall x, In x before \/ In x after ->
            Subscriptions.same_key (Subscriptions.key r) x = false.
Proof.
  intros Hu x Hx. rewrite map_app in Hu. simpl in Hu. apply NoDup_remove_2 in Hu.
  apply same_key_false. intros He. apply Hu. rewrite <- He.
  apply in_or_app. destruct Hx as [Hx | Hx]; [left | right]; now apply in_map.
Qed.

Lemma update_middle (hit : Subscriptions.Row -> bool) (set : Subscriptions.Row -> Subscriptions.Row)
    before r after :
  (forall x, In x before \/ In x after -> hit x = false) -> hit r = true ->
  map (fun x => if hit x then set x else x) (before ++ r :: after) =
  before ++ set r :: after.
Proof.
  intros Ho Hr. rewrite map_app. simpl. rewrite Hr.
  f_equal; [| f_equal]; apply map_unchanged; intros x Hx; rewrite Ho; auto.
Qed.

Lemma update_keeps_keys (hit : Subscriptions.Row -> bool)
    (set : Subscriptions.Row -> Subscriptions.Row) l :
  (forall r, Subscriptions.key (set r) = Subscriptions.key r) ->
  map Subscriptions.key (map (fun x => if hit x then set x else x) l) =
  map Subscriptions.key l.
Proof.
  intros Hk. rewrite map_map. apply map_ext. intros r.
  destruct (hit r); [apply Hk | reflexivity].
Qed.

Lemma append_unique l (row : Subscriptions.Row) :
  NoDup (map Subscriptions.key l) ->
  (forall x, In x l -> Subscriptions.same_key (Subscriptions.key row) x = false) ->
  NoDup (map Subscriptions.key (l ++ [row])).
Proof.
  intros Hu Hno. rewrite map_app. simpl.
  apply NoDup_app; [exact Hu | constructor; [intros [] | constructor] |].
  intros k Hin [<- | []]. apply in_map_iff in Hin. destruct Hin as [x [Hk Hx]].
  specialize (Hno x Hx). assert (Ht : Subscriptions.same_key (Subscriptions.key row) x = true)
    by (now apply same_key_spec).
  congruence.
Qed.

(** The request passes the check of the handler. *)
Lemma subscribe_accepted db token now body st e billId :
  Subscriptions.req_email body = Some e -> e <> "" ->
  Subscriptions.req_billId body = Some billId -> billId <> 0 ->
  Subscriptions.subscribe db token now body st =
  let k := Subscriptions.key_of e billId body in
  let mailed :=
    if Subscriptions.bill_stored db billId
    then Subscriptions.outbox st ++ [(e, token)] else Subscriptions.outbox st in
  match find (Subscriptions.same_key k) (Subscriptions.rows st) with
  | Some r =>
      (Subscriptions.Subscribed (Subscriptions.reactivated token r),
       Subscriptions.mkStore
         (map (fun x => if Subscriptions.same_key k x
                        then Subscriptions.reactivated token x else x)
              (Subscriptions.rows st))
         (Subscriptions.next_id st + 1) mailed)
  | None =>
      if Subscriptions.bill_stored db billId then
        let row := Subscriptions.mkRow (Subscriptions.next_id st) e
                     (Subscriptions.req_name body) billId (snd k)
                     true (Some token) None now None in
        (Subscriptions.Subscribed row,
         Subscriptions.mkStore (Subscriptions.rows st ++ [row])
                               (Subscriptions.next_id st + 1) mailed)
      else (Subscriptions.Failed,
            Subscriptions.mkStore (Subscriptions.rows st)
                                  (Subscriptions.next_id st + 1)
                                  (Subscriptions.outbox st))
  end.
Proof.
  intros He Hne Hb Hnb. unfold Subscriptions.subscribe. rewrite He, Hb.
  destruct (String.eqb_spec e "") as [Heq | _]; [contradiction |].
  destruct (Z.eqb_spec billId 0) as [Heq | _]; [contradiction |].
  reflexivity.
Qed.

Lemma resubscribed db token now body st e billId before r after :
  Subscriptions.req_email body = Some e -> e <> "" ->
  Subscriptions.req_billId body = Some billId -> billId <> 0 ->
  unique_subscriptions st ->
  Subscriptions.rows st = before ++ r :: after ->
  Subscriptions.key r = Subscriptions.key_of e billId body ->
  Subscriptions.subscribe db token now body st =
  (Subscriptions.Subscribed (Subscriptions.reactivated token r),
   Subscriptions.mkStore
     (before ++ Subscriptions.reactivated token r :: after)
     (Subscriptions.next_id st + 1)
     (if Subscriptions.bill_stored db billId
      then Subscriptions.outbox st ++ [(e, token)] else Subscriptions.outbox st)).
Proof.
  intros He Hne Hb Hnb Hu Hrows Hk.
  rewrite (subscribe_accepted db token now body st e billId He Hne Hb Hnb).
  cbv zeta. unfold unique_subscriptions in Hu. rewrite Hrows in Hu |- *.
  pose proof (others_differ before r after Hu) as Ho. rewrite Hk in Ho.
  assert (Hr : Subscriptions.same_key (Subscriptions.key_of e billId body) r = true)
    by (now apply same_key_spec).
  rewrite find_middle by (auto).
  rewrite update_middle by assumption. reflexivity.
Qed.

Lemma update_where_misses hit set st :
  (forall x, In x (Subscriptions.rows st) -> hit x = false) ->
  Subscriptions.update_where hit set st = (Subscriptions.Page404, st).
Proof.
  intros Hno. unfold Subscriptions.update_where.
  rewrite (existsb_absent hit _ Hno).
  rewrite (map_unchanged (fun r => if hit r then set r else r)).
  - destruct st. reflexivity.
  - intros x Hx. now rewrite (Hno x Hx).
Qed.

(** Property X24. [POST /api/subscribe] is keyed by e-mail address, bill and notification
    type. For a key already stored it changes that one row only, setting it
    active with the new token and keeping its id, name and verification
    time; for a new key and a stored bill it appends an active, unverified
    row with the next id; for a new key and an unknown bill it fails and
    stores nothing. Whenever the bill is stored the request succeeds and one
    verification mail with the new token goes out. The key stays unique. *)
Theorem subscribe_keyed :
  forall db token now body st e billId,
    Subscriptions.req_email body = Some e -> e <> "" ->
    Subscriptions.req_billId body = Some billId -> billId <> 0 ->
    unique_subscriptions st ->
    let k := Subscriptions.key_of e billId body in
    let answer := fst (Subscriptions.subscribe db token now body st) in
    let st' := snd (Subscriptions.subscribe db token now body st) in
    (forall before r after,
        Subscriptions.rows st = before ++ r :: after ->
        Subscriptions.key r = k ->
        Subscriptions.rows st' = before ++ Subscriptions.reactivated token r :: after /\
        answer = Subscriptions.Subscribed (Subscriptions.reactivated token r)) /\
    ((forall r, In r (Subscriptions.rows st) -> Subscriptions.key r <> k) ->
     if Subscriptions.bill_stored db billId then
       exists row,
         Subscriptions.rows st' = Subscriptions.rows st ++ [row] /\
         answer = Subscriptions.Subscribed row /\
         Subscriptions.id row = Subscriptions.next_id st /\
         Subscriptions.key row = k /\
         Subscriptions.is_active row = true /\
         Subscriptions.verification_token row = Some token /\
         Subscriptions.verified_at row = None
     else
       answer = Subscriptions.Failed /\
       Subscriptions.rows st' = Subscriptions.rows st /\
       Subscriptions.outbox st' = Subscriptions.outbox st) /\
    (Subscriptions.bill_stored db billId = true ->
     answer <> Subscriptions.Failed /\
     Subscriptions.outbox st' = Subscriptions.outbox st ++ [(e, token)]) /\
    unique_subscriptions st'.
Proof.
  intros db token now body st e billId He Hne Hb Hnb Hu k answer st'.
  subst answer st'.
  split; [| split; [| split]].
  - intros before r after Hrows Hk.
    rewrite (resubscribed db token now body st e billId before r after
               He Hne Hb Hnb Hu Hrows Hk).
    split; reflexivity.
  - intros Hnew.
    rewrite (subscribe_accepted db token now body st e billId He Hne Hb Hnb).
    cbv zeta. fold k.
    assert (Hfind : find (Subscriptions.same_key k) (Subscriptions.rows st) = None).
    { apply find_none_iff. intros x Hx. apply same_key_false. now apply Hnew. }
    rewrite Hfind. destruct (Subscriptions.bill_stored db billId).
    + eexists. cbn [fst snd Subscriptions.rows].
      split; [reflexivity |]. split; [reflexivity |].
      cbn. repeat split; reflexivity.
    + cbn. repeat split; reflexivity.
  - intros Hstored.
    rewrite (subscribe_accepted db token now body st e billId He Hne Hb Hnb).
    cbv zeta. rewrite Hstored.
    destruct (find _ _); cbn; split; (discriminate || reflexivity).
  - rewrite (subscribe_accepted db token now body st e billId He Hne Hb Hnb).
    cbv zeta. fold k. unfold unique_subscriptions in *.
    destruct (find (Subscriptions.same_key k) (Subscriptions.rows st)) as [r |] eqn:Hfind.
    + cbn [snd Subscriptions.rows]. rewrite update_keeps_keys; [exact Hu | reflexivity].
    + destruct (Subscriptions.bill_stored db billId); cbn [snd Subscriptions.rows];
        [| exact Hu].
      apply append_unique; [exact Hu |].
      intros x Hx. exact (proj1 (find_none_iff _ _) Hfind x Hx).
Qed.

Lemma subscribe_keyed_witness :
  Subscriptions.rows
    (snd (Subscriptions.subscribe db_after_first_run "b2" 1000 follow_again
            store_cancelled)) =
    [] ++ Subscriptions.reactivated "b2" subscription_cancelled :: [] /\
  fst (Subscriptions.subscribe db_after_first_run "b2" 1000 follow_again
         store_cancelled) =
    Subscriptions.Subscribed (Subscriptions.reactivated "b2" subscription_cancelled).
Proof.
  apply (proj1 (subscribe_keyed db_after_first_run "b2" 1000 follow_again
                  store_cancelled "pat@example.org" 1
                  eq_refl ltac:(discriminate) eq_refl ltac:(discriminate)
                  ltac:(repeat constructor; intros []))
           [] subscription_cancelled []); reflexivity.
Defined.





(** Property X27. A verification link works once: the first visit that finds an
    unverified subscription stamps it, and any later visit with the same
    token answers 404 and leaves the stamp as it is. *)
Theorem verification_link_works_once :
  forall token now now' st,
    let st1 := snd (Subscriptions.verify_email token now st) in
    Subscriptions.verify_email token now' st1 = (Subscriptions.Page404, st1) /\
    (fst (Subscriptions.verify_email token now st) = Subscriptions.Page200 <->
     exists r t, In r (Subscriptions.rows st) /\ token = Some t /\
                 Subscriptions.verification_token r = Some t /\
                 Subscriptions.verified_at r = None).
Proof.
  intros token now now' st st1. subst st1. split.
  - apply update_where_misses. cbn [Subscriptions.verify_email Subscriptions.update_where
                                     snd Subscriptions.rows].
    intros x Hx. apply in_map_iff in Hx. destruct Hx as [r [Hr _]].
    destruct (Subscriptions.has_token token r && Subscriptions.is_null (Subscriptions.verified_at r))
      eqn:Hhit; subst x.
    + cbn. apply andb_false_r.
    + exact Hhit.
  - unfold Subscriptions.verify_email, Subscriptions.update_where. cbn [fst].
    destruct (existsb _ _) eqn:Hex.
    + split; [intros _ | reflexivity].
      apply existsb_exists in Hex. destruct Hex as [r [Hin Hhit]].
      apply andb_true_iff in Hhit. destruct Hhit as [Htok Hnull].
      unfold Subscriptions.has_token in Htok.
      destruct token as [t |]; [| discriminate].
      destruct (Subscriptions.verification_token r) as [t' |] eqn:Hrt; [| discriminate].
      apply String.eqb_eq in Htok. subst t'.
      destruct (Subscriptions.verified_at r) eqn:Hv; [discriminate |].
      exists r, t. auto.
    + split; [discriminate |]. intros [r [t [Hin [-> [Htok Hv]]]]].
      assert (Ht : existsb (fun r => Subscriptions.has_token (Some t) r &&
                                     Subscriptions.is_null (Subscriptions.verified_at r))
                           (Subscriptions.rows st) = true).
      { apply existsb_exists. exists r. split; [exact Hin |].
        unfold Subscriptions.has_token. rewrite Htok, Hv, String.eqb_refl. reflexivity. }
      congruence.
Qed.

Lemma verification_link_works_once_witness :
  fst (Subscriptions.verify_email (Some "a1") 1000 store_pending) =
  Subscriptions.Page200.
Proof.
  apply (proj2 (proj2 (verification_link_works_once (Some "a1") 1000 2000
                         store_pending))).
  exists subscription_pending, "a1".
  split; [left; reflexivity |]. repeat split; reflexivity.
Defined.


(* ===================================================================== *)
(** ** The legislator sync writes one upsert per record *)
(* ===================================================================== *)

Lemma upsert_each_app clock n (a b : list Legislator) db :
  upsert_each clock n (a ++ b) db =
  upsert_each clock (n + length a) b (upsert_each clock n a db).
Proof.
  revert n db. induction a as [| l a IH]; intros n db; simpl.
  - now rewrite Nat.add_0_r.
  - rewrite IH. f_equal. lia.
Qed.

Lemma upsert_each_unique clock n ls db :
  unique_legislators db -> unique_legislators (upsert_each clock n ls db).
Proof.
  revert n db. induction ls as [| l ls IH]; intros n db Hu; simpl; [exact Hu |].
  apply IH. exact (proj2 (proj2 (upsert_legislator_rows l (clock n) db Hu))).
Qed.

Lemma records_on_cons {A} (api : Z -> Fetch A) page pages data :
  api page = FetchOk data ->
  records_on api (page :: pages) = results data ++ records_on api pages.
Proof. intros H. unfold records_on. simpl. now rewrite H. Qed.

(** The [for ... of] loop over the legislators of a page, no query being
    rejected. *)
Lemma for_of_upserts env ls :
  no_faults env ->
  forall w,
  exists w',
    for_of ls (upsert_one_legislator env) w = (Ok tt, w') /\
    w_db w' = upsert_each (now env) (w_queries w) ls (w_db w) /\
    w_queries w' = (w_queries w + length ls)%nat.
Proof.
  intros Hno. induction ls as [| l ls IH]; intros w.
  - exists w. simpl. rewrite Nat.add_0_r. auto.
  - cbn [for_of]. rewrite bind_run.
    unfold upsert_one_legislator at 1, pool_query at 1. rewrite (Hno (w_queries w)).
    destruct (Sql.upsert_legislator l (now env (w_queries w)) (w_db w)) as [db1 []] eqn:Hup.
    destruct (IH (mkWorld db1 (S (w_queries w))
                          (w_trace w ++ [EvQuery (QUpsertLegislator (l_id l)) None])
                          (w_pool_ended w))) as [w' [Hrun [Hdb Hq]]].
    exists w'. split; [exact Hrun |]. cbn [w_db w_queries] in Hdb, Hq.
    split.
    + rewrite Hdb. cbn [upsert_each]. now rewrite Hup.
    + rewrite Hq. cbn [length]. lia.
Qed.

(** The page loop from page [page] on, when the pages up to [k] go on and
    page [k] stops the loop. *)
Lemma page_loop_upserts env k :
  no_faults env ->
  k <= legislators_max_pages ->
  page_stops (people_api env) legislators_max_pages k ->
  forall m fuel page total w,
    page = k - Z.of_nat m ->
    (forall j, page <= j < k -> page_continues (people_api env) j) ->
    (m + 2 <= fuel)%nat ->
    let ls := records_on (people_api env) (page_range page (S m)) in
    exists w',
      page_loop "/people" (people_api env) legislators_max_pages
                (upsert_one_legislator env) fuel page total w =
        (Ok (total + Z.of_nat (length ls)), w') /\
      w_db w' = upsert_each (now env) (w_queries w) ls (w_db w) /\
      w_queries w' = (w_queries w + length ls)%nat.
Proof.
  intros Hno Hcap Hstop. induction m as [| m IH];
    intros fuel page total w Hpage Hcont Hfuel ls; subst ls.
  - replace (k - Z.of_nat 0) with k in Hpage by lia. subst page. clear Hcont.
    destruct fuel as [| fuel]; [lia |]. cbn [page_loop].
    destruct (Z.leb_spec k legislators_max_pages) as [_ | Hgt]; [| lia].
    destruct Hstop as [data [Hapi Hwhy]].
    rewrite bind_run. unfold api_get. rewrite Hapi.
    cbn [page_range]. rewrite (records_on_cons _ _ _ _ Hapi).
    change (records_on (people_api env) []) with (@nil Legislator).
    rewrite app_nil_r.
    destruct (results data) as [| x xs] eqn:Hres.
    + cbn [length Nat.eqb Z.of_nat]. rewrite Z.add_0_r.
      eexists. split; [reflexivity |].
      cbn [w_db w_queries log length upsert_each].
      rewrite Nat.add_0_r. auto.
    + cbn [length Nat.eqb]. rewrite bind_run.
      destruct (for_of_upserts env (x :: xs) Hno
                  (log (EvFetch "/people" k None) w)) as [w1 [Hrun [Hdb Hq]]].
      rewrite Hrun. cbn [w_db w_queries log] in Hdb, Hq.
      destruct (last_page data k) eqn:Hlast.
      * exists w1. split; [reflexivity |]. auto.
      * assert (Hk : k = legislators_max_pages).
        { unfold last_page in Hlast.
          destruct Hwhy as [He | [Hn | [[p [Hp Hle]] | Hk]]];
            [congruence | now rewrite Hn in Hlast | | exact Hk].
          rewrite Hp in Hlast. apply Z.leb_gt in Hlast. lia. }
        destruct fuel as [| fuel]; [lia |]. cbn [page_loop].
        destruct (Z.leb_spec (k + 1) legislators_max_pages) as [Hle | _]; [lia |].
        exists w1. split; [reflexivity |]. auto.
  - destruct fuel as [| fuel]; [lia |]. cbn [page_loop].
    destruct (Z.leb_spec page legislators_max_pages) as [_ | Hgt]; [| lia].
    destruct (Hcont page ltac:(lia)) as [data [p [Hapi [Hne [Hp Hlt]]]]].
    rewrite bind_run. unfold api_get. rewrite Hapi.
    rewrite page_range_succ, (records_on_cons _ _ _ _ Hapi).
    destruct (results data) as [| x xs] eqn:Hres; [congruence |].
    cbn [length Nat.eqb]. rewrite bind_run.
    destruct (for_of_upserts env (x :: xs) Hno
                (log (EvFetch "/people" page None) w)) as [w1 [Hrun [Hdb Hq]]].
    rewrite Hrun. cbn [w_db w_queries log] in Hdb, Hq.
    assert (Hlast : last_page data page = false).
    { unfold last_page. rewrite Hp. apply Z.leb_gt. exact Hlt. }
    rewrite Hlast.
    destruct (IH fuel (page + 1) (total + Z.of_nat (length (x :: xs))) w1)
      as [w' [Hloop [Hdb' Hq']]]; [lia | intros j Hj; apply Hcont; lia | lia |].
    exists w'. cbn [length] in Hloop |- *. rewrite Hloop. split; [| split].
    + f_equal. f_equal. rewrite length_app. cbn [length]. lia.
    + rewrite Hdb', Hdb, Hq. symmetry. apply upsert_each_app.
    + rewrite Hq', Hq, length_app. lia.
Qed.

(** Claim C6: the legislator sync upserts by [openstates_id]. When the API
    answers and no query is rejected, [syncLegislators] returns the number
    of records on the pages 1 to [k] it reads, and the [legislators] table
    it leaves is the one at the start after one upsert per record, in the
    order of the pages. Each of these upserts, in the table the sync has
    reached by then, appends one row when the identifier is not yet stored,
    and otherwise leaves the table the same except that the one row with
    that identifier takes the new name, party, chamber, district and update
    time and keeps its id, openstates_id, image_url, email, phone and
    creation time; no row is added. The identifier stays unique. *)
Theorem legislator_sync_upserts :
  forall env fuel w k,
    (enough_fuel <= fuel)%nat ->
    no_faults env ->
    1 <= k <= legislators_max_pages ->
    page_stops (people_api env) legislators_max_pages k ->
    (forall j, 1 <= j < k -> page_continues (people_api env) j) ->
    unique_legislators (w_db w) ->
    let ls := records_on (people_api env) (page_range 1 (Z.to_nat k)) in
    let q := w_queries w in
    exists w',
      syncLegislators env fuel w = (Ok (Z.of_nat (length ls)), w') /\
      legislators (w_db w') = legislators (upsert_each (now env) q ls (w_db w)) /\
      unique_legislators (w_db w') /\
      forall pre l post,
        ls = pre ++ l :: post ->
        let db := upsert_each (now env) q pre (w_db w) in
        let t := now env (q + length pre)%nat in
        let db' := upsert_each (now env) q (pre ++ [l]) (w_db w) in
        ((forall r, In r (legislators db) -> lr_openstates_id r <> l_id l) ->
         legislators db' = legislators db ++ [legislator_inserted l t db]) /\
        (forall before r after,
            legislators db = before ++ r :: after ->
            lr_openstates_id r = l_id l ->
            legislators db' = before ++ legislator_updated l t r :: after /\
            length (legislators db') = length (legislators db)).
Proof.
  intros env fuel w k Hfuel Hno Hk Hstop Hcont Hu ls q.
  assert (Hloop : exists w1,
             legislators_loop env fuel 1 0 w = (Ok (Z.of_nat (length ls)), w1) /\
             w_db w1 = upsert_each (now env) q ls (w_db w)).
  { rewrite legislators_loop_shape.
    destruct (page_loop_upserts env k Hno (proj2 Hk) Hstop (Z.to_nat (k - 1)) fuel 1 0 w)
      as [w1 [Hrun [Hdb _]]].
    - lia.
    - exact Hcont.
    - unfold enough_fuel, legislators_max_pages in *. lia.
    - replace (S (Z.to_nat (k - 1))) with (Z.to_nat k) in Hrun, Hdb by lia.
      exists w1. split; [exact Hrun | exact Hdb]. }
  destruct Hloop as [w1 [Hloop Hdb1]].
  assert (Hrun : exists w',
             syncLegislators env fuel w = (Ok (Z.of_nat (length ls)), w') /\
             legislators (w_db w') = legislators (w_db w1)).
  { rewrite syncLegislators_shape. unfold recorded_sync, try_catch.
    rewrite bind_run, Hloop, bind_run. unfold pool_query at 1.
    rewrite (Hno (w_queries w1)). cbn. eexists. split; reflexivity. }
  destruct Hrun as [w' [Hrun Hleg]].
  exists w'. split; [exact Hrun |]. split; [now rewrite Hleg, Hdb1 |].
  split.
  - unfold unique_legislators. rewrite Hleg, Hdb1.
    now apply upsert_each_unique.
  - intros pre l post Hls db t db'. subst db t db'.
    rewrite upsert_each_app. cbn [upsert_each].
    destruct (upsert_legislator_rows l (now env (q + length pre)%nat)
                (upsert_each (now env) q pre (w_db w))
                (upsert_each_unique _ _ _ _ Hu)) as [Hins [Hupd _]].
    split; [exact Hins | exact Hupd].
Qed.

Lemma legislator_sync_upserts_witness :
  legislators
    (w_db (snd (syncLegislators env_quiet enough_fuel (start (schema_db 0))))) =
    [ mkLegislatorRow 1 "ocd-person/7" "Pat Smith" (Some "Republican") (Some "upper")
        (Some "12") (Some "https://img/7.png") (Some "pat@ok.gov") None 1000 1000 ] /\
  legislators
    (w_db (snd (syncLegislators env_smith_moved enough_fuel
                  (start (w_db (snd (syncLegislators env_quiet enough_fuel
                                       (start (schema_db 0))))))))) =
    [ mkLegislatorRow 1 "ocd-person/7" "Pat Smith" (Some "Independent") (Some "lower")
        (Some "40") (Some "https://img/7.png") (Some "pat@ok.gov") None 1000 1000 ].
Proof.
  assert (Hstop : forall xs : list Legislator,
             page_stops (one_page xs) legislators_max_pages 1).
  { intros xs. eexists. split; [reflexivity |]. right. right. left.
    eexists. split; [reflexivity |]. cbn. lia. }
  assert (Hpages : 1 <= 1 <= legislators_max_pages)
    by (unfold legislators_max_pages; lia).
  assert (Hnone : forall j, 1 <= j < 1 -> False) by (intros j Hj; lia).
  split.
  - destruct (legislator_sync_upserts env_quiet enough_fuel (start (schema_db 0)) 1
                (le_n _) (fun n => eq_refl) Hpages (Hstop [smith])
                (fun j Hj => False_ind _ (Hnone j Hj)) schema_unique_legislators)
      as [w' [Hrun [Hleg _]]].
    rewrite Hrun. cbn [snd]. rewrite Hleg. vm_compute. reflexivity.
  - destruct (legislator_sync_upserts env_smith_moved enough_fuel
                (start (w_db (snd (syncLegislators env_quiet enough_fuel
                                     (start (schema_db 0))))))
                1 (le_n _) (fun n => eq_refl) Hpages (Hstop [smith_moved])
                (fun j Hj => False_ind _ (Hnone j Hj))
                ltac:(vm_compute; repeat constructor; intros []))
      as [w' [Hrun [Hleg _]]].
    rewrite Hrun. cbn [snd]. rewrite Hleg. vm_compute. reflexivity.
Defined.


(* ===================================================================== *)
(** ** Routes that no request reaches *)
(* ===================================================================== *)

Lemma literal_needs_text text :
  text <> "" ->
  Router.match_segment (Router.Lit text) "" = None.
Proof.
  intros Hne. unfold Router.match_segment. cbn [JS.toLowerCase].
  destruct text as [| c text]; [contradiction | reflexivity].
Qed.

(** A path of three segments that begins with [/api/bills] and is matched
    by [by-stage] is matched by a parameter as well. *)
Lemma by_stage_is_a_parameter name piece :
  Router.match_segment (Router.Lit "by-stage") piece <> None ->
  Router.match_segment (Router.Param name) piece = Some [(name, piece)].
Proof.
  intros Hm. destruct piece as [| c piece]; [| reflexivity].
  exfalso. apply Hm. apply literal_needs_text. discriminate.
Qed.

Lemma first_match_skips routes method pieces route params :
  Router.first_match routes method pieces = Some (route, params) ->
  exists before after,
    routes = before ++ (method, route) :: after /\
    Router.matches (Router.pattern_of route) pieces = Some params /\
    forall r, In (method, r) before ->
              Router.matches (Router.pattern_of r) pieces = None.
Proof.
  induction routes as [| [m r] routes IH]; [discriminate |].
  cbn [Router.first_match].
  destruct (Router.method_eqb method m) eqn:Hm.
  - assert (method = m) by (destruct method, m; (reflexivity || discriminate)).
    subst m.
    destruct (Router.matches (Router.pattern_of r) pieces) as [found |] eqn:Hr.
    + intros H. injection H as <- <-. exists [], routes.
      split; [reflexivity |]. split; [exact Hr |]. intros r' [].
    + intros H. destruct (IH H) as [before [after [-> [Hhit Hmiss]]]].
      exists ((method, r) :: before), after. split; [reflexivity |].
      split; [exact Hhit |]. intros r' [Heq | Hin]; [| now apply Hmiss].
      injection Heq as <-. exact Hr.
  - intros H. destruct (IH H) as [before [after [-> [Hhit Hmiss]]]].
    exists ((m, r) :: before), after. split; [reflexivity |].
    split; [exact Hhit |]. intros r' [Heq | Hin]; [| now apply Hmiss].
    injection Heq as Hsame _. rewrite Hsame in Hm.
    destruct method; discriminate Hm.
Qed.

(** Whatever [/api/bills/by-stage] matches, the single-bill route with
    parameter [name] matches. *)
Lemma by_stage_shadowed name pieces :
  Router.matches (Router.pattern_of "/api/bills/by-stage") pieces <> None ->
  Router.matches
    (Router.Segments [Router.Lit "api"; Router.Lit "bills"; Router.Param name])
    pieces <> None.
Proof.
  change (Router.pattern_of "/api/bills/by-stage")
    with (Router.Segments [Router.Lit "api"; Router.Lit "bills"; Router.Lit "by-stage"]).
  cbn [Router.matches].
  destruct pieces as [| a [| b [| c [| d rest]]]]; cbn [Router.match_segments];
    repeat match goal with
           | |- context [Router.match_segment (Router.Lit ?t) ?x] =>
               destruct (Router.match_segment (Router.Lit t) x) eqn:?
           end;
    try (intros H; now elim H).
  rewrite (by_stage_is_a_parameter name c) by congruence.
  discriminate.
Qed.

(** Property X16. No request reaches the handler of [/api/bills/by-stage], in
    [server-enhanced.js] or in [server-complete.js]: the route is registered
    after the single-bill route [/api/bills/:billId] (or [:identifier]),
    which matches every path that it matches, so [GET /api/bills/by-stage]
    is answered by the single-bill handler with [by-stage] as the bill. Every
    other route of the two servers answers some request. *)
Theorem by_stage_route_never_answers :
  (forall method path params,
      Router.dispatch Router.enhanced method path <>
        Some ("/api/bills/by-stage", params) /\
      Router.dispatch Router.complete method path <>
        Some ("/api/bills/by-stage", params)) /\
  Router.dispatch Router.enhanced Router.GET "/api/bills/by-stage" =
    Some ("/api/bills/:billId", [("billId", "by-stage")]) /\
  Router.dispatch Router.complete Router.GET "/api/bills/by-stage" =
    Some ("/api/bills/:identifier", [("identifier", "by-stage")]) /\
  (forall method route,
      In (method, route) Router.enhanced \/ In (method, route) Router.complete ->
      route <> "/api/bills/by-stage" ->
      exists path params,
        (In (method, route) Router.enhanced ->
         Router.dispatch Router.enhanced method path = Some (route, params)) /\
        (In (method, route) Router.complete ->
         Router.dispatch Router.complete method path = Some (route, params))).
Proof.
  split; [| split; [reflexivity | split; [reflexivity |]]].
  - intros method path params. unfold Router.dispatch.
    split; intros H; apply first_match_skips in H;
      destruct H as [before [after [Hroutes [Hhit Hmiss]]]];
      assert (Hget : method = Router.GET).
    + assert (Hin : In (method, "/api/bills/by-stage") Router.enhanced)
        by (rewrite Hroutes; apply in_or_app; right; now left).
      unfold Router.enhanced in Hin. simpl in Hin.
      repeat (destruct Hin as [Hin | Hin]; [congruence |]). contradiction.
    + subst method.
      assert (Hbefore : In (Router.GET, "/api/bills/:billId") before).
      { destruct before as [| r0 [| r1 [| r2 [| r3 [| r4 before]]]]];
          try discriminate Hroutes.
        - unfold Router.enhanced in Hroutes. injection Hroutes as <- <- <- <- _.
          simpl. tauto.
        - exfalso. unfold Router.enhanced in Hroutes.
          injection Hroutes as _ _ _ _ _ Hrest.
          assert (Hin : In (Router.GET, "/api/bills/by-stage")
                           [(Router.GET, "/api/legislators"); (Router.GET, "/api/search");
                            (Router.POST, "/api/cache/clear"); (Router.GET, "/health");
                            (Router.GET, "*")])
            by (rewrite Hrest; apply in_or_app; right; now left).
          simpl in Hin. repeat (destruct Hin as [Hin | Hin]; [discriminate Hin |]).
          contradiction. }
      apply (by_stage_shadowed "billId" (Router.segments path));
        [rewrite Hhit; discriminate |].
      exact (Hmiss _ Hbefore).
    + assert (Hin : In (method, "/api/bills/by-stage") Router.complete)
        by (rewrite Hroutes; apply in_or_app; right; now left).
      unfold Router.complete in Hin. simpl in Hin.
      repeat (destruct Hin as [Hin | Hin]; [congruence |]). contradiction.
    + subst method.
      assert (Hbefore : In (Router.GET, "/api/bills/:identifier") before).
      { destruct before as [| r0 [| r1 [| r2 before]]]; try discriminate Hroutes.
        - unfold Router.complete in Hroutes. injection Hroutes as <- <- _.
          simpl. tauto.
        - exfalso. unfold Router.complete in Hroutes.
          injection Hroutes as _ _ _ Hrest.
          assert (Hin : In (Router.GET, "/api/bills/by-stage")
                           (skipn 3 Router.complete))
            by (unfold Router.complete; cbn [skipn]; rewrite Hrest;
                apply in_or_app; right; now left).
          unfold Router.complete in Hin. cbn [skipn] in Hin. simpl in Hin.
          repeat (destruct Hin as [Hin | Hin]; [discriminate Hin |]).
          contradiction. }
      apply (by_stage_shadowed "identifier" (Router.segments path));
        [rewrite Hhit; discriminate |].
      exact (Hmiss _ Hbefore).
  - intros method route Hin Hother.
    assert (Hcases :
              In (method, route)
                 [ (Router.GET, "/api/bills"); (Router.GET, "/api/stats/pipeline");
                   (Router.GET, "/api/stats/summary"); (Router.GET, "/api/legislators");
                   (Router.GET, "/api/search"); (Router.POST, "/api/cache/clear");
                   (Router.GET, "/health"); (Router.POST, "/api/search/advanced");
                   (Router.GET, "/api/favorites"); (Router.POST, "/api/favorites");
                   (Router.POST, "/api/subscribe"); (Router.GET, "/api/verify-email");
                   (Router.GET, "/api/unsubscribe"); (Router.GET, "/api/export/csv");
                   (Router.GET, "/api/export/xlsx"); (Router.POST, "/api/export/custom") ] \/
              In (method, route)
                 [ (Router.GET, "/api/bills/:billId"); (Router.GET, "/api/bills/:identifier");
                   (Router.DELETE, "/api/favorites/:billId");
                   (Router.GET, "/api/favorites/check/:billId"); (Router.GET, "*") ]).
    { unfold Router.enhanced, Router.complete in Hin. simpl in Hin |- *.
      repeat match goal with
             | H : _ \/ _ |- _ => destruct H as [H | H]
             | H : (_, _) = (_, _) |- _ => injection H as <- <-
             | H : False |- _ => contradiction
             end; try tauto; now elim Hother. }
    destruct Hcases as [Hplain | Hspecial].
    + exists route, [].
      simpl in Hplain.
      repeat (destruct Hplain as [Hplain | Hplain];
              [injection Hplain as <- <-;
               split; intros Hreg; first [reflexivity
                                         | exfalso; unfold Router.enhanced, Router.complete in Hreg;
                                           simpl in Hreg;
                                           repeat (destruct Hreg as [Hreg | Hreg];
                                                   [discriminate Hreg |]);
                                           contradiction] |]).
      contradiction.
    + simpl in Hspecial.
      destruct Hspecial as [H | [H | [H | [H | [H | []]]]]]; injection H as <- <-.
      * exists "/api/bills/HB1001", [("billId", "HB1001")].
        split; intros Hreg; first [reflexivity
          | exfalso; unfold Router.enhanced, Router.complete in Hreg; simpl in Hreg;
            repeat (destruct Hreg as [Hreg | Hreg]; [discriminate Hreg |]);
            contradiction].
      * exists "/api/bills/HB1001", [("identifier", "HB1001")].
        split; intros Hreg; first [reflexivity
          | exfalso; unfold Router.enhanced, Router.complete in Hreg; simpl in Hreg;
            repeat (destruct Hreg as [Hreg | Hreg]; [discriminate Hreg |]);
            contradiction].
      * exists "/api/favorites/7", [("billId", "7")].
        split; intros Hreg; first [reflexivity
          | exfalso; unfold Router.enhanced, Router.complete in Hreg; simpl in Hreg;
            repeat (destruct Hreg as [Hreg | Hreg]; [discriminate Hreg |]);
            contradiction].
      * exists "/api/favorites/check/7", [("billId", "7")].
        split; intros Hreg; first [reflexivity
          | exfalso; unfold Router.enhanced, Router.complete in Hreg; simpl in Hreg;
            repeat (destruct Hreg as [Hreg | Hreg]; [discriminate Hreg |]);
            contradiction].
      * exists "/dashboard", [].
        split; intros Hreg; reflexivity.
Qed.

Lemma by_stage_route_never_answers_witness :
  exists path params,
    Router.dispatch Router.enhanced Router.GET path =
      Some ("/api/stats/pipeline", params).
Proof.
  destruct (proj2 (proj2 (proj2 by_stage_route_never_answers))
              Router.GET "/api/stats/pipeline")
    as [path [params [Henh _]]].
  - left. unfold Router.enhanced. simpl. tauto.
  - discriminate.
  - exists path, params. apply Henh. unfold Router.enhanced. simpl. tauto.
Defined.
